(** * Legal case management: case resolution and workflow orchestration

    A shallow embedding of the case matcher, the duplicate detector and the
    two workflow branches (services/notionService.js,
    services/workflowOrchestrator.js, utils/helpers.js, utils/errors.js, and
    the mail and calendar services as the orchestrator calls them), of the
    entry point of a voice note with the role constraints that precede it
    (agents/aiAgent.js, middleware/auth.js, auth/userRegistry.js) and of the
    time of a calendar event (services/calendarService.js), followed by the
    properties of the specification settled against it and by further
    properties of the code.

    Conventions of the embedding.
    - A JavaScript string is a [string]; case folding and the classes \s, \w
      and \b are the ASCII ones.
    - A nullable string field is an [option string]; JavaScript truthiness of
      such a field ([truthy]) holds for a present, non-empty string.  Inside
      a message an absent value prints as null.
    - An absent array ([documents_needed], [missing_fields]) is the empty
      list: the source only ever tests [x?.length > 0] or takes [x || []].
    - Scores are exact rationals ([Q]); the source computes them in doubles.
    - An asynchronous method is a computation over the world: the pages of
      the store, the history paragraphs, the hearing rows, the calls made to
      the sinks and the operation log.  An exception keeps the state reached
      so far, as nothing is rolled back.
    - The record store is the list of its pages in query order.  The store
      and the mail transport answer every call: a lost connection is
      outside the model.  The calendar inserts the event of a hearing, fails
      to, or rejects the credential, which is the one failure the calendar
      service raises again.  The clock, the random generator, the date
      parser, the configuration of the sinks and the answer of the calendar
      are fields of an environment.
    - A number is printed in base 36 as the runtime prints it: the shortest
      digits that identify the double, computed in double arithmetic.

    Layout: the primitives and the model of each source file; the vocabulary
    of the properties and the scenarios; then the lemmas and, claim by claim,
    the theorems; then the further properties, X1 to X27. *)

From Stdlib Require Import String Ascii List Bool Arith PeanoNat NArith ZArith QArith Lia.
Import ListNotations.
Open Scope string_scope.
Open Scope nat_scope.
Open Scope bool_scope.

(* ===================================================================== *)
(** ** JavaScript string primitives used by the source                   *)
(* ===================================================================== *)

Module JS.

Definition code (c : ascii) : nat := nat_of_ascii c.

Definition between (lo hi : nat) (c : ascii) : bool :=
  (lo <=? code c) && (code c <=? hi).

Definition is_lower (c : ascii) : bool := between 97 122 c.
Definition is_upper (c : ascii) : bool := between 65 90 c.
Definition is_digit (c : ascii) : bool := between 48 57 c.

(** The class \s. *)
Definition is_space (c : ascii) : bool := (code c =? 32) || between 9 13 c.

(** The class \w. *)
Definition is_word (c : ascii) : bool :=
  is_lower c || is_upper c || is_digit c || (code c =? 95).

Definition lower_char (c : ascii) : ascii :=
  if is_upper c then ascii_of_nat (code c + 32) else c.

Definition upper_char (c : ascii) : ascii :=
  if is_lower c then ascii_of_nat (code c - 32) else c.

Fixpoint map_chars (f : ascii -> ascii) (s : string) : string :=
  match s with
  | EmptyString => EmptyString
  | String c r => String (f c) (map_chars f r)
  end.

Definition toLowerCase : string -> string := map_chars lower_char.
Definition toUpperCase : string -> string := map_chars upper_char.

Fixpoint trimStart (s : string) : string :=
  match s with
  | String c r => if is_space c then trimStart r else s
  | EmptyString => EmptyString
  end.

Fixpoint rev_string (s : string) : string :=
  match s with
  | EmptyString => EmptyString
  | String c r => rev_string r ++ String c EmptyString
  end.

Definition trim (s : string) : string :=
  rev_string (trimStart (rev_string (trimStart s))).

Fixpoint startsWith (s p : string) : bool :=
  match p, s with
  | EmptyString, _ => true
  | String a p', String b s' => Ascii.eqb a b && startsWith s' p'
  | String _ _, EmptyString => false
  end.

(** [s.includes(sub)]. *)
Fixpoint includes (s sub : string) : bool :=
  startsWith s sub ||
  match s with
  | EmptyString => false
  | String _ r => includes r sub
  end.

(** [s.split(/\s+/)]: an empty piece is produced at either end when the
    string starts or ends with white space, and for the empty string. *)
Fixpoint split_ws_from (cur : string) (gap : bool) (s : string) : list string :=
  match s with
  | EmptyString => [cur]
  | String c r =>
      if is_space c
      then (if gap then split_ws_from "" true r
            else cur :: split_ws_from "" true r)
      else split_ws_from (cur ++ String c "") false r
  end.

Definition split_ws (s : string) : list string := split_ws_from "" false s.

(** [s.split(ch)] for a one-character separator. *)
Fixpoint split_char_from (sep : ascii) (cur : string) (s : string) : list string :=
  match s with
  | EmptyString => [cur]
  | String c r =>
      if Ascii.eqb c sep then cur :: split_char_from sep "" r
      else split_char_from sep (cur ++ String c "") r
  end.

Definition split_char (sep : ascii) (s : string) : list string :=
  split_char_from sep "" s.

(** [arr.join(sep)]. *)
Fixpoint join (sep : string) (l : list string) : string :=
  match l with
  | [] => ""
  | [x] => x
  | x :: r => x ++ sep ++ join sep r
  end.

(** [s.substring(a, b)] for [a <= b]. *)
Definition substring (a b : nat) (s : string) : string :=
  String.substring a (b - a) s.

(** [arr.includes(x)] on strings. *)
Definition mem (x : string) (l : list string) : bool :=
  existsb (String.eqb x) l.

(** Truthiness of a nullable string, and [a || b]. *)
Definition truthy (o : option string) : bool :=
  match o with
  | Some s => negb (String.eqb s "")
  | None => false
  end.

Definition or_else (a b : option string) : option string :=
  if truthy a then a else b.

(** [(x || '')]. *)
Definition or_empty (o : option string) : string :=
  match o with Some s => s | None => "" end.

(** [s.replace(/\s+/g, ' ')]. *)
Fixpoint collapse_ws_from (gap : bool) (s : string) : string :=
  match s with
  | EmptyString => EmptyString
  | String c r =>
      if is_space c
      then (if gap then collapse_ws_from true r
            else String " " (collapse_ws_from true r))
      else String c (collapse_ws_from false r)
  end.

Definition collapse_ws : string -> string := collapse_ws_from false.

Definition head_char (s : string) : option ascii :=
  match s with String c _ => Some c | EmptyString => None end.

Definition word_at (o : option ascii) : bool :=
  match o with Some c => is_word c | None => false end.

(** The assertion \b between two neighbouring positions. *)
Definition boundary (prev next : option ascii) : bool :=
  xorb (word_at prev) (word_at next).

Fixpoint drop (n : nat) (s : string) : string :=
  match n, s with
  | S k, String _ r => drop k r
  | _, _ => s
  end.

Fixpoint last_char (s : string) : option ascii :=
  match s with
  | EmptyString => None
  | String c EmptyString => Some c
  | String _ r => last_char r
  end.

(** Decimal digits of a number, as [String(n)] prints them. *)
Fixpoint digits_fuel (fuel n : nat) (acc : string) : string :=
  match fuel with
  | O => acc
  | S f =>
      let acc' := String (ascii_of_nat (48 + n mod 10)) acc in
      if n / 10 =? 0 then acc' else digits_fuel f (n / 10) acc'
  end.

Definition of_nat (n : nat) : string := digits_fuel (S n) n "".

End JS.

(* ===================================================================== *)
(** ** utils/helpers.js                                                  *)
(* ===================================================================== *)

Module Helpers.
Import JS.

(** *** generateCaseNumber *)

(** The digit [d < 36] as a character. *)
Definition digit36 (d : N) : ascii :=
  let n := N.to_nat d in
  if n <? 10 then ascii_of_nat (48 + n) else ascii_of_nat (87 + n).

(** A double, as the integer [m] and the exponent [e] of [m * 2^e], and
    the arithmetic of the printing on it: every result is rounded to 53
    bits, to the nearest and on a tie to the even one. *)
Module Double.
Definition t : Type := N * Z.

Definition round (m : N) (e : Z) : t :=
  let extra := (N.size m - 53)%N in
  if (extra =? 0)%N then (m, e)
  else
    let q := N.shiftr m extra in
    let r := (m - N.shiftl q extra)%N in
    let half := N.shiftl 1 (extra - 1) in
    let up := (half <? r)%N || ((r =? half)%N && N.odd q) in
    ((if up then q + 1 else q)%N, (e + Z.of_N extra)%Z).

Definition scaled (a : t) (e : Z) : N := N.shiftl (fst a) (Z.to_N (snd a - e)).

Definition compare (a b : t) : comparison :=
  let e := Z.min (snd a) (snd b) in N.compare (scaled a e) (scaled b e).

Definition ltb (a b : t) : bool := match compare a b with Lt => true | _ => false end.
Definition eqb (a b : t) : bool := match compare a b with Eq => true | _ => false end.
Definition leb (a b : t) : bool := negb (ltb b a).

Definition add (a b : t) : t :=
  let e := Z.min (snd a) (snd b) in round (scaled a e + scaled b e) e.

Definition mul (a : t) (n : N) : t := round (fst a * n) (snd a).

(** [static_cast<int>(a)] *)
Definition floor (a : t) : N :=
  if (0 <=? snd a)%Z then N.shiftl (fst a) (Z.to_N (snd a))
  else N.shiftr (fst a) (Z.to_N (- snd a)).

(** [a - n] for [n <= a] *)
Definition sub_N (a : t) (n : N) : t :=
  let e := Z.min (snd a) 0 in round (scaled a e - N.shiftl n (Z.to_N (- e))) e.

Definition half : t := (1%N, (-1)%Z).
Definition one : t := (1%N, 0%Z).

(** [0.5 * (NextDouble(a) - a)] for [a = m * 2^e] with [m] of at most 53
    bits, and the least positive double for zero. *)
Definition half_gap (a : t) : t :=
  if (fst a =? 0)%N then (1%N, (-1074)%Z)
  else (1%N, (Z.of_N (N.size (fst a)) + snd a - 54)%Z).
End Double.

(** The carry into the digits already written, the last one first: the
    digits equal to z are dropped and the one before them is raised;
    [None] when the carry reaches the integer part. *)
Fixpoint carry (digits : list N) : option (list N) :=
  match digits with
  | [] => None
  | d :: rest => if (d + 1 <? 36)%N then Some ((d + 1)%N :: rest) else carry rest
  end.

(** The loop of [DoubleToRadixCString], the routine of the runtime behind
    [Number.prototype.toString(radix)]: a digit is written while the rest
    is at least [delta], half the gap to the next double scaled with it, so
    that the printing stops at the shortest digits that identify the double;
    the last digit is rounded, with a carry.  [delta] is at least 2^-107 at
    the start and grows 36-fold at each turn, while the rest is below 1: the
    loop ends within 22 turns, well inside the fuel. *)
Fixpoint fractionDigits (fuel : nat) (fraction delta : Double.t) (digits : list N)
  : option (list N) :=
  match fuel with
  | O => Some digits
  | S fuel =>
      let fraction := Double.mul fraction 36 in
      let delta := Double.mul delta 36 in
      let digit := Double.floor fraction in
      let digits := digit :: digits in
      let fraction := Double.sub_N fraction digit in
      if (Double.ltb Double.half fraction
          || (Double.eqb fraction Double.half && N.odd digit))
         && Double.ltb Double.one (Double.add fraction delta)
      then carry digits
      else if Double.leb delta fraction
           then fractionDigits fuel fraction delta digits
           else Some digits
  end.

(** [value.toString(36)] for a double [0 <= value < 1]. *)
Definition radix36 (value : Double.t) : string :=
  let delta := Double.half_gap value in
  if Double.leb delta value then
    match fractionDigits 128 value delta [] with
    | Some digits => "0." ++ string_of_list_ascii (map digit36 (rev digits))
    | None => "1"
    end
  else "0".

(** [r.toString(36)] for an outcome of [Math.random()], the double
    [r = x / 2^53] with [x < 2^53]. *)
Definition toString36 (x : N) : string := radix36 (x, (-53)%Z).

(** [generateCaseNumber()], given the year of the clock and the outcome of
    the random generator. *)
Definition generateCaseNumber (year : nat) (random : N) : string :=
  let random := toUpperCase (substring 2 7 (toString36 random)) in
  "CASE-" ++ of_nat year ++ "-" ++ random.

(** The pattern [CASE-\d{4}-[A-Z0-9]{5}], anchored at both ends. *)
Fixpoint all_chars (p : ascii -> bool) (s : string) : bool :=
  match s with
  | EmptyString => true
  | String c r => p c && all_chars p r
  end.

Definition matches_case_pattern (s : string) : bool :=
  (String.length s =? 15) &&
  String.eqb (substring 0 5 s) "CASE-" &&
  all_chars is_digit (substring 5 9 s) &&
  String.eqb (substring 9 10 s) "-" &&
  all_chars (fun c => is_upper c || is_digit c) (substring 10 15 s).

(** *** isRealEmail *)

Definition fakeDomains : list string :=
  [ "example.com"; "example.org"; "example.net";
    "test.com"; "test.org"; "test.net";
    "fake.com"; "fake.org";
    "dummy.com"; "dummy.org";
    "sample.com"; "sample.org";
    "placeholder.com"; "placeholder.org";
    "mailinator.com"; "tempmail.com";
    "localhost"; "localhost.com";
    "abc.com"; "xyz.com"; "aaa.com";
    "email.com"; "mail.com" ].

Definition fakeLocalParts : list string :=
  [ "test"; "demo"; "fake"; "dummy"; "sample"; "placeholder";
    "user"; "admin"; "info"; "contact"; "noreply"; "no-reply";
    "asdf"; "qwerty"; "abcd"; "xyz"; "abc"; "aaa"; "bbb" ].

(** [/^[a-z]{1,3}@/.test(email)] *)
Definition short_local_part (email : string) : bool :=
  existsb (fun k => all_chars is_lower (substring 0 k email)
                    && String.eqb (substring k (S k) email) "@")
          [1; 2; 3].

Definition isRealEmail (email : option string) : bool :=
  match email with
  | None => false
  | Some "" => false
  | Some email =>
      let email := toLowerCase (trim email) in
      if negb (includes email "@") || negb (includes email ".") then false
      else
        match split_char "@" email with
        | [localPart; domain] =>
            if String.eqb localPart "" || String.eqb domain "" then false
            else if mem domain fakeDomains then false
            else if mem localPart fakeLocalParts then false
            else if short_local_part email then false
            else true
        | _ => false
        end
  end.

(** *** calculateSimilarity *)

(** The alternatives of [/\b(case|matter|vs|v\.?|the)\b/gi] in the order
    in which the matcher tries them: the greedy [v\.?] is ["v."] and then,
    on backtracking, ["v"]. *)
Definition fillers : list string := ["case"; "matter"; "vs"; "v."; "v"; "the"].

Definition filler_here (s alt : string) : bool :=
  startsWith (toLowerCase s) alt
  && boundary (last_char alt) (head_char (drop (String.length alt) s)).

(** Length of the filler word matched at the head of [s], where [prev] is
    the character before it. *)
Definition filler_at (prev : option ascii) (s : string) : option nat :=
  if boundary prev (head_char s)
  then option_map String.length (find (filler_here s) fillers)
  else None.

Fixpoint remove_fillers_from (prev : option ascii) (skip : nat) (s : string) : string :=
  match s with
  | EmptyString => EmptyString
  | String c r =>
      match skip with
      | S k => remove_fillers_from (Some c) k r
      | O =>
          match filler_at prev s with
          | Some (S k) => remove_fillers_from (Some c) k r
          | _ => String c (remove_fillers_from (Some c) 0 r)
          end
      end
  end.

Definition normalize (s : string) : string :=
  trim (remove_fillers_from None 0 (collapse_ws s)).

Definition significant (w : string) : bool := 1 <? String.length w.

Definition ratio (n d : nat) : Q :=
  (inject_Z (Z.of_nat n) / inject_Z (Z.of_nat d))%Q.

Definition Qmin (a b : Q) : Q := if Qle_bool a b then a else b.

Definition calculateSimilarity (str1 str2 : string) : Q :=
  if String.eqb str1 "" || String.eqb str2 "" then 0%Q
  else
    let s1 := trim (toLowerCase str1) in
    let s2 := trim (toLowerCase str2) in
    if String.eqb s1 s2 then 1%Q
    else
      let n1 := normalize s1 in
      let n2 := normalize s2 in
      if String.eqb n1 n2 then (95 # 100)%Q
      else if includes n1 n2 || includes n2 n1 then (85 # 100)%Q
      else
        let words1 := filter significant (split_ws n1) in
        let words2 := filter significant (split_ws n2) in
        if (length words1 =? 0) || (length words2 =? 0) then 0%Q
        else
          let matchingWords := filter (fun w => mem w words2) words1 in
          let matchRatio1 := ratio (length matchingWords) (length words1) in
          let matchRatio2 := ratio (length matchingWords) (length words2) in
          let avgRatio := ((matchRatio1 + matchRatio2) / 2)%Q in
          if Qeq_bool matchRatio1 1 && (2 <=? length words1)
          then Qmin (9 # 10)%Q (avgRatio + (2 # 10))%Q
          else avgRatio.

(** *** sanitizeString *)

(** [str.replace(/[<>]/g, '')] *)
Fixpoint remove_angle (s : string) : string :=
  match s with
  | EmptyString => EmptyString
  | String c r =>
      if Ascii.eqb c "<" || Ascii.eqb c ">" then remove_angle r
      else String c (remove_angle r)
  end.

Definition sanitizeString (str : option string) : string :=
  if truthy str
  then substring 0 2000 (trim (remove_angle (or_empty str)))
  else "".

(** *** truncate, for a maximal length that is a natural number *)
Definition truncate (text : option string) (maxLength : nat) : option string :=
  if negb (truthy text) || (String.length (or_empty text) <=? maxLength) then text
  else Some (substring 0 (maxLength - 3) (or_empty text) ++ "...")%string.

End Helpers.

(* ===================================================================== *)
(** ** Data model                                                        *)
(* ===================================================================== *)

Definition PageId := nat.

(** The double quote, for the messages that contain one. *)
Definition dq : string := String (ascii_of_nat 34) EmptyString.

(** How a nullable string prints inside a template literal. *)
Definition show (o : option string) : string :=
  match o with Some s => s | None => "null" end.

(** A case as [parseNotionPage] returns it, which is also how a page of the
    database is kept here. *)
Module Case.
Record t := mk {
  id : PageId;
  case_name : option string;
  case_number : option string;
  status : option string;
  client_name : option string;
  client_email : option string;
  junior_name : option string;
  junior_email : option string;
  summary : option string;
  latest_outcome : option string;
  documents_needed : option string;
  hearing_count : nat;
  next_hearing : option string;
  client_welcome_sent : bool;
  assigned_to : option string;
  created_by : option string;
  last_updated : option string
}.
End Case.

(** The extracted case payload ([caseData]). *)
Module Payload.
Record t := mk {
  action_type : string;
  lookup_key : option string;
  case_name : option string;
  case_number : option string;
  client_name : option string;
  client_email : option string;
  client_phone : option string;
  junior_name : option string;
  junior_email : option string;
  outcome : option string;
  status : option string;
  next_hearing_date : option string;
  next_hearing_time : option string;
  documents_needed : list string;
  assign_to_junior : bool;
  missing_fields : list string;
  raw_notes : option string;
  case_summary : option string
}.

Definition set_missing_fields (l : list string) (d : t) : t :=
  mk (action_type d) (lookup_key d) (case_name d) (case_number d)
     (client_name d) (client_email d) (client_phone d) (junior_name d)
     (junior_email d) (outcome d) (status d) (next_hearing_date d)
     (next_hearing_time d) (documents_needed d) (assign_to_junior d)
     l (raw_notes d) (case_summary d).

Definition set_case_summary (s : option string) (d : t) : t :=
  mk (action_type d) (lookup_key d) (case_name d) (case_number d)
     (client_name d) (client_email d) (client_phone d) (junior_name d)
     (junior_email d) (outcome d) (status d) (next_hearing_date d)
     (next_hearing_time d) (documents_needed d) (assign_to_junior d)
     (missing_fields d) (raw_notes d) s.
End Payload.

(** The actor ([this.user], [userContext]). *)
Module User.
Inductive Role := SENIOR | JUNIOR.

Record t := mk {
  id : string;
  role : Role;
  name : string;
  email : option string;
  junior_name : option string;
  junior_email : option string;
  auto_assign_to_junior : bool
}.

Definition is_senior (u : t) : bool :=
  match role u with SENIOR => true | JUNIOR => false end.
End User.

(** [config.caseStatuses]. *)
Module caseStatuses.
Definition DRAFT := "Draft".
Definition ACTIVE := "Active".
Definition CONTINUING := "Continuing".
Definition FINALIZED := "Finalized".
Definition CLOSED := "Closed".
Definition ACTION_REQUIRED := "Action Required".
End caseStatuses.

(** The value a status is given by the orchestrator: a label of the
    configuration, or, for a status that names a member every object
    inherits ([constructor], [toString], ...), that member, which is no
    string. *)
Inductive StatusValue :=
| status_label (name : string)
| inherited_member (key : string).

(** What becomes of [calendar.events.insert] inside [createHearingEvent]:
    the event is inserted under an identifier; or the date cannot be parsed
    or the insertion fails with an error whose code is not 401; or the
    insertion fails with code 401, the credential being rejected. *)
Inductive CalendarAnswer :=
| inserted (event_id : string)
| insert_failed
| unauthorized.

(** What the run reads from outside the program. *)
Module Env.
Record t := mk {
  (** [new Date().getFullYear()] *)
  year : nat;
  (** the outcome of [Math.random()], over [2^53] *)
  random : N;
  (** [new Date().toISOString()] and its date part *)
  now : string;
  today : string;
  (** [process.env.DEMO_USER_EMAIL] *)
  DEMO_USER_EMAIL : option string;
  (** [new Date(d).toISOString().split('T')[0]]; [None] when the date is
      invalid and [toISOString] raises a RangeError *)
  isoDate : string -> option string;
  (** the text the summary model returns for a payload *)
  aiSummary : Payload.t -> string;
  (** whether the mail transport and the calendar are configured *)
  emailConfigured : bool;
  calendarConfigured : bool;
  (** what becomes of the calendar event built for a date *)
  calendarInsert : string -> CalendarAnswer
}.
End Env.

(** An entry of a [DuplicateCaseError]. *)
Record Match := mkMatch {
  m_id : PageId;
  m_case_name : option string;
  m_case_number : option string
}.

(* ===================================================================== *)
(** ** utils/errors.js                                                   *)
(* ===================================================================== *)

Inductive Exn :=
| CaseNotFoundError (identifier : string)
| DuplicateCaseError (matches : list Match)
| CaseAlreadyExistsError (existingCase : Case.t)
| ExternalServiceError (service message : string)
(** a TypeError or RangeError of the runtime *)
| RuntimeError (message : string).

Definition message (e : Exn) : string :=
  match e with
  | CaseNotFoundError identifier => "Case not found: " ++ identifier
  | DuplicateCaseError _ =>
      "Multiple cases found. Please specify case number for clarity."
  | CaseAlreadyExistsError c =>
      "A similar case already exists: " ++ dq ++ show (Case.case_name c) ++ dq
      ++ " (" ++ show (Case.case_number c) ++ "). "
      ++ "Please update the existing case instead of creating a new one."
  | ExternalServiceError service m => service ++ " error: " ++ m
  | RuntimeError m => m
  end.

(* ===================================================================== *)
(** ** The world the workflow acts on                                    *)
(* ===================================================================== *)

(** A row of a case's hearing-history table. *)
Record Hearing := mkHearing {
  h_number : nat;
  h_date : string;
  h_description : string;
  h_outcome : string;
  h_next_steps : string;
  h_documents : string;
  h_court : string
}.

(** A call made to the mail or the calendar sink. *)
Inductive Call :=
| sendJuniorAssignmentEmail (junior_email : option string)
| sendClientUpdateEmail (client_email : option string)
| sendClientHearingReport (client_email : option string) (hearingNumber : nat)
| sendDocumentRequestToClient (client_email : option string)
| sendDocumentRequestToJunior (junior_email : option string)
| createHearingEvent (case_name : option string) (date : string) (time : option string)
| createDocumentReminder (case_name : option string).

Module World.
Record t := mk {
  (** the pages of the case database, in query order *)
  pages : list Case.t;
  (** the history paragraphs appended to page bodies *)
  blocks : list (PageId * string);
  (** the rows of the hearing tables *)
  hearings : list (PageId * Hearing);
  (** the calls made to the mail and calendar sinks *)
  calls : list Call;
  (** [this.operationLog]: type tag and message *)
  operationLog : list (string * string)
}.

Definition set_pages (p : list Case.t) (w : t) : t :=
  mk p (blocks w) (hearings w) (calls w) (operationLog w).
Definition add_block (b : PageId * string) (w : t) : t :=
  mk (pages w) (blocks w ++ [b]) (hearings w) (calls w) (operationLog w).
Definition add_hearing (h : PageId * Hearing) (w : t) : t :=
  mk (pages w) (blocks w) (hearings w ++ [h]) (calls w) (operationLog w).
Definition add_call (c : Call) (w : t) : t :=
  mk (pages w) (blocks w) (hearings w) (calls w ++ [c]) (operationLog w).
Definition add_log (e : string * string) (w : t) : t :=
  mk (pages w) (blocks w) (hearings w) (calls w) (operationLog w ++ [e]).

Definition initial (p : list Case.t) : t := mk p [] [] [] [].
End World.

(** *** Computations: state threaded through, exceptions keep the state *)

Inductive Outcome (A : Type) :=
| Returns (a : A)
| Throws (e : Exn).
Arguments Returns {A} a.
Arguments Throws {A} e.

Definition M (A : Type) : Type := World.t -> Outcome A * World.t.

Definition ret {A} (a : A) : M A := fun w => (Returns a, w).

Definition throw {A} (e : Exn) : M A := fun w => (Throws e, w).

Definition bind {A B} (m : M A) (k : A -> M B) : M B :=
  fun w =>
    match m w with
    | (Returns a, w') => k a w'
    | (Throws e, w') => (Throws e, w')
    end.

(** [try { m } catch (error) { h error }] *)
Definition try_catch {A} (m : M A) (h : Exn -> M A) : M A :=
  fun w =>
    match m w with
    | (Returns a, w') => (Returns a, w')
    | (Throws e, w') => h e w'
    end.

Definition gets {A} (f : World.t -> A) : M A := fun w => (Returns (f w), w).

Definition modify (f : World.t -> World.t) : M unit := fun w => (Returns tt, f w).

Definition when (b : bool) (m : M unit) : M unit := if b then m else ret tt.

Declare Scope workflow_scope.
Delimit Scope workflow_scope with workflow.
Notation "x <- m ;; k" := (bind m (fun x => k))
  (at level 61, m at next level, right associativity) : workflow_scope.
Notation "m ;; k" := (bind m (fun _ => k))
  (at level 61, right associativity) : workflow_scope.
Open Scope workflow_scope.

(* ===================================================================== *)
(** ** services/notionService.js                                         *)
(* ===================================================================== *)

Module NotionService.
Import JS Helpers.

(** Modelled from the spec: the text filter [contains] of the record store
    is a service outside the repository; section 4.2 describes the search as
    a case-insensitive substring match over the property. *)
Definition contains (property : option string) (value : string) : bool :=
  match property with
  | Some text => includes (toLowerCase text) (toLowerCase value)
  | None => false
  end.

(** [getTitle], [getRichText]: [content || null]. *)
Definition getRichText (o : option string) : option string :=
  if truthy o then o else None.

Definition parseNotionPage (page : Case.t) : Case.t :=
  Case.mk (Case.id page)
    (getRichText (Case.case_name page))
    (getRichText (Case.case_number page))
    (Case.status page)
    (getRichText (Case.client_name page))
    (Case.client_email page)
    (getRichText (Case.junior_name page))
    (Case.junior_email page)
    (getRichText (Case.summary page))
    (Case.latest_outcome page)
    (getRichText (Case.documents_needed page))
    (Case.hearing_count page)
    (Case.next_hearing page)
    (Case.client_welcome_sent page)
    (getRichText (Case.assigned_to page))
    (getRichText (Case.created_by page))
    (getRichText (Case.last_updated page)).

(** [allResults.filter((item, index, self) =>
       index === self.findIndex(t => t.id === item.id))] *)
Fixpoint uniqueResults (seen : list PageId) (l : list Case.t) : list Case.t :=
  match l with
  | [] => []
  | item :: r =>
      if existsb (Nat.eqb (Case.id item)) seen then uniqueResults seen r
      else item :: uniqueResults (Case.id item :: seen) r
  end.

(** The four queries of [searchCases] against the pages of the database. *)
Definition search (pages : list Case.t) (query : string) : list Case.t :=
  let keywords :=
    filter (fun w => 2 <? String.length w) (split_ws (toLowerCase query)) in
  let nameResults := filter (fun p => contains (Case.case_name p) query) pages in
  let numberResults := filter (fun p => contains (Case.case_number p) query) pages in
  let clientResults := filter (fun p => contains (Case.client_name p) query) pages in
  let keywordResults :=
    match keywords with
    | k :: _ =>
        if 3 <? String.length k
        then filter (fun p => contains (Case.case_name p) k
                              || contains (Case.client_name p) k) pages
        else []
    | [] => []
    end in
  map parseNotionPage
      (uniqueResults [] (nameResults ++ numberResults ++ clientResults ++ keywordResults)).

(** [searchCases(query)]; an undefined query fails on [query.toLowerCase()]
    inside the try block. *)
Definition searchCases (query : option string) : M (list Case.t) :=
  try_catch
    match query with
    | None =>
        throw (RuntimeError
                 "Cannot read properties of undefined (reading 'toLowerCase')")
    | Some q => gets (fun w => search (World.pages w) q)
    end
    (fun error => throw (ExternalServiceError "Notion" (message error))).

(** *** findCase *)

Inductive MatchType := case_number | full_name_match | partial.

Record Scored := mkScored {
  scored_case : Case.t;
  similarity : Q;
  matchType : MatchType
}.

Definition searchWords (lookupKey : string) : list string :=
  filter significant (split_ws (trim (toLowerCase lookupKey))).

Definition exactCaseNumber (lookupKey : string) (r : Case.t) : bool :=
  let caseNumber := toUpperCase (or_empty (Case.case_number r)) in
  includes (toUpperCase lookupKey) caseNumber && (5 <? String.length caseNumber).

Definition allTargetWords (r : Case.t) : list string :=
  let caseName := toLowerCase (or_empty (Case.case_name r)) in
  let clientName := toLowerCase (or_empty (Case.client_name r)) in
  split_ws caseName ++ split_ws clientName.

(** [allTargetWords.some(tw => tw.includes(sw) || sw.includes(tw))] *)
Definition wordMatches (r : Case.t) (sw : string) : bool :=
  existsb (fun tw => includes tw sw || includes sw tw) (allTargetWords r).

Definition matchingWords (lookupKey : string) (r : Case.t) : list string :=
  filter (wordMatches r) (searchWords lookupKey).

Definition scoreResult (lookupKey : string) (r : Case.t) : Scored :=
  let searchWords := searchWords lookupKey in
  let matchingWords := matchingWords lookupKey r in
  if exactCaseNumber lookupKey r then mkScored r 1 case_number
  else if (length matchingWords =? length searchWords) && (2 <=? length searchWords)
  then mkScored r (95 # 100) full_name_match
  else
    let matchRatio :=
      if 0 <? length searchWords
      then ratio (length matchingWords) (length searchWords) else 0%Q in
    mkScored r (matchRatio * (7 # 10))%Q partial.

(** [scoredResults.sort((a, b) => b.similarity - a.similarity)]: the sort of
    the runtime is stable. *)
Fixpoint insertScored (x : Scored) (l : list Scored) : list Scored :=
  match l with
  | [] => [x]
  | y :: r =>
      if Qle_bool (similarity y) (similarity x) then x :: l
      else y :: insertScored x r
  end.

Definition sortScored (l : list Scored) : list Scored :=
  fold_right insertScored [] l.

Definition toMatch (r : Case.t) : Match :=
  mkMatch (Case.id r) (Case.case_name r) (Case.case_number r).

(** The part of [findCase] after the search.  For several results the source
    returns the selected case extended with its score and match type; the
    case itself is returned here. *)
Definition findCaseIn (lookupKey : string) (results : list Case.t) : Outcome Case.t :=
  match results with
  | [] => Throws (CaseNotFoundError lookupKey)
  | [singleResult] =>
      let searchWords := searchWords lookupKey in
      let matchingWords := matchingWords lookupKey singleResult in
      if exactCaseNumber lookupKey singleResult then Returns singleResult
      else if (2 <=? length searchWords)
              && (length matchingWords =? length searchWords)
      then Returns singleResult
      else if (2 <=? length searchWords)
              && (length matchingWords <? length searchWords)
      then Throws (CaseNotFoundError lookupKey)
      else Returns singleResult
  | _ =>
      match sortScored (map (scoreResult lookupKey) results) with
      | bestMatch :: secondBest :: _ =>
          let gap := (similarity bestMatch - similarity secondBest)%Q in
          if Qle_bool (9 # 10) (similarity bestMatch)
             || (Qle_bool (7 # 10) (similarity bestMatch) && Qle_bool (2 # 10) gap)
          then Returns (scored_case bestMatch)
          else Throws (DuplicateCaseError (map toMatch results))
      | _ => Throws (DuplicateCaseError (map toMatch results))
      end
  end.

Definition findCase (lookupKey : option string) : M Case.t :=
  results <- searchCases lookupKey ;;
  match findCaseIn (or_empty lookupKey) results with
  | Returns c => ret c
  | Throws e => throw e
  end.

(** [getCaseById(pageId)] *)
Definition getCaseById (pageId : PageId) : M Case.t :=
  page <- gets (fun w => find (fun p => Case.id p =? pageId) (World.pages w)) ;;
  match page with
  | Some p => ret (parseNotionPage p)
  | None => throw (CaseNotFoundError (of_nat pageId))
  end.

(** *** checkDuplicateCase *)

(** The search key of the duplicate check: the client name, else the first
    two words of more than two characters of the case name. *)
Definition duplicateSearchKey (caseData : Payload.t) : option string :=
  let searchKey := Payload.client_name caseData in
  if negb (truthy searchKey) && truthy (Payload.case_name caseData)
  then
    let words := filter (fun w => 2 <? String.length w)
                        (split_ws (or_empty (Payload.case_name caseData))) in
    Some (join " " (firstn 2 words))
  else searchKey.

(** The body of the loop over the search results: whether [existing] makes
    the proposed case a duplicate. *)
Definition isDuplicateOf (caseData : Payload.t) (existing : Case.t) : bool :=
  let existingClientName := trim (toLowerCase (or_empty (Case.client_name existing))) in
  let existingCaseName := trim (toLowerCase (or_empty (Case.case_name existing))) in
  let newClientName := trim (toLowerCase (or_empty (Payload.client_name caseData))) in
  let newCaseName := trim (toLowerCase (or_empty (Payload.case_name caseData))) in
  if startsWith existingCaseName "unknown case" then false
  else if negb (String.eqb newClientName "")
          && String.eqb existingClientName newClientName then true
  else if negb (String.eqb newClientName "")
          && includes existingCaseName newClientName then true
  else if negb (String.eqb newCaseName "")
          && String.eqb existingCaseName newCaseName then true
  else Qle_bool (85 # 100) (calculateSimilarity existingCaseName newCaseName).

Definition checkDuplicateIn (pages : list Case.t) (caseData : Payload.t) : option Case.t :=
  if negb (truthy (Payload.client_name caseData))
     && negb (truthy (Payload.case_name caseData))
  then None
  else
    let searchKey := duplicateSearchKey caseData in
    if negb (truthy searchKey) || (String.length (or_empty searchKey) <? 3) then None
    else find (isDuplicateOf caseData) (search pages (or_empty searchKey)).

Definition checkDuplicateCase (caseData : Payload.t) : M (option Case.t) :=
  gets (fun w => checkDuplicateIn (World.pages w) caseData).

(** *** addHistoryEntry: the paragraph appended to the page body (its time
    stamp and author are left out); a failure is swallowed. *)
Definition addHistoryEntry (pageId : PageId) (entry : string) (userContext : User.t)
  : M unit :=
  modify (World.add_block (pageId, entry)).

(** [formatDateForNotion(date)] for a truthy date. *)
Definition formatDateForNotion (env : Env.t) (date : string) : M string :=
  match Env.isoDate env date with
  | Some d => ret d
  | None => throw (RuntimeError "Invalid time value")
  end.

(** *** createCase *)

Record Created := mkCreated {
  created_id : PageId;
  created_case_number : string;
  created_case_name : option string;
  created_status : string;
  created_is_draft : bool;
  created_missing_fields : list string
}.

(** The identifier the store gives a new page. *)
Definition newPageId (pages : list Case.t) : PageId :=
  S (fold_right Nat.max 0 (map Case.id pages)).

(** [caseData.case_number || generateCaseNumber()] *)
Definition caseNumberOf (env : Env.t) (caseData : Payload.t) : string :=
  if truthy (Payload.case_number caseData)
  then or_empty (Payload.case_number caseData)
  else generateCaseNumber (Env.year env) (Env.random env).

(** [caseData.missing_fields?.length > 0] *)
Definition isDraft (caseData : Payload.t) : bool :=
  0 <? length (Payload.missing_fields caseData).

Definition statusOf (caseData : Payload.t) : string :=
  if isDraft caseData then caseStatuses.DRAFT else caseStatuses.ACTIVE.

(** The [properties] of the page that [createCase] sends to the store. *)
Definition newPage (env : Env.t) (caseData : Payload.t) (userContext : User.t)
    (pageId : PageId) (nextHearing : option string) : Case.t :=
  let junior := User.is_senior userContext && Payload.assign_to_junior caseData in
  let juniorName := or_else (Payload.junior_name caseData) (User.junior_name userContext) in
  let juniorEmail := or_else (Payload.junior_email caseData) (User.junior_email userContext) in
  let assignedTo :=
    if Payload.assign_to_junior caseData && truthy (User.junior_name userContext)
    then or_empty (User.junior_name userContext)
    else User.name userContext in
  Case.mk pageId
    (Some (or_empty (or_else (Payload.case_name caseData) (Some "Untitled Case"))))
    (Some (caseNumberOf env caseData))
    (Some (statusOf caseData))
    (if truthy (Payload.client_name caseData) then Payload.client_name caseData else None)
    (if truthy (Payload.client_email caseData) then Payload.client_email caseData else None)
    (if junior && truthy juniorName then juniorName else None)
    (if junior && truthy juniorEmail then juniorEmail else None)
    (if truthy (Payload.case_summary caseData) then Payload.case_summary caseData else None)
    None
    (if 0 <? length (Payload.documents_needed caseData)
     then Some (join ", " (Payload.documents_needed caseData)) else None)
    0
    nextHearing
    false
    (Some assignedTo)
    (Some (User.name userContext))
    None.

Definition createCase (env : Env.t) (caseData : Payload.t) (userContext : User.t)
  : M Created :=
  existingCase <- checkDuplicateCase caseData ;;
  match existingCase with
  | Some existing => throw (CaseAlreadyExistsError existing)
  | None =>
      try_catch
        (nextHearing <-
           (if truthy (Payload.next_hearing_date caseData)
            then d <- formatDateForNotion env (or_empty (Payload.next_hearing_date caseData)) ;;
                 ret (Some d)
            else ret None) ;;
         pageId <- gets (fun w => newPageId (World.pages w)) ;;
         modify (fun w =>
           World.set_pages
             (World.pages w ++ [newPage env caseData userContext pageId nextHearing]) w) ;;
         addHistoryEntry pageId ("Case created by " ++ User.name userContext) userContext ;;
         when (isDraft caseData)
           (addHistoryEntry pageId
              ("⚠️ Missing information: " ++ join ", " (Payload.missing_fields caseData))
              userContext) ;;
         ret (mkCreated pageId (caseNumberOf env caseData) (Payload.case_name caseData)
                        (statusOf caseData) (isDraft caseData)
                        (Payload.missing_fields caseData)))
        (fun error => throw (ExternalServiceError "Notion" (message error)))
  end.

(** *** updateCase *)

(** The [updates] object: a field is [None] when its key is absent. *)
Module Updates.
Record t := mk {
  status : option StatusValue;
  next_hearing_date : option string;
  documents_needed : option (list string);
  client_email : option string;
  client_name : option string;
  client_phone : option string;
  case_summary : option string;
  latest_outcome : option string;
  case_number : option string;
  junior_name : option (option string);
  junior_email : option (option string);
  increment_hearing : option bool;
  client_welcome_sent : option bool;
  outcome : option string
}.

Definition empty : t :=
  mk None None None None None None None None None None None None None None.

Definition key {A} (name : string) (field : option A) : list string :=
  match field with Some _ => [name] | None => [] end.

(** [Object.keys(updates)] *)
Definition keys (u : t) : list string :=
  key "status" (status u) ++ key "next_hearing_date" (next_hearing_date u)
  ++ key "documents_needed" (documents_needed u)
  ++ key "client_email" (client_email u) ++ key "client_name" (client_name u)
  ++ key "client_phone" (client_phone u)
  ++ key "case_summary" (case_summary u) ++ key "latest_outcome" (latest_outcome u)
  ++ key "case_number" (case_number u)
  ++ key "junior_name" (junior_name u) ++ key "junior_email" (junior_email u)
  ++ key "increment_hearing" (increment_hearing u)
  ++ key "client_welcome_sent" (client_welcome_sent u)
  ++ key "outcome" (outcome u).
End Updates.

(** The properties [updateCase] writes to a page: it has no clause for the
    case number, the junior or the phone, so these keys of [updates] reach
    no property.  A status is sent as the name of a select option whenever
    it is truthy; an inherited member is, but it is no name, and the page is
    taken to keep the status it has (what the store makes of such a request
    is outside the repository). *)
Definition writeProperties (env : Env.t) (updates : Updates.t)
    (nextHearing : option string) (hearingCount : option nat) (page : Case.t) : Case.t :=
  let pick (new old : option string) := if truthy new then new else old in
  Case.mk (Case.id page)
    (Case.case_name page)
    (Case.case_number page)
    (match Updates.status updates with
     | Some (status_label name) => pick (Some name) (Case.status page)
     | Some (inherited_member _) => Case.status page
     | None => Case.status page
     end)
    (pick (Updates.client_name updates) (Case.client_name page))
    (pick (Updates.client_email updates) (Case.client_email page))
    (Case.junior_name page)
    (Case.junior_email page)
    (pick (Updates.case_summary updates) (Case.summary page))
    (pick (Updates.latest_outcome updates) (Case.latest_outcome page))
    (match Updates.documents_needed updates with
     | Some (d :: l) => Some (join ", " (d :: l))
     | _ => Case.documents_needed page
     end)
    (match hearingCount with Some n => n | None => Case.hearing_count page end)
    (match nextHearing with Some d => Some d | None => Case.next_hearing page end)
    (match Updates.client_welcome_sent updates with
     | Some b => b
     | None => Case.client_welcome_sent page
     end)
    (Case.assigned_to page)
    (Case.created_by page)
    (Some (Env.now env)).

Definition updateCase (env : Env.t) (pageId : PageId) (updates : Updates.t)
    (userContext : User.t) : M unit :=
  try_catch
    (nextHearing <-
       (if truthy (Updates.next_hearing_date updates)
        then d <- formatDateForNotion env (or_empty (Updates.next_hearing_date updates)) ;;
             ret (Some d)
        else ret None) ;;
     hearingCount <-
       (match Updates.increment_hearing updates with
        | Some true =>
            currentCase <- getCaseById pageId ;;
            ret (Some (Case.hearing_count currentCase + 1))
        | _ => ret None
        end) ;;
     known <- gets (fun w => existsb (fun p => Case.id p =? pageId) (World.pages w)) ;;
     (if known
      then modify (fun w =>
             World.set_pages
               (map (fun p => if Case.id p =? pageId
                              then writeProperties env updates nextHearing hearingCount p
                              else p)
                    (World.pages w)) w)
      else throw (RuntimeError "Could not find page")) ;;
     when (truthy (Updates.outcome updates))
          (addHistoryEntry pageId (or_empty (Updates.outcome updates)) userContext))
    (fun error => throw (ExternalServiceError "Notion" (message error))).

(** *** addHearing *)

Record HearingData := mkHearingData {
  hd_date : option string;
  hd_description : option string;
  hd_outcome : option string;
  hd_next_steps : string;
  hd_documents : string;
  hd_court : string;
  hd_next_hearing_date : option string
}.

(** The hearing table of the page is found or created on the way; a page
    that does not exist fails the call. *)
Definition addHearing (env : Env.t) (casePageId : PageId) (hearingData : HearingData)
    (userContext : User.t) : M nat :=
  try_catch
    (currentCase <- getCaseById casePageId ;;
     let hearingNumber := Case.hearing_count currentCase + 1 in
     let hearingDate := or_empty (or_else (hd_date hearingData) (Some (Env.today env))) in
     modify (World.add_hearing
               (casePageId,
                mkHearing hearingNumber hearingDate
                  (or_empty (hd_description hearingData))
                  (or_empty (hd_outcome hearingData))
                  (hd_next_steps hearingData)
                  (hd_documents hearingData)
                  (hd_court hearingData))) ;;
     updateCase env casePageId
       (Updates.mk None (hd_next_hearing_date hearingData) None None None None None
          (or_else (hd_outcome hearingData)
                   (Some ("Hearing " ++ of_nat hearingNumber ++ " completed")))
          None None None (Some true) None None)
       userContext ;;
     addHistoryEntry casePageId
       ("📋 Hearing " ++ of_nat hearingNumber ++ ": "
        ++ or_empty (or_else (hd_outcome hearingData) (Some "Completed")))
       userContext ;;
     ret hearingNumber)
    (fun error =>
       throw (ExternalServiceError "Notion" ("Failed to add hearing: " ++ message error))).

(** *** closeCase *)
Definition closeCase (env : Env.t) (pageId : PageId) (userContext : User.t) : M unit :=
  updateCase env pageId
    (Updates.mk (Some (status_label caseStatuses.CLOSED)) None None None None None None None
       None None None None None None)
    userContext ;;
  addHistoryEntry pageId "✅ Case closed/finalized" userContext.

End NotionService.

(* ===================================================================== *)
(** ** services/emailService.js and services/calendarService.js, as the
       orchestrator sees them                                            *)
(* ===================================================================== *)

Module Sinks.
Import JS.

(** What a mail method returns: the skipped marker when the transport is
    not configured, [null] when the recipient is missing, else the result
    of the send (delivered or not: a failure of the transport is reported in
    the result, never raised). *)
Inductive EmailResult := email_skipped | email_null | email_result.

Definition mail (env : Env.t) (call : Call) (recipient : option string) : M EmailResult :=
  modify (World.add_call call) ;;
  ret (if negb (Env.emailConfigured env) then email_skipped
       else if negb (truthy recipient) then email_null
       else email_result).

Inductive CalendarResult :=
| calendar_skipped
| calendar_null
| calendar_event (event_id : string).

(** [createHearingEvent]: the skipped marker when the calendar is not
    configured; else the event, or [null] when the date cannot be parsed or
    the insertion fails, except that a failure with code 401 is raised again
    as an [ExternalServiceError]. *)
Definition hearingEvent (env : Env.t) (case_name : option string) (date : string)
    (time : option string) : M CalendarResult :=
  modify (World.add_call (createHearingEvent case_name date time)) ;;
  if negb (Env.calendarConfigured env) then ret calendar_skipped
  else
    match Env.calendarInsert env date with
    | inserted event_id => ret (calendar_event event_id)
    | insert_failed => ret calendar_null
    | unauthorized =>
        throw (ExternalServiceError "Google Calendar"
                 "Authentication failed. Please re-authorize.")
    end.

(** The result of the reminder is not used by the orchestrator, and the
    method raises nothing. *)
Definition documentReminder (case_name : option string) : M unit :=
  modify (World.add_call (createDocumentReminder case_name)).

End Sinks.

(* ===================================================================== *)
(** ** services/calendarService.js: the start of a hearing event         *)
(* ===================================================================== *)

Module CalendarService.
Import JS Helpers.

(** [parseInt(s, 10)] on a string of digits. *)
Fixpoint number_from (acc : nat) (s : string) : nat :=
  match s with
  | EmptyString => acc
  | String c r => number_from (acc * 10 + (code c - 48)) r
  end.

Definition number (s : string) : nat := number_from 0 s.

(** [\d{1,2}] and [\d{2}], each as a whole piece. *)
Definition one_or_two_digits (s : string) : bool :=
  all_chars is_digit s && (1 <=? String.length s) && (String.length s <=? 2).

Definition two_digits (s : string) : bool :=
  all_chars is_digit s && (String.length s =? 2).

(** [timeStr.match(/^(\d{1,2}):(\d{2})$/)]: the hour and the minute. *)
Definition time24Match (timeStr : string) : option (nat * nat) :=
  match split_char ":" timeStr with
  | [h; m] =>
      if one_or_two_digits h && two_digits m then Some (number h, number m) else None
  | _ => None
  end.

Definition trimEnd (s : string) : string := rev_string (trimStart (rev_string s)).

(** [timeStr.match(/^(\d{1,2})(?::(\d{2}))?\s*(AM|PM)$/i)]: the hour, the
    minute when there is one, and whether the suffix is PM. *)
Definition time12Match (timeStr : string) : option (nat * option nat * bool) :=
  let n := String.length timeStr in
  if n <? 2 then None
  else
    let suffix := toUpperCase (substring (n - 2) n timeStr) in
    if String.eqb suffix "PM" || String.eqb suffix "AM" then
      match split_char ":" (trimEnd (substring 0 (n - 2) timeStr)) with
      | [h] =>
          if one_or_two_digits h then Some (number h, None, String.eqb suffix "PM")
          else None
      | [h; m] =>
          if one_or_two_digits h && two_digits m
          then Some (number h, Some (number m), String.eqb suffix "PM")
          else None
      | _ => None
      end
    else None.

(** [startHour] and [startMinute] of [createHearingEvent]. *)
Definition startTime (time : option string) : nat * nat :=
  if truthy time then
    let timeStr := trim (or_empty time) in
    match time24Match timeStr with
    | Some (startHour, startMinute) => (startHour, startMinute)
    | None =>
        match time12Match timeStr with
        | Some (hour, minute, isPM) =>
            let startMinute := match minute with Some m => m | None => 0 end in
            let startHour := if isPM && negb (hour =? 12) then hour + 12 else hour in
            let startHour := if negb isPM && (startHour =? 12) then 0 else startHour in
            (startHour, startMinute)
        | None => (9, 0)
        end
    end
  else (9, 0).

End CalendarService.

(* ===================================================================== *)
(** ** services/workflowOrchestrator.js                                  *)
(* ===================================================================== *)

(** The per-payload result; a field a branch does not set is [None], [[]]
    or [false].  The record-store URL of a duplicate is left out. *)
Module Result.
Inductive Status :=
| UPDATED | CREATED | CREATED_AS_DRAFT | DUPLICATE_CASE
| CLARIFICATION_NEEDED | UNKNOWN_ACTION | ERROR.

Record t := mk {
  status : Status;
  case_id : option PageId;
  case_name : option string;
  case_number : option string;
  is_draft : option bool;
  missing_fields : list string;
  message : option string;
  actions : list string;
  existing_case : option Match;
  matches : list Match;
  error : option string;
  outcome : option string;
  hearing_number : option nat;
  next_date : option string;
  calendar_event : option Sinks.CalendarResult;
  email_sent : bool;
  email_to : option string
}.

Definition basic (st : Status) (name : option string) : t :=
  mk st None name None None [] None [] None [] None None None None None false None.
End Result.

(** A line written to the process logger by [resolveClientEmail]. *)
Inductive Level := info | warn.

Record LoggerLine := mkLine {
  line_level : Level;
  line_text : string;
  line_meta : list (string * string)
}.

Module WorkflowOrchestrator.
Import JS Helpers NotionService Sinks.

Section Orchestrator.

Variable env : Env.t.
(** [this.user] *)
Variable user : User.t.

Definition log (type message : string) : M unit :=
  modify (World.add_log (type, message)).

(** The names [statusMap], an object literal, answers besides its four
    keys: the members of [Object.prototype]. *)
Definition inheritedKeys : list string :=
  [ "constructor"; "toString"; "toLocaleString"; "valueOf";
    "hasOwnProperty"; "isPrototypeOf"; "propertyIsEnumerable"; "__proto__";
    "__defineGetter__"; "__defineSetter__"; "__lookupGetter__"; "__lookupSetter__" ].

(** [statusMap[status] || config.caseStatuses.ACTIVE]: the label under one
    of the four keys; the inherited member, which is truthy, under an
    inherited name; the Active label for any other status. *)
Definition mapStatus (status : string) : StatusValue :=
  if String.eqb status "CONTINUING" then status_label caseStatuses.CONTINUING
  else if String.eqb status "FINALIZED" then status_label caseStatuses.FINALIZED
  else if String.eqb status "DRAFT" then status_label caseStatuses.DRAFT
  else if String.eqb status "ACTIVE" then status_label caseStatuses.ACTIVE
  else if mem status inheritedKeys then inherited_member status
  else status_label caseStatuses.ACTIVE.

Definition defaultEmail : option string :=
  or_else (User.email user) (Env.DEMO_USER_EMAIL env).

Definition head5 (s : option string) : string :=
  substring 0 5 (or_empty s) ++ "...".

(** The first definition of [resolveClientEmail] in the class body, with
    the line it writes to the logger. *)
Definition resolveClientEmail_first (email : option string) (context : string)
  : option string * LoggerLine :=
  if negb (truthy email) then
    if truthy defaultEmail
    then (defaultEmail,
          mkLine info ("Email: No client email, using default for " ++ context)
                 [("defaultEmail", head5 defaultEmail)])
    else (None,
          mkLine warn ("Email: No client email and no default configured for " ++ context) [])
  else if isRealEmail email
  then (email,
        mkLine info ("Email: Using client email for " ++ context)
               [("email", head5 email)])
  else if truthy defaultEmail
  then (defaultEmail,
        mkLine info ("Email: Client email is dummy/test, using default for " ++ context)
               [("originalEmail", head5 email); ("defaultEmail", head5 defaultEmail)])
  else (None,
        mkLine warn ("Email: Client email is dummy and no default for " ++ context)
               [("email", head5 email)]).

(** The second definition, the one the class ends up with. *)
Definition resolveClientEmail_logged (caseEmail : option string) (context : string)
  : option string * LoggerLine :=
  if negb (truthy caseEmail) then
    if truthy defaultEmail
    then (defaultEmail,
          mkLine info ("Email: No client email, using default for " ++ context)
                 [("defaultEmail", or_empty defaultEmail)])
    else (None,
          mkLine warn ("Email: No client email and no default configured for " ++ context) [])
  else if isRealEmail caseEmail
  then (caseEmail,
        mkLine info ("Email: Using client email for " ++ context)
               [("clientEmail", or_empty caseEmail)])
  else if truthy defaultEmail
  then (defaultEmail,
        mkLine info ("Email: Client email is dummy, using default for " ++ context)
               [("dummyEmail", or_empty caseEmail); ("defaultEmail", or_empty defaultEmail)])
  else (None,
        mkLine warn ("Email: Client email is dummy and no default configured for " ++ context)
               [("dummyEmail", or_empty caseEmail)]).

(** [this.resolveClientEmail(caseEmail, context)]: the resolved address. *)
Definition resolveClientEmail (caseEmail : option string) (context : string)
  : option string :=
  fst (resolveClientEmail_logged caseEmail context).

(** *** createDraftFromUnknown *)

(** [draftData]: the payload of the placeholder case. *)
Definition draftData (caseData : Payload.t) (lookupKey : option string) : Payload.t :=
  Payload.mk "" None (Some ("Unknown Case: " ++ show lookupKey)) None None None
    None None None None None None None []
    false ["case_verification"; "client_name"; "client_email"] None
    (or_else (Payload.outcome caseData) (Payload.raw_notes caseData)).

Definition createDraftFromUnknown (caseData : Payload.t) (lookupKey : option string)
  : M Result.t :=
  let draftData := draftData caseData lookupKey in
  createdCase <- createCase env draftData user ;;
  addHistoryEntry (created_id createdCase)
    ("⚠️ This case was auto-created because " ++ dq ++ show lookupKey ++ dq
     ++ " was not found. Please verify and update case details.")
    user ;;
  ret (Result.mk Result.CREATED_AS_DRAFT
         (Some (created_id createdCase))
         (Payload.case_name draftData)
         (Some (created_case_number createdCase))
         (Some true) []
         (Some ("Case " ++ dq ++ show lookupKey ++ dq
                ++ " not found. Created draft for review."))
         ["Created draft case for unknown reference"]
         None [] None None None None None false None).

(** *** handleDocumentRequest; the first argument of the source is given by
    the four fields that are read from it. *)
Definition handleDocumentRequest
    (case_name case_number client_name client_email : option string)
    (updateData : Payload.t) : M unit :=
  let documents := Payload.documents_needed updateData in
  if length documents =? 0 then ret tt
  else
    let case_name := or_else case_name (Payload.case_name updateData) in
    let client_email := or_else client_email (Payload.client_email updateData) in
    documentReminder case_name ;;
    log "CALENDAR_EVENT" "Created document collection reminder" ;;
    when (truthy client_email)
      (mail env (sendDocumentRequestToClient client_email) client_email ;;
       log "CLIENT_EMAIL" "Sent document request to client") ;;
    when (User.is_senior user && truthy (User.junior_email user))
      (mail env (sendDocumentRequestToJunior (User.junior_email user))
            (User.junior_email user) ;;
       log "JUNIOR_EMAIL" "Sent document collection request to junior").

(** *** handleExistingCase (Branch A) *)

(** The [updates] object built from the payload and the located case. *)
Definition buildUpdates (caseData : Payload.t) (existingCase : Case.t) : Updates.t :=
  let present (o : option string) := if truthy o then o else None in
  Updates.mk
    (if truthy (Payload.status caseData)
     then Some (mapStatus (or_empty (Payload.status caseData))) else None)
    (present (Payload.next_hearing_date caseData))
    (if 0 <? length (Payload.documents_needed caseData)
     then Some (Payload.documents_needed caseData) else None)
    (present (Payload.client_email caseData))
    (present (Payload.client_name caseData))
    (present (Payload.client_phone caseData))
    (present (Payload.case_summary caseData))
    (present (Payload.outcome caseData))
    (if truthy (Payload.case_number caseData)
        && negb (truthy (Case.case_number existingCase))
     then Payload.case_number caseData else None)
    (if Payload.assign_to_junior caseData
     then Some (or_else (or_else (Payload.junior_name caseData) (User.junior_name user)) None)
     else None)
    (if Payload.assign_to_junior caseData
     then Some (or_else (or_else (Payload.junior_email caseData) (User.junior_email user)) None)
     else None)
    None None None.

(** Step 1: the case, or the result that ends the branch. *)
Definition locate (caseData : Payload.t) (lookupKey : option string)
  : M (Case.t + Result.t) :=
  try_catch
    (existingCase <- findCase lookupKey ;;
     log "NOTION_SEARCH" ("Found case: " ++ show (Case.case_name existingCase)) ;;
     ret (inl existingCase))
    (fun error =>
       match error with
       | CaseNotFoundError _ =>
           log "CASE_NOT_FOUND"
               ("Case " ++ dq ++ show lookupKey ++ dq ++ " not found, creating draft") ;;
           r <- createDraftFromUnknown caseData lookupKey ;;
           ret (inr r)
       | DuplicateCaseError matches =>
           if negb (forallb (fun m => match m_case_name m with Some _ => true | None => false end)
                            matches)
           then throw (RuntimeError
                         "Cannot read properties of null (reading 'startsWith')")
           else
             let realCases :=
               filter (fun m => negb (startsWith (or_empty (m_case_name m)) "Unknown Case"))
                      matches in
             match realCases with
             | [one] =>
                 existingCase <- getCaseById (m_id one) ;;
                 log "NOTION_SEARCH"
                     ("Found case after filtering: " ++ show (Case.case_name existingCase)) ;;
                 ret (inl existingCase)
             | [] =>
                 log "CASE_NOT_FOUND"
                     ("Only Unknown Cases found for " ++ dq ++ show lookupKey ++ dq
                      ++ ", creating draft") ;;
                 r <- createDraftFromUnknown caseData lookupKey ;;
                 ret (inr r)
             | _ =>
                 log "DUPLICATE_CASES"
                     ("Multiple cases found for " ++ dq ++ show lookupKey ++ dq) ;;
                 ret (inr (Result.mk Result.CLARIFICATION_NEEDED None lookupKey None None []
                             (Some ("Found " ++ of_nat (length realCases)
                                    ++ " cases matching " ++ dq ++ show lookupKey ++ dq ++ ": "
                                    ++ join ", " (map (fun c => show (m_case_number c)) realCases)
                                    ++ ". Please specify case number."))
                             [] None realCases None None None None None false None))
             end
       | _ => throw error
       end).

(** Steps 2 to 6, once the case is located. *)
Definition updateLocated (caseData : Payload.t) (existingCase : Case.t) : M Result.t :=
  let id := Case.id existingCase in
  let hasOutcome := truthy (Payload.outcome caseData) in
  let hasDate := truthy (Payload.next_hearing_date caseData) in
  let hasDocuments := 0 <? length (Payload.documents_needed caseData) in
  hearingResult <-
    (if hasOutcome then
       n <- addHearing env id
              (mkHearingData (Some (Env.today env))
                 (or_else (Payload.raw_notes caseData) (Payload.outcome caseData))
                 (Payload.outcome caseData)
                 (if hasDate
                  then "Next hearing: " ++ or_empty (Payload.next_hearing_date caseData)
                  else "")
                 (join ", " (Payload.documents_needed caseData))
                 ""
                 (Payload.next_hearing_date caseData))
              user ;;
       log "HEARING_ADDED" ("Added hearing " ++ of_nat n ++ " to case") ;;
       ret (Some n)
     else ret None) ;;
  let updates := buildUpdates caseData existingCase in
  when (Payload.assign_to_junior caseData)
    (mail env (sendJuniorAssignmentEmail
                 (match Updates.junior_email updates with Some e => e | None => None end))
          (User.junior_email user) ;;
     log "JUNIOR_EMAIL" "Sent assignment email to junior") ;;
  (if 0 <? length (Updates.keys updates)
   then updateCase env id updates user ;;
        log "NOTION_UPDATE"
            ("Updated case: " ++ show (Case.case_name existingCase)
             ++ " (fields: " ++ join ", " (Updates.keys updates) ++ ")")
   else log "NOTION_UPDATE" ("Updated case: " ++ show (Case.case_name existingCase))) ;;
  actions1 <-
    (if String.eqb (or_empty (Payload.status caseData)) "FINALIZED" then
       closeCase env id user ;;
       log "CASE_CLOSED" ("Case finalized: " ++ show (Case.case_name existingCase)) ;;
       if truthy (Case.client_email existingCase) then
         mail env (sendClientUpdateEmail (Case.client_email existingCase))
              (Case.client_email existingCase) ;;
         ret ["Case closed/archived"; "Client notified of case conclusion"]
       else ret ["Case closed/archived"]
     else ret []) ;;
  calendar <-
    (if hasDate then
       calendarEvent <- hearingEvent env (Case.case_name existingCase)
                          (or_empty (Payload.next_hearing_date caseData))
                          (Payload.next_hearing_time caseData) ;;
       match calendarEvent with
       | calendar_event _ =>
           log "CALENDAR_EVENT" "Created hearing reminder" ;;
           ret (["Calendar reminder set"], Some calendarEvent)
       | _ => ret ([], None)
       end
     else ret ([], None)) ;;
  actions3 <-
    (if hasDocuments then
       handleDocumentRequest (Case.case_name existingCase) (Case.case_number existingCase)
         (Case.client_name existingCase) (Case.client_email existingCase) caseData ;;
       ret ["Document request processed"]
     else ret []) ;;
  let newHearingCount := Case.hearing_count existingCase + 1 in
  let caseEmail := or_else (Case.client_email existingCase) (Payload.client_email caseData) in
  let resolvedEmail := resolveClientEmail caseEmail "hearing update" in
  report <-
    (if hasOutcome && truthy resolvedEmail then
       emailResult <- mail env (sendClientHearingReport resolvedEmail newHearingCount)
                        resolvedEmail ;;
       sent <-
         (match emailResult with
          | email_result =>
              log "CLIENT_EMAIL"
                  ("Sent hearing #" ++ of_nat newHearingCount ++ " report to client ("
                   ++ or_empty resolvedEmail ++ ")") ;;
              ret (["Hearing #" ++ of_nat newHearingCount ++ " report sent to client"],
                   true, resolvedEmail)
          | _ => ret ([], false, None)
          end) ;;
       when ((newHearingCount =? 1) && negb (Case.client_welcome_sent existingCase))
         (updateCase env id
            (Updates.mk None None None None None None None None None None None None
               (Some true) None)
            user) ;;
       ret sent
     else ret ([], false, None)) ;;
  ret (Result.mk Result.UPDATED (Some id)
         (Case.case_name existingCase) (Case.case_number existingCase)
         None [] None
         (actions1 ++ fst calendar ++ actions3 ++ fst (fst report))
         None [] None
         (Payload.outcome caseData) hearingResult (Payload.next_hearing_date caseData)
         (snd calendar) (snd (fst report)) (snd report)).

Definition handleExistingCase (caseData : Payload.t) : M Result.t :=
  let lookupKey := or_else (Payload.lookup_key caseData) (Payload.case_name caseData) in
  try_catch
    (located <- locate caseData lookupKey ;;
     match located with
     | inr result => ret result
     | inl existingCase => updateLocated caseData existingCase
     end)
    (fun error =>
       log "ERROR" ("Failed to update case: " ++ message error) ;;
       ret (Result.mk Result.ERROR None lookupKey None None [] None [] None []
              (Some (message error)) None None None None false None)).

(** *** handleNewCase (Branch B) *)

(** [[...new Set(l)]]: the first occurrence of each element, in order. *)
Fixpoint unique (seen l : list string) : list string :=
  match l with
  | [] => []
  | x :: r => if mem x seen then unique seen r else x :: unique (x :: seen) r
  end.

(** Step 1: the required fields the payload lacks, and the junior's email
    when a senior assigns the case and none is known. *)
Definition missingFields (caseData : Payload.t) : list string :=
  (if negb (truthy (Payload.case_name caseData)) then ["case_name"] else [])
  ++ (if negb (truthy (Payload.client_name caseData)) then ["client_name"] else [])
  ++ (if negb (truthy (Payload.client_email caseData)) then ["client_email"] else [])
  ++ (if User.is_senior user && Payload.assign_to_junior caseData
         && negb (truthy (Payload.junior_email caseData))
         && negb (truthy (User.junior_email user))
      then ["junior_email"] else []).

Definition allMissingFields (caseData : Payload.t) : list string :=
  unique [] (missingFields caseData ++ Payload.missing_fields caseData).

(** The payload as [createCase] receives it: the merged missing fields and,
    when there are notes but no summary, the generated summary. *)
Definition prepared (caseData : Payload.t) : Payload.t :=
  let caseData := Payload.set_missing_fields (allMissingFields caseData) caseData in
  if negb (truthy (Payload.case_summary caseData)) && truthy (Payload.raw_notes caseData)
  then Payload.set_case_summary (Some (Env.aiSummary env caseData)) caseData
  else caseData.

Definition handleNewCase (caseData0 : Payload.t) : M Result.t :=
  let allMissingFields := allMissingFields caseData0 in
  let caseData := prepared caseData0 in
  try_catch
    (createdCase <- createCase env caseData user ;;
     log "NOTION_CREATE"
         ("Created case: " ++ show (Payload.case_name caseData) ++ " ("
          ++ (if created_is_draft createdCase then "Draft" else "Active") ++ ")") ;;
     let result (actions : list string) (msg : option string)
                (event : option CalendarResult) :=
       Result.mk
         (if created_is_draft createdCase then Result.CREATED_AS_DRAFT else Result.CREATED)
         (Some (created_id createdCase))
         (Payload.case_name caseData)
         (Some (created_case_number createdCase))
         (Some (created_is_draft createdCase))
         allMissingFields msg actions None [] None None None None event false None in
     if created_is_draft createdCase then
       ret (result ["Created as draft - awaiting complete information"]
                   (Some ("Case created as draft. Missing: " ++ join ", " allMissingFields
                          ++ ". Please provide these details."))
                   None)
     else
       actions1 <-
         (if User.is_senior user && Payload.assign_to_junior caseData then
            mail env (sendJuniorAssignmentEmail (Payload.junior_email caseData))
                 (User.junior_email user) ;;
            log "JUNIOR_EMAIL" "Sent assignment email to junior" ;;
            ret ["Junior notified of assignment"]
          else if User.is_senior user && User.auto_assign_to_junior user then
            mail env (sendJuniorAssignmentEmail (Payload.junior_email caseData))
                 (User.junior_email user) ;;
            log "JUNIOR_EMAIL" "Auto-assigned to junior" ;;
            ret ["Auto-assigned to junior"]
          else ret []) ;;
       actions2 <-
         (if 0 <? length (Payload.documents_needed caseData) then
            handleDocumentRequest (Payload.case_name caseData) (Payload.case_number caseData)
              (Payload.client_name caseData) (Payload.client_email caseData) caseData ;;
            ret ["Document collection requested"]
          else ret []) ;;
       calendar <-
         (if truthy (Payload.next_hearing_date caseData) then
            calendarEvent <- hearingEvent env (Payload.case_name caseData)
                               (or_empty (Payload.next_hearing_date caseData))
                               (Payload.next_hearing_time caseData) ;;
            match calendarEvent with
            | calendar_null => ret ([], None)
            | _ => ret (["First hearing calendar event created"], Some calendarEvent)
            end
          else ret ([], None)) ;;
       ret (result (actions1 ++ actions2 ++ fst calendar
                    ++ ["Client email held until first hearing"])%list
                   None (snd calendar)))
    (fun error =>
       match error with
       | CaseAlreadyExistsError existingCase =>
           log "DUPLICATE_CASE"
               ("Case already exists: " ++ show (Case.case_name existingCase)) ;;
           ret (Result.mk Result.DUPLICATE_CASE None (Payload.case_name caseData) None None []
                  (Some (message error)) [] (Some (toMatch existingCase)) []
                  None None None None None false None)
       | _ =>
           log "ERROR" ("Failed to create case: " ++ message error) ;;
           ret (Result.mk Result.ERROR None (Payload.case_name caseData) None None []
                  None [] None [] (Some (message error)) None None None None false None)
       end).

(** *** processSingleCase *)
Definition processSingleCase (caseData : Payload.t) : M Result.t :=
  if String.eqb (Payload.action_type caseData) "UPDATE_EXISTING"
  then handleExistingCase caseData
  else if String.eqb (Payload.action_type caseData) "CREATE_NEW"
  then handleNewCase caseData
  else if String.eqb (Payload.action_type caseData) "CLARIFICATION_NEEDED"
  then ret (Result.mk Result.CLARIFICATION_NEEDED None
              (or_else (Payload.lookup_key caseData) (Payload.case_name caseData))
              None None []
              (Some "Could not determine if this is a new or existing case")
              [] None [] None None None None None false None)
  else ret (Result.basic Result.UNKNOWN_ACTION (Payload.case_name caseData)).

End Orchestrator.
End WorkflowOrchestrator.

(* ===================================================================== *)
(** ** middleware/auth.js and auth/userRegistry.js                       *)
(* ===================================================================== *)

Module Auth.

(** [applyRoleConstraints(req)]: what becomes of [req.user]. *)
Definition applyRoleConstraints (user : User.t) : User.t :=
  match User.role user with
  | User.JUNIOR =>
      User.mk (User.id user) (User.role user) (User.name user) (User.email user)
              None None false
  | User.SENIOR => user
  end.

(** [hasJunior(user)]: the junior's email is neither null nor undefined. *)
Definition hasJunior (user : User.t) : bool :=
  match User.junior_email user with Some _ => true | None => false end.

(** [validateUserAction(user, action)]: the reason of a refusal, [None] when
    the action is valid. *)
Definition validateUserAction (user : option User.t) (action : string) : option string :=
  match user with
  | None => Some "User not found"
  | Some u =>
      if String.eqb action "ASSIGN_TO_JUNIOR" then
        if negb (hasJunior u) then Some "User does not have a junior assigned" else None
      else None
  end.

End Auth.

(* ===================================================================== *)
(** ** agents/aiAgent.js: what follows the answer of the language model   *)
(* ===================================================================== *)

Module AiAgent.
Import JS.

(** The parsed answer of the model. *)
Record Extraction := mkExtraction {
  cases : option (list Payload.t);
  overall_summary : option string;
  requires_clarification : bool;
  clarification_message : option string
}.

(** The role constraints applied to each extracted payload. *)
Definition constrain (userContext : User.t) (caseData : Payload.t) : Payload.t :=
  match User.role userContext with
  | User.JUNIOR =>
      Payload.mk (Payload.action_type caseData) (Payload.lookup_key caseData)
        (Payload.case_name caseData) (Payload.case_number caseData)
        (Payload.client_name caseData) (Payload.client_email caseData)
        (Payload.client_phone caseData) None None
        (Payload.outcome caseData) (Payload.status caseData)
        (Payload.next_hearing_date caseData) (Payload.next_hearing_time caseData)
        (Payload.documents_needed caseData) false
        (Payload.missing_fields caseData) (Payload.raw_notes caseData)
        (Payload.case_summary caseData)
  | User.SENIOR =>
      if truthy (Payload.junior_email caseData)
         && negb (String.eqb (trim (or_empty (Payload.junior_email caseData))) "")
      then
        Payload.mk (Payload.action_type caseData) (Payload.lookup_key caseData)
          (Payload.case_name caseData) (Payload.case_number caseData)
          (Payload.client_name caseData) (Payload.client_email caseData)
          (Payload.client_phone caseData) (Payload.junior_name caseData)
          (Payload.junior_email caseData)
          (Payload.outcome caseData) (Payload.status caseData)
          (Payload.next_hearing_date caseData) (Payload.next_hearing_time caseData)
          (Payload.documents_needed caseData) true
          (Payload.missing_fields caseData) (Payload.raw_notes caseData)
          (Payload.case_summary caseData)
      else caseData
  end.

(** [extractCaseInformation(transcription, userContext)], given what the
    call of the model and the parse of its answer come to: the constraints
    are applied to the extracted payloads, and any failure is raised anew
    with the message of the extraction. *)
Definition extractCaseInformation (answer : Outcome Extraction) (userContext : User.t)
  : Outcome Extraction :=
  match answer with
  | Returns result =>
      Returns (mkExtraction
                 (match cases result with
                  | Some l => Some (map (constrain userContext) l)
                  | None => None
                  end)
                 (overall_summary result)
                 (requires_clarification result)
                 (clarification_message result))
  | Throws error =>
      Throws (RuntimeError ("Failed to extract case information: " ++ message error))
  end.

End AiAgent.

(* ===================================================================== *)
(** ** services/workflowOrchestrator.js: processVoiceNote                *)
(* ===================================================================== *)

Module Input.
Record t := mk {
  audioFilePath : option string;
  text : option string
}.
End Input.

(** The response of [processVoiceNote]; its [operations] are the operation
    log of the world the run ends in. *)
Module Response.
Inductive Status := COMPLETED | CLARIFICATION_NEEDED | ERROR.

Record t := mk {
  success : bool;
  status : Status;
  message : option string;
  cases_found : option nat;
  summary : option string;
  cases_processed : option nat;
  cases : list Result.t;
  error : option string
}.
End Response.

Module VoiceNote.
Import JS WorkflowOrchestrator.

Section VoiceNote.

Variable env : Env.t.
Variable user : User.t.
(** [transcribeAudio(path)] and the answer of the language model to a
    transcription, parsed. *)
Variable transcribeAudio : string -> Outcome string.
Variable answer : string -> Outcome AiAgent.Extraction.

Definition lift {A} (o : Outcome A) : M A :=
  match o with Returns a => ret a | Throws e => throw e end.

(** [for (const caseData of extraction.cases) results.push(...)] *)
Fixpoint processCases (l : list Payload.t) : M (list Result.t) :=
  match l with
  | [] => ret []
  | caseData :: rest =>
      result <- processSingleCase env user caseData ;;
      results <- processCases rest ;;
      ret (result :: results)
  end.

Definition processVoiceNote (input : Input.t) : M Response.t :=
  try_catch
    (transcription <-
       (if truthy (Input.audioFilePath input)
        then lift (transcribeAudio (or_empty (Input.audioFilePath input)))
        else if truthy (Input.text input) then ret (or_empty (Input.text input))
        else throw (RuntimeError "No input provided")) ;;
     log "TRANSCRIPTION" "Voice note transcribed successfully" ;;
     extraction <- lift (AiAgent.extractCaseInformation (answer transcription) user) ;;
     match AiAgent.cases extraction with
     | None =>
         throw (RuntimeError "Cannot read properties of undefined (reading 'length')")
     | Some cases =>
         log "AI_EXTRACTION" ("Extracted " ++ of_nat (length cases) ++ " case(s)") ;;
         if AiAgent.requires_clarification extraction
         then ret (Response.mk true Response.CLARIFICATION_NEEDED
                     (AiAgent.clarification_message extraction)
                     (Some (length cases)) None None [] None)
         else
           results <- processCases cases ;;
           ret (Response.mk true Response.COMPLETED None None
                  (AiAgent.overall_summary extraction)
                  (Some (length results)) results None)
     end)
    (fun error =>
       log "ERROR" (message error) ;;
       ret (Response.mk false Response.ERROR None None None None [] (Some (message error)))).

End VoiceNote.
End VoiceNote.

(* ===================================================================== *)
(** ** Vocabulary of the properties, and scenarios                      *)
(* ===================================================================== *)

Import JS Helpers NotionService Sinks WorkflowOrchestrator.
Import CalendarService VoiceNote.
Open Scope list_scope.

(** *** Vocabulary *)

(** A next hearing date, when the payload has one, is a date the runtime can
    parse. *)
Definition dateOk (env : Env.t) (date : option string) : Prop :=
  truthy date = true -> exists d, Env.isoDate env (or_empty date) = Some d.

(** The ISO form of the next hearing date, [None] when there is no date. *)
Definition isoOf (env : Env.t) (date : option string) : option string :=
  if truthy date then Env.isoDate env (or_empty date) else None.

(** The world after [createCase] has stored a page. *)
Definition afterCreate (env : Env.t) (d : Payload.t) (user : User.t) (w : World.t)
  : World.t :=
  let pageId := newPageId (World.pages w) in
  let page := newPage env d user pageId (isoOf env (Payload.next_hearing_date d)) in
  let w1 :=
    World.add_block (pageId, ("Case created by " ++ User.name user)%string)
                    (World.set_pages (World.pages w ++ [page]) w) in
  if isDraft d
  then World.add_block
         (pageId,
          ("⚠️ Missing information: " ++ join ", " (Payload.missing_fields d))%string)
         w1
  else w1.






(** The result of the Create Branch for a payload that duplicates [e]. *)
Definition duplicateResult (d : Payload.t) (e : Case.t) : Result.t :=
  Result.mk Result.DUPLICATE_CASE None (Payload.case_name d) None None []
    (Some (message (CaseAlreadyExistsError e))) [] (Some (toMatch e)) []
    None None None None None false None.

(** The result of the Create Branch for a payload stored as a draft. *)
Definition draftResult (env : Env.t) (user : User.t) (d : Payload.t) (w : World.t)
  : Result.t :=
  Result.mk Result.CREATED_AS_DRAFT (Some (newPageId (World.pages w)))
    (Payload.case_name d) (Some (caseNumberOf env d)) (Some true)
    (allMissingFields user d)
    (Some ("Case created as draft. Missing: " ++ join ", " (allMissingFields user d)
           ++ ". Please provide these details.")%string)
    ["Created as draft - awaiting complete information"%string]
    None [] None None None None None false None.

(** The words of a candidate's case name and client name, and the textual
    match of a lookup word against them, as the specification words it. *)
Definition nameWords (r : Case.t) : list string :=
  filter (fun w => negb (String.eqb w ""))
    (split_ws (toLowerCase (or_empty (Case.case_name r)))
     ++ split_ws (toLowerCase (or_empty (Case.client_name r)))).

Definition textuallyMatches (r : Case.t) (sw : string) : bool :=
  existsb (fun tw => includes tw sw || includes sw tw) (nameWords r).

(** A name that is present and has no white space at either end, and a
    candidate whose case name and client name are both such names. *)
Definition unpadded (s : string) : bool :=
  match head_char s, last_char s with
  | Some a, Some b => negb (is_space a) && negb (is_space b)
  | _, _ => false
  end.

Definition properlyNamed (r : Case.t) : bool :=
  unpadded (or_empty (Case.case_name r)) && unpadded (or_empty (Case.client_name r)).

(** The identifier and case number of every page, in store order. *)
Definition numbers (w : World.t) : list (PageId * option string) :=
  map (fun p => (Case.id p, Case.case_number p)) (World.pages w).

(** A computation that, however it ends, leaves the identifier and the case
    number of every page as they were, and at most appends pages. *)
Definition keepsNumbers {A} (m : M A) : Prop :=
  forall w, exists extra, numbers (snd (m w)) = numbers w ++ extra.

(** The rule of automatic selection on the best and second-best scores. *)
Definition autoSelects (best second : Q) : Prop :=
  (9 # 10 <= best)%Q \/ ((7 # 10 <= best)%Q /\ (2 # 10 <= best - second)%Q).

(** The share of the significant lookup words that match a word of the
    candidate's names. *)
Definition matchedRatio (lookupKey : string) (r : Case.t) : Q :=
  if length (searchWords lookupKey) =? 0 then 0%Q
  else ratio (length (filter (textuallyMatches r) (searchWords lookupKey)))
             (length (searchWords lookupKey)).

(** A character of the class [A-Z0-9], and a string of four digits. *)
Definition alnumUpper (c : ascii) : bool := is_upper c || is_digit c.

(** A digit of base 36 as the runtime prints it. *)
Definition base36 (c : ascii) : bool := is_digit c || is_lower c.

Definition fourDigits (s : string) : bool :=
  match s with
  | String a (String b (String c (String d EmptyString))) =>
      is_digit a && is_digit b && is_digit c && is_digit d
  | _ => false
  end.

(** The significant words of a search query, and whether one of the four
    queries of a search hits a stored page. *)
Definition keywordsOf (query : string) : list string :=
  filter (fun w => 2 <? String.length w) (split_ws (toLowerCase query)).

Definition hit (query : string) (p : Case.t) : bool :=
  contains (Case.case_name p) query
  || contains (Case.case_number p) query
  || contains (Case.client_name p) query
  || match keywordsOf query with
     | k :: _ => (3 <? String.length k)
                 && (contains (Case.case_name p) k || contains (Case.client_name p) k)
     | [] => false
     end.

(** The page of the store that answers to an identifier. *)
Definition pageAt (w : World.t) (id : PageId) : option Case.t :=
  find (fun p => Case.id p =? id) (World.pages w).

(** What a stored case is known by: its identifier, name and number, its
    junior, and who it is assigned to and was created by. *)
Definition identity (p : Case.t)
  : PageId * option string * option string * option string * option string
    * option string * option string :=
  (Case.id p, Case.case_name p, Case.case_number p, Case.junior_name p,
   Case.junior_email p, Case.assigned_to p, Case.created_by p).

(** The pages [l'] are the pages [l], each known by what it was known by,
    followed by new pages that satisfy [P]. *)
Definition appends (P : Case.t -> Prop) (l l' : list Case.t) : Prop :=
  exists extra, map identity l' = map identity (l ++ extra) /\ Forall P extra.

(** A store whose pages have pairwise distinct identifiers, and each a name
    and a case number. *)
Definition wellFormed (l : list Case.t) : Prop :=
  NoDup (map Case.id l) /\
  Forall (fun p => truthy (Case.case_name p) = true
                   /\ truthy (Case.case_number p) = true) l.

(** A computation whose every run, however it ends, takes a world to a
    world related to it by [R]. *)
Definition respects (R : World.t -> World.t -> Prop) {A} (m : M A) : Prop :=
  forall w, R w (snd (m w)).

(** The relation of two worlds whose pages are related by [Q]. *)
Definition onPages (Q : list Case.t -> list Case.t -> Prop) (w w' : World.t) : Prop :=
  Q (World.pages w) (World.pages w').

(** A page without a junior, assigned to the actor. *)
Definition ownedBy (user : User.t) (p : Case.t) : Prop :=
  Case.junior_name p = None /\ Case.junior_email p = None /\
  Case.assigned_to p = Some (User.name user).

(** The calls made between two worlds all satisfy [P]; the calls made before
    are kept. *)
Definition callsOnly (P : Call -> bool) (w w' : World.t) : Prop :=
  exists extra, World.calls w' = World.calls w ++ extra /\ forallb P extra = true.

(** A call addressed to the junior of the actor. *)
Definition toJunior (c : Call) : bool :=
  match c with
  | sendJuniorAssignmentEmail _ | sendDocumentRequestToJunior _ => true
  | _ => false
  end.

(** The calls the Create Branch may make for a payload: none when a field is
    missing, and never a hearing report or a case update to the client. *)
Definition createCalls (user : User.t) (d : Payload.t) (c : Call) : bool :=
  match allMissingFields user d with
  | _ :: _ => false
  | [] =>
      match c with
      | sendJuniorAssignmentEmail _ =>
          User.is_senior user
          && (Payload.assign_to_junior d || User.auto_assign_to_junior user)
      | sendDocumentRequestToClient e =>
          (0 <? length (Payload.documents_needed d)) && truthy e
      | sendDocumentRequestToJunior e =>
          (0 <? length (Payload.documents_needed d)) && User.is_senior user && truthy e
      | createDocumentReminder _ => 0 <? length (Payload.documents_needed d)
      | createHearingEvent _ date _ =>
          truthy (Payload.next_hearing_date d)
          && String.eqb date (or_empty (Payload.next_hearing_date d))
      | sendClientUpdateEmail _ => false
      | sendClientHearingReport _ _ => false
      end
  end.

(** The calls the Update Branch may make for a payload. *)
Definition updateCalls (user : User.t) (d : Payload.t) (c : Call) : bool :=
  match c with
  | sendJuniorAssignmentEmail _ => Payload.assign_to_junior d
  | sendClientUpdateEmail e =>
      String.eqb (or_empty (Payload.status d)) "FINALIZED" && truthy e
  | sendClientHearingReport e _ => truthy (Payload.outcome d) && truthy e
  | sendDocumentRequestToClient e =>
      (0 <? length (Payload.documents_needed d)) && truthy e
  | sendDocumentRequestToJunior e =>
      (0 <? length (Payload.documents_needed d)) && User.is_senior user && truthy e
  | createDocumentReminder _ => 0 <? length (Payload.documents_needed d)
  | createHearingEvent _ date _ =>
      truthy (Payload.next_hearing_date d)
      && String.eqb date (or_empty (Payload.next_hearing_date d))
  end.

(** The calls [processSingleCase] may make for a payload. *)
Definition caseCalls (user : User.t) (d : Payload.t) (c : Call) : bool :=
  if String.eqb (Payload.action_type d) "UPDATE_EXISTING" then updateCalls user d c
  else if String.eqb (Payload.action_type d) "CREATE_NEW" then createCalls user d c
  else false.



(** The row [addHearing] writes for a page whose hearing count is [n]. *)
Definition hearingRow (env : Env.t) (hd : HearingData) (n : nat) : Hearing :=
  mkHearing (n + 1)
    (or_empty (or_else (hd_date hd) (Some (Env.today env))))
    (or_empty (hd_description hd)) (or_empty (hd_outcome hd))
    (hd_next_steps hd) (hd_documents hd) (hd_court hd).

(** The hearing data the Update Branch builds from a payload. *)
Definition hearingDataOf (env : Env.t) (d : Payload.t) : HearingData :=
  mkHearingData (Some (Env.today env))
    (or_else (Payload.raw_notes d) (Payload.outcome d))
    (Payload.outcome d)
    (if truthy (Payload.next_hearing_date d)
     then "Next hearing: " ++ or_empty (Payload.next_hearing_date d)
     else "")%string
    (join ", " (Payload.documents_needed d))
    ""
    (Payload.next_hearing_date d).

(** Two worlds that differ at most in the operation log. *)
Definition untouched (w w' : World.t) : Prop :=
  World.pages w' = World.pages w /\ World.blocks w' = World.blocks w /\
  World.hearings w' = World.hearings w /\ World.calls w' = World.calls w.

(** A number below 100 written with two digits. *)
Definition pad2 (n : nat) : string :=
  if n <? 10 then ("0" ++ of_nat n)%string else of_nat n.

(** The words of a name that the word comparison of [calculateSimilarity]
    counts. *)
Definition wordsOf (name : string) : list string :=
  filter significant (split_ws (normalize (trim (toLowerCase name)))).

Definition no_angle (c : ascii) : bool :=
  negb (Ascii.eqb c "<" || Ascii.eqb c ">").

(** Two times of the day, hour and minute, are the same. *)
Definition same_time (a b : nat * nat) : bool :=
  (fst a =? fst b) && (snd a =? snd b).

(** Whenever the computation returns, its value satisfies [Q]. *)
Definition yields {A} (m : M A) (Q : A -> Prop) : Prop :=
  forall w a w', m w = (Returns a, w') -> Q a.

(** A candidate of a clarification that is no placeholder. *)
Definition realMatch (m : Match) : Prop :=
  startsWith (or_empty (m_case_name m)) "Unknown Case" = false.

(** *** Scenarios: an environment, actors, payloads and stores *)

Definition storedCase (id : PageId) (name number client : option string) : Case.t :=
  Case.mk id name number (Some caseStatuses.ACTIVE) client None None None None None None
          0 None false None None None.

(** Every date is already in ISO form except the phrase ["next Tuesday"],
    which the runtime cannot parse. *)
Definition demoEnv : Env.t :=
  Env.mk 2025 1234567890123456%N "2025-01-10T10:00:00.000Z" "2025-01-10" None
    (fun d => if String.eqb d "next Tuesday" then None else Some d)
    (fun _ => "Summary pending."%string) true true (fun _ => inserted "evt-1").

(** A senior with a junior, and a senior who has none. *)
Definition senior : User.t :=
  User.mk "lawyer_senior_01" User.SENIOR "Advocate Priya Sharma"
    (Some "priya.sharma@legalfirm.com"%string)
    (Some "Advocate Rahul Kumar"%string) (Some "rahul.kumar@legalfirm.com"%string) false.

Definition soloSenior : User.t :=
  User.mk "lawyer_senior_03" User.SENIOR "Advocate Meera Iyer"
    (Some "lawyer@firm.com"%string) None None false.

Definition createPayload (name client email : option string) : Payload.t :=
  Payload.mk "CREATE_NEW" None name None client email None None None None None None None
             [] false [] None None.

Definition updatePayload (key number outcome : option string) : Payload.t :=
  Payload.mk "UPDATE_EXISTING" key None number None None None None None outcome None None
             None [] false [] None None.

(** Scenario A of the specification. *)
Definition johnSmith : Payload.t :=
  createPayload (Some "John Smith Property Dispute"%string) (Some "John Smith"%string)
                (Some "john@example.com"%string).


Definition johnSmithAssigned : Payload.t :=
  Payload.mk "CREATE_NEW" None (Payload.case_name johnSmith) None
    (Payload.client_name johnSmith) (Payload.client_email johnSmith)
    None None None None None None None [] true [] None None.

(** Two cases that a search for the client Priya Sharma returns: the
    client's own, found by client name, and one of another client whose case
    name mentions Priya Sharma, found by case name and therefore listed
    first. *)
Definition sharmaProperty : Case.t :=
  storedCase 1 (Some "Sharma Property Dispute"%string) (Some "CASE-2025-AAAAA"%string)
             (Some "Priya Sharma"%string).

Definition vermaVsSharma : Case.t :=
  storedCase 2 (Some "Rahul Verma vs Priya Sharma"%string) (Some "CASE-2025-BBBBB"%string)
             (Some "Rahul Verma"%string).

Definition sharmaTenancy : Payload.t :=
  createPayload (Some "Priya Sharma Tenancy"%string) (Some "Priya Sharma"%string)
                (Some "priya@sharma.in"%string).

(** Scenario A with a first hearing on a day the runtime cannot parse. *)
Definition johnSmithNextTuesday : Payload.t :=
  Payload.mk "CREATE_NEW" None (Payload.case_name johnSmith) None
    (Payload.client_name johnSmith) (Payload.client_email johnSmith)
    None None None None None (Some "next Tuesday"%string) None [] false [] None None.

(** Scenario A with a first hearing on a day the runtime parses, and an
    environment whose calendar rejects the credential of the actor. *)
Definition johnSmithDated : Payload.t :=
  Payload.mk "CREATE_NEW" None (Payload.case_name johnSmith) None
    (Payload.client_name johnSmith) (Payload.client_email johnSmith)
    None None None None None (Some "2025-02-15"%string) None [] false [] None None.

Definition lockedEnv : Env.t :=
  Env.mk 2025 (Env.random demoEnv) (Env.now demoEnv) (Env.today demoEnv) None
    (Env.isoDate demoEnv) (Env.aiSummary demoEnv) true true (fun _ => unauthorized).

(** A case without a client name whose title holds three spaces in a row,
    and a payload whose client name is three spaces. *)
Definition raoEstate : Case.t :=
  storedCase 1 (Some "Rao   Estate"%string) (Some "CASE-2025-AAAAA"%string) None.

Definition blankClient : Payload.t :=
  createPayload (Some "Iyer Partition Suit"%string) (Some "   "%string)
                (Some "iyer.family@lawmail.in"%string).


(** The generator's outcome 0.5, whose base-36 form is ["0.i"]. *)
Definition halfEnv : Env.t :=
  Env.mk 2025 (2 ^ 52)%N (Env.now demoEnv) (Env.today demoEnv) None
    (Env.isoDate demoEnv) (Env.aiSummary demoEnv) true true (Env.calendarInsert demoEnv).

(** A case stored without a client name, as a draft is; and a case of the
    same client stored with the client's name. *)
Definition priyaPatel : Case.t :=
  storedCase 1 (Some "Priya Patel"%string) (Some "CASE-2025-AAAAA"%string) None.

Definition priyaPatelDivorce : Case.t :=
  storedCase 1 (Some "Priya Patel Divorce"%string) (Some "CASE-2025-AAAAA"%string)
             (Some "Priya Patel"%string).

(** A real case whose name begins with the word Unknown. *)
Definition unknownHeirs : Case.t :=
  storedCase 1 (Some "Unknown Heirs"%string) (Some "CASE-2025-AAAAA"%string)
             (Some "Ravi Rao"%string).

Definition smithHeirsUpdate : Payload.t :=
  updatePayload (Some "Smith Heirs"%string) None (Some "Bail granted"%string).

(** A case entered by hand in the store, without a case number. *)
Definition sharmaUnnumbered : Case.t :=
  storedCase 1 (Some "State vs Sharma"%string) None (Some "Sharma"%string).

Definition sharmaNumberUpdate : Payload.t :=
  updatePayload (Some "Sharma"%string) (Some "CR-2025-0042"%string) None.

(** The two cases of Scenario C. *)
Definition arunContract : Case.t :=
  storedCase 1 (Some "Arun Mehta Contract Breach"%string) (Some "CASE-2025-AAAAA"%string)
             (Some "Arun Mehta"%string).

Definition arunProperty : Case.t :=
  storedCase 2 (Some "Arun Mehta Property Case"%string) (Some "CASE-2025-BBBBB"%string)
             (Some "Arun Mehta"%string).

(** Two candidates of which only the first contains the one-word key: the
    scores are 0.7 and 0, and the first is selected on the margin. *)
Definition mehtaEstate : Case.t :=
  storedCase 1 (Some "Mehta Estate"%string) (Some "CASE-2025-AAAAA"%string)
             (Some "R Mehta"%string).

Definition guptaLease : Case.t :=
  storedCase 2 (Some "Gupta Lease"%string) (Some "CASE-2025-BBBBB"%string)
             (Some "S Gupta"%string).

(** A client whose name has two characters, and a new case for that
    client. *)
Definition liEstate : Case.t :=
  storedCase 1 (Some "Li Estate"%string) (Some "CASE-2025-AAAAA"%string)
             (Some "Li"%string).

Definition liTenancy : Payload.t :=
  createPayload (Some "Li Tenancy"%string) (Some "Li"%string)
                (Some "li.wei@lawmail.in"%string).

(** A junior whose registry entry still names a junior of their own, the
    text of a voice note, a transcriber that is never reached and a language
    model that extracts the given payloads. *)
Definition juniorActor : User.t :=
  User.mk "lawyer_junior_01" User.JUNIOR "Advocate Rahul Kumar"
    (Some "rahul.kumar@legalfirm.com"%string)
    (Some "Advocate Anil Rao"%string) (Some "anil.rao@legalfirm.com"%string) true.

Definition voiceNote : Input.t :=
  Input.mk None (Some "New case for John Smith, a property dispute."%string).

Definition noTranscriber (path : string) : Outcome string :=
  Throws (RuntimeError "no transcriber").

Definition extracted (payloads : list Payload.t) (transcription : string)
  : Outcome AiAgent.Extraction :=
  Returns (AiAgent.mkExtraction (Some payloads) None false None).


Definition sharmaNextTuesday : Payload.t :=
  Payload.mk "UPDATE_EXISTING" (Some "Sharma Property"%string) None None None None None
    None None (Some "Adjourned"%string) None (Some "next Tuesday"%string) None
    [] false [] None None.

(** Scenario B with a next hearing on a day the runtime parses and the
    status of a case that continues; and with a status that names a member
    every object inherits. *)
Definition sharmaContinuing : Payload.t :=
  Payload.mk "UPDATE_EXISTING" (Some "Sharma Property"%string) None None None None None
    None None (Some "Adjourned"%string) (Some "CONTINUING"%string)
    (Some "2025-02-15"%string) None [] false [] None None.

Definition sharmaConstructor : Payload.t :=
  Payload.mk "UPDATE_EXISTING" (Some "Sharma Property"%string) None None None None None
    None None None (Some "constructor"%string) None None [] false [] None None.

(** A payload with an action the orchestrator does not know. *)
Definition archiveRequest : Payload.t :=
  Payload.mk "ARCHIVE" None (Some "Sharma Property Dispute"%string) None None None
    None None None None None None None [] false [] None None.

(** An update that names no case. *)
Definition namelessUpdate : Payload.t :=
  updatePayload None None (Some "Adjourned"%string).

(* ===================================================================== *)
(** ** Properties                                                        *)
(* ===================================================================== *)

(** *** Facts about lists, strings and rationals *)

Lemma find_pointwise {A} (f g : A -> bool) (l : list A) :
  (forall x, f x = g x) -> find f l = find g l.
Proof.
  intros H. induction l as [|x l IH]; simpl; [reflexivity|].
  rewrite H, IH. reflexivity.
Qed.

Lemma find_first {A} (f : A -> bool) (l : list A) (c : A) :
  In c l -> f c = true ->
  exists before e after,
    l = before ++ e :: after /\
    forallb (fun x => negb (f x)) before = true /\
    f e = true /\
    In c (e :: after) /\
    find f l = Some e.
Proof.
  induction l as [|x l IH]; intros Hin Hc; [contradiction|].
  destruct (f x) eqn:Fx.
  - exists [], x, l. simpl. rewrite Fx. repeat split; auto.
  - destruct Hin as [->|Hin]; [congruence|].
    destruct (IH Hin Hc) as (before & e & after & -> & Hb & He & Hc' & Hf).
    exists (x :: before), e, after. simpl. rewrite Fx, Hb. repeat split; auto.
Qed.

Lemma filter_length_le {A} (f : A -> bool) (l : list A) : length (filter f l) <= length l.
Proof. induction l as [|x l IH]; simpl; [lia|]. destruct (f x); simpl; lia. Qed.

Lemma filter_length_all {A} (f : A -> bool) (l : list A) :
  length (filter f l) = length l <-> forallb f l = true.
Proof.
  induction l as [|x l IH]; simpl; [tauto|].
  pose proof (filter_length_le f l).
  destruct (f x); simpl.
  - rewrite <- IH. lia.
  - split; [lia | discriminate].
Qed.

Lemma mem_In (x : string) (l : list string) : mem x l = true <-> In x l.
Proof.
  unfold mem. rewrite existsb_exists. split.
  - intros (y & Hy & E). apply String.eqb_eq in E. subst. exact Hy.
  - intros H. exists x. split; [exact H | apply String.eqb_refl].
Qed.


Lemma length_ge_3_truthy (name : string) :
  3 <= String.length name -> truthy (Some name) = true.
Proof. destruct name; simpl; [lia | reflexivity]. Qed.

Lemma substring_none (s : string) : String.substring 0 0 s = EmptyString.
Proof. destruct s; reflexivity. Qed.

Lemma Qle_bool_false (a b : Q) : Qle_bool a b = false -> (b < a)%Q.
Proof.
  intros H. apply Qnot_le_lt. intros Hle. apply Qle_bool_iff in Hle. congruence.
Qed.

(** *** Running a computation *)

Ltac run := unfold bind, ret, throw, try_catch, gets, modify, when in *.

Lemma createCase_duplicate env d user w e :
  checkDuplicateIn (World.pages w) d = Some e ->
  createCase env d user w = (Throws (CaseAlreadyExistsError e), w).
Proof.
  intros H. unfold createCase, checkDuplicateCase. run. rewrite H. reflexivity.
Qed.

Lemma createCase_fresh env d user w :
  checkDuplicateIn (World.pages w) d = None ->
  dateOk env (Payload.next_hearing_date d) ->
  createCase env d user w =
    (Returns (mkCreated (newPageId (World.pages w)) (caseNumberOf env d) (Payload.case_name d)
                (statusOf d) (isDraft d) (Payload.missing_fields d)),
     afterCreate env d user w).
Proof.
  intros H D.
  unfold createCase, checkDuplicateCase, formatDateForNotion, addHistoryEntry,
    afterCreate, isoOf.
  run. rewrite H.
  unfold dateOk in D.
  destruct (truthy (Payload.next_hearing_date d)) eqn:T.
  - destruct (D eq_refl) as [iso E]. rewrite E.
    destruct (isDraft d); reflexivity.
  - destruct (isDraft d); reflexivity.
Qed.

Lemma createCase_bad_date env d user w :
  checkDuplicateIn (World.pages w) d = None ->
  truthy (Payload.next_hearing_date d) = true ->
  Env.isoDate env (or_empty (Payload.next_hearing_date d)) = None ->
  createCase env d user w =
    (Throws (ExternalServiceError "Notion" "Invalid time value"), w).
Proof.
  intros H T E. unfold createCase, checkDuplicateCase, formatDateForNotion. run.
  rewrite H, T, E. reflexivity.
Qed.

Lemma afterCreate_calls env d user w :
  World.calls (afterCreate env d user w) = World.calls w.
Proof. unfold afterCreate. destruct (isDraft d); reflexivity. Qed.


(** *** Steps that return and leave the pages of the store alone *)








(** *** Steps that raise and leave the pages of the store alone *)






(** *** The create branch *)

Lemma prepared_fields env user d :
  Payload.client_name (prepared env user d) = Payload.client_name d /\
  Payload.case_name (prepared env user d) = Payload.case_name d /\
  Payload.client_email (prepared env user d) = Payload.client_email d /\
  Payload.case_number (prepared env user d) = Payload.case_number d /\
  Payload.next_hearing_date (prepared env user d) = Payload.next_hearing_date d /\
  Payload.missing_fields (prepared env user d) = allMissingFields user d.
Proof. unfold prepared. destruct (_ && _); repeat split; reflexivity. Qed.

Lemma isDuplicateOf_prepared env user d c :
  isDuplicateOf (prepared env user d) c = isDuplicateOf d c.
Proof.
  unfold isDuplicateOf.
  destruct (prepared_fields env user d) as (-> & -> & _). reflexivity.
Qed.

Lemma checkDuplicateIn_prepared env user d pages :
  checkDuplicateIn pages (prepared env user d) = checkDuplicateIn pages d.
Proof.
  unfold checkDuplicateIn, duplicateSearchKey.
  destruct (prepared_fields env user d) as (-> & -> & _).
  destruct (_ && _); [reflexivity|].
  destruct (_ || _); [reflexivity|].
  apply find_pointwise. intros c. apply isDuplicateOf_prepared.
Qed.

Lemma handleNewCase_duplicate env user d w e :
  checkDuplicateIn (World.pages w) d = Some e ->
  handleNewCase env user d w =
    (Returns (duplicateResult d e),
     World.add_log ("DUPLICATE_CASE",
                    ("Case already exists: " ++ show (Case.case_name e))%string) w).
Proof.
  intros H. unfold handleNewCase. unfold try_catch, bind at 1.
  rewrite createCase_duplicate with (e := e)
    by (rewrite checkDuplicateIn_prepared; exact H).
  unfold duplicateResult. destruct (prepared_fields env user d) as (_ & -> & _).
  reflexivity.
Qed.

Lemma caseNumberOf_prepared env user d :
  caseNumberOf env (prepared env user d) = caseNumberOf env d.
Proof.
  unfold caseNumberOf.
  destruct (prepared_fields env user d) as (_ & _ & _ & -> & _). reflexivity.
Qed.

Lemma isDraft_prepared env user d :
  isDraft (prepared env user d) = (0 <? length (allMissingFields user d)).
Proof.
  unfold isDraft.
  destruct (prepared_fields env user d) as (_ & _ & _ & _ & _ & ->). reflexivity.
Qed.

Lemma handleNewCase_draft env user d w :
  checkDuplicateIn (World.pages w) d = None ->
  dateOk env (Payload.next_hearing_date d) ->
  allMissingFields user d <> [] ->
  handleNewCase env user d w =
    (Returns (draftResult env user d w),
     World.add_log ("NOTION_CREATE",
                    ("Created case: " ++ show (Payload.case_name d) ++ " (Draft)")%string)
       (afterCreate env (prepared env user d) user w)).
Proof.
  intros H D N. unfold handleNewCase. unfold try_catch, bind at 1.
  rewrite createCase_fresh.
  2:{ rewrite checkDuplicateIn_prepared; exact H. }
  2:{ destruct (prepared_fields env user d) as (_ & _ & _ & _ & -> & _). exact D. }
  cbn [created_is_draft created_id created_case_number].
  rewrite isDraft_prepared, caseNumberOf_prepared.
  destruct (allMissingFields user d) eqn:E; [congruence|].
  unfold draftResult. rewrite E.
  destruct (prepared_fields env user d) as (_ & -> & _).
  reflexivity.
Qed.











(** A payload that will be a draft makes no call to a sink, whatever
    becomes of it. *)
Lemma handleNewCase_draft_calls env user d w :
  allMissingFields user d <> [] ->
  World.calls (snd (handleNewCase env user d w)) = World.calls w.
Proof.
  intros N.
  destruct (checkDuplicateIn (World.pages w) d) as [e|] eqn:Dup.
  - rewrite (handleNewCase_duplicate env user d w e Dup). reflexivity.
  - destruct (truthy (Payload.next_hearing_date d)) eqn:T.
    + destruct (Env.isoDate env (or_empty (Payload.next_hearing_date d))) as [iso|] eqn:E.
      * rewrite handleNewCase_draft; try assumption.
        -- simpl. apply afterCreate_calls.
        -- intros _. exists iso. exact E.
      * unfold handleNewCase. unfold try_catch, bind at 1.
        rewrite createCase_bad_date.
        -- reflexivity.
        -- rewrite checkDuplicateIn_prepared; exact Dup.
        -- destruct (prepared_fields env user d) as (_ & _ & _ & _ & -> & _). exact T.
        -- destruct (prepared_fields env user d) as (_ & _ & _ & _ & -> & _). exact E.
    + rewrite handleNewCase_draft; try assumption.
      * simpl. apply afterCreate_calls.
      * intros T'. congruence.
Qed.

Lemma isDuplicateOf_same_client d c name :
  Payload.client_name d = Some name ->
  trim (toLowerCase name) <> ""%string ->
  startsWith (trim (toLowerCase (or_empty (Case.case_name c)))) "unknown case" = false ->
  trim (toLowerCase (or_empty (Case.client_name c))) = trim (toLowerCase name) ->
  isDuplicateOf d c = true.
Proof.
  intros Hn Hne Hp Heq. unfold isDuplicateOf. rewrite Hn, Hp. cbn [or_empty].
  rewrite Heq, String.eqb_refl.
  destruct (String.eqb_spec (trim (toLowerCase name)) ""); [contradiction|].
  reflexivity.
Qed.

Lemma checkDuplicateIn_client d pages name :
  Payload.client_name d = Some name ->
  3 <= String.length name ->
  checkDuplicateIn pages d = find (isDuplicateOf d) (search pages name).
Proof.
  intros Hn Hl. unfold checkDuplicateIn, duplicateSearchKey.
  rewrite Hn, (length_ge_3_truthy name Hl). cbn [negb andb or_empty orb].
  rewrite (length_ge_3_truthy name Hl). cbn [negb orb].
  destruct (String.length name <? 3) eqn:E; [apply Nat.ltb_lt in E; lia|].
  reflexivity.
Qed.

(* --------------------------------------------------------------------- *)
(** *** C1: an Update payload whose lookup key matches nothing            *)
(* --------------------------------------------------------------------- *)

(** C1 fails on the code: the key Smith Heirs matches no case of the store,
    but the placeholder Unknown Case: Smith Heirs is taken for a duplicate of
    the case Unknown Heirs (similarity 0.9), createCase raises
    CaseAlreadyExistsError, and the Update Branch, which has no handler for
    it, reports ERROR and stores no draft. *)
Theorem unknown_reference_reported_as_error (env : Env.t) (user : User.t) :
  search [unknownHeirs] "Smith Heirs" = [] /\
  isDuplicateOf (draftData smithHeirsUpdate (Some "Smith Heirs"%string)) unknownHeirs = true /\
  exists r w,
    processSingleCase env user smithHeirsUpdate (World.initial [unknownHeirs])
      = (Returns r, w) /\
    Result.status r = Result.ERROR /\
    Result.error r = Some (message (CaseAlreadyExistsError unknownHeirs)) /\
    World.pages w = [unknownHeirs].
Proof.
  split; [vm_compute; reflexivity|]. split; [vm_compute; reflexivity|].
  eexists; eexists. split; [vm_compute; reflexivity|]. repeat split.
Qed.



(* --------------------------------------------------------------------- *)
(** *** C2: several candidates                                            *)
(* --------------------------------------------------------------------- *)

Lemma sortScored_nil (l : list Scored) : sortScored l = [] -> l = [].
Proof.
  destruct l as [|x l]; [reflexivity|]. simpl.
  destruct (sortScored l) as [|y r]; simpl; [discriminate|].
  destruct (Qle_bool (similarity y) (similarity x)); discriminate.
Qed.

(** The head of the sorted list is the first candidate of maximal score, and
    the tail is the sorted list of the others. *)
Lemma sortScored_top (l : list Scored) (best : Scored) (rest : list Scored) :
  sortScored l = best :: rest ->
  exists before after,
    l = before ++ best :: after /\
    Forall (fun s => (similarity s < similarity best)%Q) before /\
    Forall (fun s => (similarity s <= similarity best)%Q) after /\
    rest = sortScored (before ++ after).
Proof.
  revert best rest. induction l as [|x l IH]; intros best rest H; [discriminate|].
  simpl in H. destruct (sortScored l) as [|m t] eqn:E.
  - apply sortScored_nil in E. subst l. simpl in H. injection H as <- <-.
    exists [], []. repeat split; constructor.
  - destruct (IH m t eq_refl) as (b' & a' & Hl & Hb & Ha & Ht).
    simpl in H. destruct (Qle_bool (similarity m) (similarity x)) eqn:C.
    + injection H as <- <-. apply Qle_bool_iff in C.
      exists [], l. split; [reflexivity|]. split; [constructor|]. split.
      * subst l. apply Forall_app. split.
        -- eapply Forall_impl; [|exact Hb]. intros s Hs. simpl in Hs.
           apply Qlt_le_weak. eapply Qlt_le_trans; eassumption.
        -- constructor; [exact C|].
           eapply Forall_impl; [|exact Ha]. intros s Hs. simpl in Hs.
           eapply Qle_trans; eassumption.
      * simpl. exact (eq_sym E).
    + injection H as <- <-. apply Qle_bool_false in C.
      exists (x :: b'), a'. split; [subst l; reflexivity|].
      split; [constructor; assumption|]. split; [exact Ha|].
      simpl. rewrite <- Ht. reflexivity.
Qed.

Lemma sortScored_length (l : list Scored) : length (sortScored l) = length l.
Proof.
  induction l as [|x l IH]; [reflexivity|]. simpl. rewrite <- IH.
  generalize (sortScored l). intros s. induction s as [|y r IHr]; [reflexivity|].
  simpl. destruct (Qle_bool (similarity y) (similarity x)); simpl; [reflexivity|].
  rewrite IHr. reflexivity.
Qed.

Lemma autoSelects_decides (best second : Q) :
  Qle_bool (9 # 10) best || (Qle_bool (7 # 10) best && Qle_bool (2 # 10) (best - second))
    = true <-> autoSelects best second.
Proof.
  unfold autoSelects.
  rewrite orb_true_iff, andb_true_iff, !Qle_bool_iff. tauto.
Qed.

(** C2, as stated, fails: for the key Arun Mehta both cases of Scenario C
    score 0.95, which passes the 0.9 gate, so findCase returns the first of
    them and the update is applied to it; no clarification is raised.  And a
    key of one significant word that matches scores 0.7, not 0.95. *)
Lemma arun_mehta_is_auto_selected :
  search [arunContract; arunProperty] "Arun Mehta" = [arunContract; arunProperty] /\
  map (fun r => similarity (scoreResult "Arun Mehta" r)) [arunContract; arunProperty]
    = [(95 # 100)%Q; (95 # 100)%Q] /\
  findCaseIn "Arun Mehta" [arunContract; arunProperty] = Returns arunContract /\
  (exists r w,
     processSingleCase demoEnv senior (updatePayload (Some "Arun Mehta"%string) None None)
                       (World.initial [arunContract; arunProperty]) = (Returns r, w) /\
     Result.status r = Result.UPDATED /\
     Result.case_id r = Some 1) /\
  forallb (wordMatches arunContract) (searchWords "Mehta") = true /\
  similarity (scoreResult "Mehta" arunContract) = (7 # 10)%Q.
Proof.
  repeat (split; [vm_compute; reflexivity|]). split.
  - eexists; eexists. split; [vm_compute; reflexivity|]. split; reflexivity.
  - split; vm_compute; reflexivity.
Qed.

(** The pieces of a name that is present and unpadded are its words: none
    of them is empty. *)
Lemma split_ws_from_words (s cur : string) (gap : bool) :
  (s = EmptyString -> cur <> EmptyString) ->
  (forall b, last_char s = Some b -> is_space b = false) ->
  (cur = EmptyString -> gap = false ->
   forall a, head_char s = Some a -> is_space a = false) ->
  Forall (fun w => w <> EmptyString) (split_ws_from cur gap s).
Proof.
  revert cur gap. induction s as [|c r IH]; intros cur gap H1 H2 H3.
  - constructor; [apply H1; reflexivity | constructor].
  - cbn [split_ws_from]. destruct (is_space c) eqn:Sc.
    + assert (Hr : r <> EmptyString).
      { intros ->. specialize (H2 c eq_refl). congruence. }
      assert (Hrec : Forall (fun w => w <> EmptyString) (split_ws_from "" true r)).
      { apply IH.
        - intros E. contradiction.
        - intros b Hb. apply H2. destruct r; [contradiction | exact Hb].
        - intros _ E. discriminate E. }
      destruct gap; [exact Hrec|].
      constructor; [| exact Hrec].
      intros ->. specialize (H3 eq_refl eq_refl c eq_refl). congruence.
    + apply IH.
      * intros _. destruct cur; discriminate.
      * intros b Hb. apply H2. destruct r; [discriminate Hb | exact Hb].
      * intros E. destruct cur; discriminate E.
Qed.

Lemma lower_char_space (c : ascii) : is_space (lower_char c) = is_space c.
Proof. destruct c as [[] [] [] [] [] [] [] []]; vm_compute; reflexivity. Qed.

Lemma head_char_map (f : ascii -> ascii) (s : string) :
  head_char (map_chars f s) = option_map f (head_char s).
Proof. destruct s; reflexivity. Qed.

Lemma last_char_map (f : ascii -> ascii) (s : string) :
  last_char (map_chars f s) = option_map f (last_char s).
Proof.
  induction s as [|c r IH]; [reflexivity|].
  cbn [map_chars last_char]. destruct r; [reflexivity | exact IH].
Qed.

Lemma split_ws_words (s : string) :
  unpadded s = true -> Forall (fun w => w <> EmptyString) (split_ws (toLowerCase s)).
Proof.
  unfold unpadded, split_ws, toLowerCase. intros U.
  destruct (head_char s) as [a|] eqn:Ha; [| discriminate U].
  destruct (last_char s) as [b|] eqn:Hb; [| discriminate U].
  apply andb_true_iff in U. destruct U as [Ua Ub].
  apply negb_true_iff in Ua, Ub.
  apply split_ws_from_words.
  - intros E. destruct s; [discriminate Ha | discriminate E].
  - intros b' Hb'. rewrite last_char_map, Hb in Hb'. injection Hb' as <-.
    rewrite lower_char_space. exact Ub.
  - intros _ _ a' Ha'. rewrite head_char_map, Ha in Ha'. injection Ha' as <-.
    rewrite lower_char_space. exact Ua.
Qed.

Lemma filter_words (l : list string) :
  Forall (fun w => w <> EmptyString) l ->
  filter (fun w => negb (String.eqb w "")) l = l.
Proof.
  induction 1 as [|x l Hx Hl IH]; [reflexivity|].
  simpl. destruct (String.eqb_spec x ""); [contradiction|].
  simpl. rewrite IH. reflexivity.
Qed.

(** For a properly named candidate the match of the code is the match of a
    lookup word against the words of the names. *)
Lemma wordMatches_textual (r : Case.t) :
  properlyNamed r = true -> forall sw, wordMatches r sw = textuallyMatches r sw.
Proof.
  unfold properlyNamed. intros H sw.
  apply andb_true_iff in H. destruct H as [H1 H2].
  unfold wordMatches, textuallyMatches, nameWords, allTargetWords.
  rewrite filter_words; [reflexivity|].
  apply Forall_app. split; apply split_ws_words; assumption.
Qed.

Lemma filter_pointwise {A} (f g : A -> bool) (l : list A) :
  (forall x, f x = g x) -> filter f l = filter g l.
Proof.
  intros H. induction l as [|x l IH]; [reflexivity|].
  simpl. rewrite H, IH. reflexivity.
Qed.

Lemma forallb_pointwise {A} (f g : A -> bool) (l : list A) :
  (forall x, f x = g x) -> forallb f l = forallb g l.
Proof.
  intros H. induction l as [|x l IH]; [reflexivity|].
  simpl. rewrite H, IH. reflexivity.
Qed.

Lemma scoreResult_rule (lookupKey : string) (r : Case.t) :
  scored_case (scoreResult lookupKey r) = r /\
  (exactCaseNumber lookupKey r = true ->
   similarity (scoreResult lookupKey r) = 1%Q) /\
  (properlyNamed r = true ->
   exactCaseNumber lookupKey r = false ->
   2 <= length (searchWords lookupKey) ->
   forallb (textuallyMatches r) (searchWords lookupKey) = true ->
   similarity (scoreResult lookupKey r) = (95 # 100)%Q) /\
  (properlyNamed r = true ->
   exactCaseNumber lookupKey r = false ->
   length (searchWords lookupKey) < 2 \/
   forallb (textuallyMatches r) (searchWords lookupKey) = false ->
   similarity (scoreResult lookupKey r) = (matchedRatio lookupKey r * (7 # 10))%Q).
Proof.
  assert (G : properlyNamed r = true ->
              scored_case (scoreResult lookupKey r) = r /\
              (exactCaseNumber lookupKey r = true ->
               similarity (scoreResult lookupKey r) = 1%Q) /\
              (exactCaseNumber lookupKey r = false ->
               2 <= length (searchWords lookupKey) ->
               forallb (textuallyMatches r) (searchWords lookupKey) = true ->
               similarity (scoreResult lookupKey r) = (95 # 100)%Q) /\
              (exactCaseNumber lookupKey r = false ->
               length (searchWords lookupKey) < 2 \/
               forallb (textuallyMatches r) (searchWords lookupKey) = false ->
               similarity (scoreResult lookupKey r)
               = (matchedRatio lookupKey r * (7 # 10))%Q)).
  { intros N. pose proof (wordMatches_textual r N) as W.
    unfold scoreResult, matchedRatio, matchingWords.
    rewrite (filter_pointwise _ _ (searchWords lookupKey) W).
    destruct (exactCaseNumber lookupKey r) eqn:En.
    - repeat split; try reflexivity; intros; discriminate.
    - destruct (length (filter (textuallyMatches r) (searchWords lookupKey))
                =? length (searchWords lookupKey)) eqn:Eall.
      + apply Nat.eqb_eq in Eall. apply filter_length_all in Eall.
        destruct (2 <=? length (searchWords lookupKey)) eqn:E2; cbn [andb].
        * apply Nat.leb_le in E2.
          repeat split; try reflexivity; try (intros; discriminate).
          intros _ [H | H]; [lia | congruence].
        * apply Nat.leb_gt in E2.
          repeat split; try reflexivity; try (intros; discriminate).
          -- intros _ H. lia.
          -- intros _ _.
             destruct (length (searchWords lookupKey)) as [|n]; reflexivity.
      + cbn [andb]. apply Nat.eqb_neq in Eall.
        repeat split; try reflexivity; try (intros; discriminate).
        * intros _ _ H. apply filter_length_all in H. contradiction.
        * intros _ _.
          destruct (length (searchWords lookupKey)) as [|n]; reflexivity. }
  split.
  { unfold scoreResult. destruct (exactCaseNumber lookupKey r); [reflexivity|].
    destruct (_ && _); reflexivity. }
  split.
  { unfold scoreResult. intros ->. reflexivity. }
  split; intros N; apply G; exact N.
Qed.

Lemma findCaseIn_several (lookupKey : string) (results : list Case.t) :
  2 <= length results ->
  exists best second before after,
    map (scoreResult lookupKey) results = before ++ best :: after /\
    Forall (fun s => (similarity s < similarity best)%Q) before /\
    Forall (fun s => (similarity s <= similarity best)%Q) after /\
    In second (before ++ after) /\
    Forall (fun s => (similarity s <= similarity second)%Q) (before ++ after) /\
    (autoSelects (similarity best) (similarity second) ->
     findCaseIn lookupKey results = Returns (scored_case best)) /\
    (~ autoSelects (similarity best) (similarity second) ->
     findCaseIn lookupKey results = Throws (DuplicateCaseError (map toMatch results))).
Proof.
  intros Hlen.
  destruct results as [|r1 [|r2 rs]]; [simpl in Hlen; lia | simpl in Hlen; lia |].
  unfold findCaseIn.
  remember (r1 :: r2 :: rs) as results eqn:Hres.
  assert (Hl : length (sortScored (map (scoreResult lookupKey) results)) = length results).
  { rewrite sortScored_length, length_map. reflexivity. }
  destruct (sortScored (map (scoreResult lookupKey) results)) as [|best [|second t]] eqn:Es;
    [subst results; simpl in Hl; lia | subst results; simpl in Hl; lia |].
  destruct (sortScored_top _ _ _ Es) as (before & after & Hsplit & Hb & Ha & Hrest).
  destruct (sortScored_top _ _ _ (eq_sym Hrest)) as (b2 & a2 & Hsplit2 & Hb2 & Ha2 & _).
  exists best, second, before, after.
  split; [exact Hsplit|]. split; [exact Hb|]. split; [exact Ha|].
  split; [rewrite Hsplit2; apply in_or_app; right; left; reflexivity|].
  split.
  { rewrite Hsplit2. apply Forall_app. split.
    - eapply Forall_impl; [|exact Hb2]. intros s Hs. apply Qlt_le_weak. exact Hs.
    - constructor; [apply Qle_refl | exact Ha2]. }
  pose proof (autoSelects_decides (similarity best) (similarity second)) as Hdec.
  split; intros Hsel.
  - apply Hdec in Hsel. rewrite Hsel. reflexivity.
  - destruct (Qle_bool (9 # 10) (similarity best)
              || (Qle_bool (7 # 10) (similarity best)
                  && Qle_bool (2 # 10) (similarity best - similarity second))) eqn:E.
    + exfalso. apply Hsel, Hdec. reflexivity.
    + reflexivity.
Qed.

(** C2, amended: each candidate is scored 1.0 for an exact case-number
    match; a candidate whose case name and client name are both present,
    without white space at either end, is otherwise scored 0.95 when the key
    has at least two significant words and every one of them is contained in
    or contains a word of these names, and else 0.7 times the share of the
    significant words that do (0 when the key has no significant word).
    With two or more candidates, findCase returns the top-scoring one, the
    earliest in search order among equals, exactly when its score is at
    least 0.9, or at least 0.7 with a margin of 0.2 over the second best;
    otherwise it raises the clarification with the full candidate list.  For
    the key Arun Mehta against the two cases of Scenario C both score 0.95
    and the first is returned. *)
Theorem findCase_several_candidates :
  (forall lookupKey r,
     scored_case (scoreResult lookupKey r) = r /\
     (exactCaseNumber lookupKey r = true ->
      similarity (scoreResult lookupKey r) = 1%Q) /\
     (properlyNamed r = true ->
      exactCaseNumber lookupKey r = false ->
      2 <= length (searchWords lookupKey) ->
      forallb (textuallyMatches r) (searchWords lookupKey) = true ->
      similarity (scoreResult lookupKey r) = (95 # 100)%Q) /\
     (properlyNamed r = true ->
      exactCaseNumber lookupKey r = false ->
      length (searchWords lookupKey) < 2 \/
      forallb (textuallyMatches r) (searchWords lookupKey) = false ->
      similarity (scoreResult lookupKey r) = (matchedRatio lookupKey r * (7 # 10))%Q))
  /\
  (forall lookupKey results,
     2 <= length results ->
     exists best second before after,
       map (scoreResult lookupKey) results = before ++ best :: after /\
       Forall (fun s => (similarity s < similarity best)%Q) before /\
       Forall (fun s => (similarity s <= similarity best)%Q) after /\
       In second (before ++ after) /\
       Forall (fun s => (similarity s <= similarity second)%Q) (before ++ after) /\
       (autoSelects (similarity best) (similarity second) ->
        findCaseIn lookupKey results = Returns (scored_case best)) /\
       (~ autoSelects (similarity best) (similarity second) ->
        findCaseIn lookupKey results
        = Throws (DuplicateCaseError (map toMatch results))))
  /\
  findCaseIn "Arun Mehta" (search [arunContract; arunProperty] "Arun Mehta")
  = Returns arunContract.
Proof.
  split; [exact scoreResult_rule|]. split; [exact findCaseIn_several|].
  vm_compute. reflexivity.
Qed.

(** The key Mehta against the Mehta estate and the Gupta lease: the one
    significant word matches the first, which scores 0.7 for it, and the
    selection rule decides between the two. *)
Lemma findCase_several_candidates_witness :
  (properlyNamed mehtaEstate = true /\
   exactCaseNumber "Mehta" mehtaEstate = false /\
   length (searchWords "Mehta") < 2 /\
   similarity (scoreResult "Mehta" mehtaEstate)
   = (matchedRatio "Mehta" mehtaEstate * (7 # 10))%Q) /\
  (properlyNamed arunContract = true /\
   exactCaseNumber "Arun Mehta" arunContract = false /\
   2 <= length (searchWords "Arun Mehta") /\
   forallb (textuallyMatches arunContract) (searchWords "Arun Mehta") = true /\
   similarity (scoreResult "Arun Mehta" arunContract) = (95 # 100)%Q) /\
  2 <= length [mehtaEstate; guptaLease] /\
  exists best second before after,
    map (scoreResult "Mehta") [mehtaEstate; guptaLease] = before ++ best :: after /\
    Forall (fun s => (similarity s < similarity best)%Q) before /\
    Forall (fun s => (similarity s <= similarity best)%Q) after /\
    In second (before ++ after) /\
    Forall (fun s => (similarity s <= similarity second)%Q) (before ++ after) /\
    (autoSelects (similarity best) (similarity second) ->
     findCaseIn "Mehta" [mehtaEstate; guptaLease] = Returns (scored_case best)) /\
    (~ autoSelects (similarity best) (similarity second) ->
     findCaseIn "Mehta" [mehtaEstate; guptaLease]
     = Throws (DuplicateCaseError (map toMatch [mehtaEstate; guptaLease]))).
Proof.
  assert (L1 : length (searchWords "Mehta") < 2) by (vm_compute; lia).
  assert (L2 : 2 <= length (searchWords "Arun Mehta")) by (vm_compute; lia).
  split.
  { split; [reflexivity|]. split; [reflexivity|]. split; [exact L1|].
    apply (proj2 (proj2 (proj2
             (proj1 findCase_several_candidates "Mehta"%string mehtaEstate))));
      [reflexivity | reflexivity | left; exact L1]. }
  split.
  { split; [reflexivity|]. split; [reflexivity|]. split; [exact L2|].
    split; [reflexivity|].
    apply (proj1 (proj2 (proj2
             (proj1 findCase_several_candidates "Arun Mehta"%string arunContract))));
      [reflexivity | reflexivity | exact L2 | reflexivity]. }
  split; [simpl; lia|].
  apply (proj1 (proj2 findCase_several_candidates) "Mehta"%string [mehtaEstate; guptaLease]).
  simpl. lia.
Defined.

(** The rule is about candidates with both names: for the case Priya Patel,
    stored without a client name, the key Priya Sharma matches the word
    priya alone, yet the case scores 0.95 (see C3 for the empty word that
    the absent name contributes). *)
Example unnamed_client_scores_full_match :
  properlyNamed priyaPatel = false /\
  filter (textuallyMatches priyaPatel) (searchWords "Priya Sharma") = ["priya"%string] /\
  similarity (scoreResult "Priya Sharma" priyaPatel) = (95 # 100)%Q.
Proof. vm_compute. repeat split. Qed.

Example mehta_selected_on_margin :
  findCaseIn "Mehta" [mehtaEstate; guptaLease] = Returns mehtaEstate.
Proof. vm_compute. reflexivity. Qed.

Example two_partial_matches_need_clarification :
  findCaseIn "Arun Mehta Sharma" [arunContract; arunProperty]
  = Throws (DuplicateCaseError [toMatch arunContract; toMatch arunProperty]).
Proof. vm_compute. reflexivity. Qed.

(* --------------------------------------------------------------------- *)
(** *** C3: a single candidate that matches only part of the key          *)
(* --------------------------------------------------------------------- *)

(** C3 fails on the code: for the key Priya Sharma the search returns the
    single case Priya Patel, which is no case-number match; of the two
    significant words only priya matches a word of its names; and findCase
    returns that case instead of NotFound, because the absent client name
    contributes an empty word that every lookup word contains.  The update
    is then applied to the wrong case. *)
Theorem partial_match_returns_single_candidate :
  search [priyaPatel] "Priya Sharma" = [priyaPatel] /\
  exactCaseNumber "Priya Sharma" priyaPatel = false /\
  searchWords "Priya Sharma" = ["priya"; "sharma"]%string /\
  nameWords priyaPatel = ["priya"; "patel"]%string /\
  filter (textuallyMatches priyaPatel) (searchWords "Priya Sharma") = ["priya"%string] /\
  findCaseIn "Priya Sharma" [priyaPatel] = Returns priyaPatel /\
  forall env user,
  exists r w,
    processSingleCase env user
      (updatePayload (Some "Priya Sharma"%string) None None)
      (World.initial [priyaPatel]) = (Returns r, w) /\
    Result.status r = Result.UPDATED /\
    Result.case_name r = Some "Priya Patel"%string.
Proof.
  repeat (split; [vm_compute; reflexivity|]).
  intros env user. eexists; eexists. split; [vm_compute; reflexivity|]. repeat split.
Qed.

(** What the validation of a single candidate does guarantee: when, in the
    word lists the code builds, fewer than all of at least two significant
    words match and the candidate is no case-number match, the result is
    NotFound. *)
Lemma findCaseIn_single_partial (lookupKey : string) (r : Case.t) :
  2 <= length (searchWords lookupKey) ->
  exactCaseNumber lookupKey r = false ->
  forallb (wordMatches r) (searchWords lookupKey) = false ->
  findCaseIn lookupKey [r] = Throws (CaseNotFoundError lookupKey).
Proof.
  intros H2 Hn Hm. unfold findCaseIn. rewrite Hn.
  assert (L : length (matchingWords lookupKey r) < length (searchWords lookupKey)).
  { pose proof (filter_length_le (wordMatches r) (searchWords lookupKey)) as Hle.
    destruct (Nat.eq_dec (length (matchingWords lookupKey r))
                         (length (searchWords lookupKey))) as [E|E].
    - apply filter_length_all in E. congruence.
    - unfold matchingWords in *. lia. }
  destruct (2 <=? length (searchWords lookupKey)) eqn:E2;
    [| apply Nat.leb_gt in E2; lia].
  destruct (length (matchingWords lookupKey r) =? length (searchWords lookupKey)) eqn:E3;
    [apply Nat.eqb_eq in E3; lia|].
  apply Nat.ltb_lt in L. rewrite L. reflexivity.
Qed.

(** The comment in the source names this very pair: with a client name on
    the stored case the candidate is rejected. *)
Example priya_patel_with_client_rejected :
  findCaseIn "Priya Sharma"
    [storedCase 1 (Some "Priya Patel Divorce"%string) (Some "CASE-2025-AAAAA"%string)
                (Some "Priya Patel"%string)]
  = Throws (CaseNotFoundError "Priya Sharma").
Proof. vm_compute. reflexivity. Qed.

(* --------------------------------------------------------------------- *)
(** *** C4: a complete Create payload                                     *)
(* --------------------------------------------------------------------- *)



(** The date hypothesis is needed: [createCase] formats the next hearing
    date before it stores the page, and a date the runtime cannot parse ends
    the branch with ERROR and nothing stored. *)
Example unparseable_date_reports_error :
  exists r w,
    handleNewCase demoEnv senior johnSmithNextTuesday (World.initial []) = (Returns r, w) /\
    Result.status r = Result.ERROR /\
    Result.error r = Some "Notion error: Invalid time value"%string /\
    World.pages w = [].
Proof. eexists; eexists. split; [vm_compute; reflexivity|]. repeat split. Qed.

(** Scenario A with a first hearing when the calendar rejects the
    credential: the result is ERROR and names no case, yet the page is in
    the store, Active. *)
Example rejected_credential_reports_error :
  exists r w,
    handleNewCase lockedEnv senior johnSmithDated (World.initial []) = (Returns r, w) /\
    Result.status r = Result.ERROR /\
    Result.case_id r = None /\
    map Case.status (World.pages w) = [Some caseStatuses.ACTIVE].
Proof. eexists; eexists. split; [vm_compute; reflexivity|]. repeat split. Qed.


(* --------------------------------------------------------------------- *)
(** *** C5: a Create payload for a client who already has a case          *)
(* --------------------------------------------------------------------- *)

(** C5, as stated, fails.  First, the client name of the payload equals
    that of a case the search returns, yet the DUPLICATE_CASE result carries
    another case, the first result that qualifies under any rule of the
    detector.  Second, the detector skips a search key under three
    characters, so a client of that name gets a second case.  Third, the
    detector compares client names only when the trimmed name of the payload
    is not empty, so a blank name that equals the (absent) client name of a
    returned case is let through. *)
Lemma duplicate_result_carries_another_case :
  (In sharmaProperty (search [sharmaProperty; vermaVsSharma] "Priya Sharma") /\
   startsWith (trim (toLowerCase (or_empty (Case.case_name sharmaProperty))))
              "unknown case" = false /\
   trim (toLowerCase (or_empty (Case.client_name sharmaProperty)))
     = trim (toLowerCase (or_empty (Payload.client_name sharmaTenancy))) /\
   exists r w,
     handleNewCase demoEnv senior sharmaTenancy
                   (World.initial [sharmaProperty; vermaVsSharma]) = (Returns r, w) /\
     Result.status r = Result.DUPLICATE_CASE /\
     Result.existing_case r = Some (toMatch vermaVsSharma) /\
     Result.existing_case r <> Some (toMatch sharmaProperty))
  /\
  (In liEstate (search [liEstate] "Li") /\
   startsWith (trim (toLowerCase (or_empty (Case.case_name liEstate))))
              "unknown case" = false /\
   trim (toLowerCase (or_empty (Case.client_name liEstate)))
     = trim (toLowerCase (or_empty (Payload.client_name liTenancy))) /\
   exists r w,
     handleNewCase demoEnv senior liTenancy (World.initial [liEstate]) = (Returns r, w) /\
     Result.status r = Result.CREATED /\
     length (World.pages w) = 2)
  /\
  (In raoEstate (search [raoEstate] "   ") /\
   startsWith (trim (toLowerCase (or_empty (Case.case_name raoEstate))))
              "unknown case" = false /\
   trim (toLowerCase (or_empty (Case.client_name raoEstate)))
     = trim (toLowerCase (or_empty (Payload.client_name blankClient))) /\
   exists r w,
     handleNewCase demoEnv senior blankClient (World.initial [raoEstate]) = (Returns r, w) /\
     Result.status r = Result.CREATED /\
     length (World.pages w) = 2).
Proof.
  split; [|split].
  - split; [vm_compute; auto|]. split; [reflexivity|]. split; [reflexivity|].
    eexists; eexists. split; [vm_compute; reflexivity|].
    split; [reflexivity|]. split; [reflexivity|]. simpl. discriminate.
  - split; [vm_compute; auto|]. split; [reflexivity|]. split; [reflexivity|].
    eexists; eexists. split; [vm_compute; reflexivity|]. split; reflexivity.
  - split; [vm_compute; auto|]. split; [reflexivity|]. split; [reflexivity|].
    eexists; eexists. split; [vm_compute; reflexivity|]. split; reflexivity.
Qed.

(** C5, amended: when the client name of a Create payload has at least three
    characters, is not blank, and equals (trimmed and case-folded) the client
    name of a non-placeholder case among the results of the search for it,
    the workflow returns a DUPLICATE_CASE result that carries the identifier,
    case name and case number of the first search result that qualifies as a
    duplicate (that case or one listed before it), and the store and the
    sinks are left untouched: no case is stored. *)
Theorem known_client_is_reported_duplicate
    (env : Env.t) (user : User.t) (d : Payload.t) (w : World.t)
    (name : string) (c : Case.t) :
  Payload.client_name d = Some name ->
  3 <= String.length name ->
  trim (toLowerCase name) <> ""%string ->
  In c (search (World.pages w) name) ->
  startsWith (trim (toLowerCase (or_empty (Case.case_name c)))) "unknown case" = false ->
  trim (toLowerCase (or_empty (Case.client_name c))) = trim (toLowerCase name) ->
  exists before e after r,
    search (World.pages w) name = before ++ e :: after /\
    forallb (fun x => negb (isDuplicateOf d x)) before = true /\
    isDuplicateOf d e = true /\
    In c (e :: after) /\
    fst (handleNewCase env user d w) = Returns r /\
    Result.status r = Result.DUPLICATE_CASE /\
    Result.existing_case r =
      Some (mkMatch (Case.id e) (Case.case_name e) (Case.case_number e)) /\
    World.pages (snd (handleNewCase env user d w)) = World.pages w /\
    World.calls (snd (handleNewCase env user d w)) = World.calls w.
Proof.
  intros Hn Hl Hne Hin Hp Heq.
  destruct (find_first (isDuplicateOf d) _ c Hin
              (isDuplicateOf_same_client d c name Hn Hne Hp Heq))
    as (before & e & after & Hs & Hb & He & Hc & Hf).
  exists before, e, after, (duplicateResult d e).
  rewrite (handleNewCase_duplicate env user d w e)
    by (rewrite (checkDuplicateIn_client d _ name Hn Hl); exact Hf).
  repeat split; auto.
Qed.

(** Scenario D: the client of the only stored case. *)
Lemma known_client_is_reported_duplicate_witness :
  exists before e after r,
    search (World.pages (World.initial [sharmaProperty])) "Priya Sharma"
      = before ++ e :: after /\
    forallb (fun x => negb (isDuplicateOf sharmaTenancy x)) before = true /\
    isDuplicateOf sharmaTenancy e = true /\
    In sharmaProperty (e :: after) /\
    fst (handleNewCase demoEnv senior sharmaTenancy (World.initial [sharmaProperty]))
      = Returns r /\
    Result.status r = Result.DUPLICATE_CASE /\
    Result.existing_case r =
      Some (mkMatch (Case.id e) (Case.case_name e) (Case.case_number e)) /\
    World.pages (snd (handleNewCase demoEnv senior sharmaTenancy
                                    (World.initial [sharmaProperty])))
      = World.pages (World.initial [sharmaProperty]) /\
    World.calls (snd (handleNewCase demoEnv senior sharmaTenancy
                                    (World.initial [sharmaProperty])))
      = World.calls (World.initial [sharmaProperty]).
Proof.
  apply (known_client_is_reported_duplicate demoEnv senior sharmaTenancy
           (World.initial [sharmaProperty]) "Priya Sharma" sharmaProperty).
  - reflexivity.
  - simpl. lia.
  - vm_compute. discriminate.
  - vm_compute. left. reflexivity.
  - reflexivity.
  - reflexivity.
Defined.

(* --------------------------------------------------------------------- *)
(** *** C6: a Create payload that lacks a required field                  *)
(* --------------------------------------------------------------------- *)




(* --------------------------------------------------------------------- *)
(** *** C7: the case number in the update patch                           *)
(* --------------------------------------------------------------------- *)

Lemma keepsNumbers_ret {A} (a : A) : keepsNumbers (ret a).
Proof. intros w. exists []. simpl. rewrite app_nil_r. reflexivity. Qed.

Lemma keepsNumbers_throw {A} (e : Exn) : keepsNumbers (@throw A e).
Proof. intros w. exists []. simpl. rewrite app_nil_r. reflexivity. Qed.

Lemma keepsNumbers_gets {A} (f : World.t -> A) : keepsNumbers (gets f).
Proof. intros w. exists []. simpl. rewrite app_nil_r. reflexivity. Qed.

Lemma keepsNumbers_bind {A B} (m : M A) (k : A -> M B) :
  keepsNumbers m -> (forall a, keepsNumbers (k a)) -> keepsNumbers (bind m k).
Proof.
  intros Hm Hk w. unfold bind. destruct (Hm w) as (e1 & E1).
  destruct (m w) as [[a|e] w1]; simpl in E1.
  - destruct (Hk a w1) as (e2 & E2). exists (e1 ++ e2).
    rewrite E2, E1, app_assoc. reflexivity.
  - exists e1. exact E1.
Qed.

Lemma keepsNumbers_try_catch {A} (m : M A) (h : Exn -> M A) :
  keepsNumbers m -> (forall e, keepsNumbers (h e)) -> keepsNumbers (try_catch m h).
Proof.
  intros Hm Hh w. unfold try_catch. destruct (Hm w) as (e1 & E1).
  destruct (m w) as [[a|e] w1]; simpl in E1.
  - exists e1. exact E1.
  - destruct (Hh e w1) as (e2 & E2). exists (e1 ++ e2).
    rewrite E2, E1, app_assoc. reflexivity.
Qed.

Lemma keepsNumbers_modify (f : World.t -> World.t) :
  (forall w, exists extra, numbers (f w) = numbers w ++ extra) -> keepsNumbers (modify f).
Proof. intros H w. exact (H w). Qed.

Lemma keepsNumbers_side (f : World.t -> World.t) :
  (forall w, World.pages (f w) = World.pages w) -> keepsNumbers (modify f).
Proof.
  intros H. apply keepsNumbers_modify. intros w. exists [].
  unfold numbers. rewrite H, app_nil_r. reflexivity.
Qed.

Lemma keepsNumbers_when (b : bool) (m : M unit) :
  keepsNumbers m -> keepsNumbers (when b m).
Proof. intros H. destruct b; [exact H | apply keepsNumbers_ret]. Qed.

Lemma keepsNumbers_log t msg : keepsNumbers (log t msg).
Proof. apply keepsNumbers_side. reflexivity. Qed.

Lemma keepsNumbers_addHistoryEntry pageId entry user :
  keepsNumbers (addHistoryEntry pageId entry user).
Proof. apply keepsNumbers_side. reflexivity. Qed.

Lemma keepsNumbers_documentReminder name : keepsNumbers (documentReminder name).
Proof. apply keepsNumbers_side. reflexivity. Qed.

Ltac frame :=
  repeat match goal with
  | |- keepsNumbers (bind _ _) => apply keepsNumbers_bind; [|intros]
  | |- keepsNumbers (ret _) => apply keepsNumbers_ret
  | |- keepsNumbers (throw _) => apply keepsNumbers_throw
  | |- keepsNumbers (gets _) => apply keepsNumbers_gets
  | |- keepsNumbers (try_catch _ _) => apply keepsNumbers_try_catch; [|intros]
  | |- keepsNumbers (when _ _) => apply keepsNumbers_when
  | |- keepsNumbers (log _ _) => apply keepsNumbers_log
  | |- keepsNumbers (addHistoryEntry _ _ _) => apply keepsNumbers_addHistoryEntry
  | |- keepsNumbers (documentReminder _) => apply keepsNumbers_documentReminder
  | |- keepsNumbers (modify (World.add_call _)) => apply keepsNumbers_side; reflexivity
  | |- keepsNumbers (modify (World.add_hearing _)) => apply keepsNumbers_side; reflexivity
  | |- keepsNumbers (if ?b then _ else _) => destruct b
  | |- keepsNumbers (match ?x with _ => _ end) => destruct x
  | H : keepsNumbers ?m |- keepsNumbers ?m => exact H
  end.

Lemma keepsNumbers_mail env call recipient : keepsNumbers (mail env call recipient).
Proof. unfold mail. frame. Qed.

Lemma keepsNumbers_hearingEvent env name date time :
  keepsNumbers (hearingEvent env name date time).
Proof. unfold hearingEvent. frame. Qed.

Lemma keepsNumbers_searchCases query : keepsNumbers (searchCases query).
Proof. unfold searchCases. frame. Qed.

Lemma keepsNumbers_findCase key : keepsNumbers (findCase key).
Proof. unfold findCase. frame. apply keepsNumbers_searchCases. Qed.

Lemma keepsNumbers_getCaseById pageId : keepsNumbers (getCaseById pageId).
Proof. unfold getCaseById. frame. Qed.

Lemma keepsNumbers_formatDate env date : keepsNumbers (formatDateForNotion env date).
Proof. unfold formatDateForNotion. frame. Qed.

Lemma keepsNumbers_createCase env d user : keepsNumbers (createCase env d user).
Proof.
  unfold createCase, checkDuplicateCase. frame; try apply keepsNumbers_formatDate.
  apply keepsNumbers_modify. intros w. eexists.
  unfold numbers. cbn [World.pages World.set_pages]. rewrite map_app. reflexivity.
Qed.

(** [updateCase] writes no case number: the page keeps the one it had. *)
Lemma writeProperties_number env updates nextHearing hearingCount page :
  Case.id (writeProperties env updates nextHearing hearingCount page) = Case.id page /\
  Case.case_number (writeProperties env updates nextHearing hearingCount page)
    = Case.case_number page.
Proof. split; reflexivity. Qed.

Lemma keepsNumbers_updateCase env pageId updates user :
  keepsNumbers (updateCase env pageId updates user).
Proof.
  unfold updateCase. frame;
    try apply keepsNumbers_formatDate; try apply keepsNumbers_getCaseById.
  apply keepsNumbers_modify. intros w. exists [].
  unfold numbers. cbn [World.pages World.set_pages]. rewrite map_map, app_nil_r.
  apply map_ext. intros p. destruct (Case.id p =? pageId); reflexivity.
Qed.

Lemma keepsNumbers_addHearing env pageId hd user :
  keepsNumbers (addHearing env pageId hd user).
Proof.
  unfold addHearing. frame;
    try apply keepsNumbers_getCaseById; try apply keepsNumbers_updateCase.
Qed.

Lemma keepsNumbers_closeCase env pageId user : keepsNumbers (closeCase env pageId user).
Proof. unfold closeCase. frame. apply keepsNumbers_updateCase. Qed.

Lemma keepsNumbers_createDraft env user d key :
  keepsNumbers (createDraftFromUnknown env user d key).
Proof. unfold createDraftFromUnknown. frame. apply keepsNumbers_createCase. Qed.

Lemma keepsNumbers_handleDocumentRequest env user a b c d u :
  keepsNumbers (handleDocumentRequest env user a b c d u).
Proof. unfold handleDocumentRequest. frame; apply keepsNumbers_mail. Qed.

Lemma keepsNumbers_locate env user d key : keepsNumbers (locate env user d key).
Proof.
  unfold locate. frame;
    try apply keepsNumbers_findCase; try apply keepsNumbers_createDraft;
    try apply keepsNumbers_getCaseById.
Qed.

Lemma keepsNumbers_updateLocated env user d c : keepsNumbers (updateLocated env user d c).
Proof.
  unfold updateLocated. frame;
    try apply keepsNumbers_addHearing; try apply keepsNumbers_mail;
    try apply keepsNumbers_updateCase; try apply keepsNumbers_closeCase;
    try apply keepsNumbers_hearingEvent; try apply keepsNumbers_handleDocumentRequest.
Qed.

(** The Update Branch never changes a case number: every page of the store
    keeps its identifier and its case number, set or not, and the branch at
    most appends a page (the placeholder draft). *)
Lemma update_branch_keeps_case_numbers
    (env : Env.t) (user : User.t) (d : Payload.t) (w : World.t) :
  exists extra, numbers (snd (handleExistingCase env user d w)) = numbers w ++ extra.
Proof.
  revert w. change (keepsNumbers (handleExistingCase env user d)).
  unfold handleExistingCase. frame.
  - apply keepsNumbers_locate.
  - apply keepsNumbers_updateLocated.
Qed.

(** The patch carries the payload's case number exactly when the payload has
    one and the located case lacks one. *)
Lemma patch_case_number (user : User.t) (d : Payload.t) (c : Case.t) :
  (exists n, Updates.case_number (buildUpdates user d c) = Some n) <->
  truthy (Payload.case_number d) = true /\ truthy (Case.case_number c) = false.
Proof.
  unfold buildUpdates. cbn [Updates.case_number].
  destruct (truthy (Payload.case_number d)) eqn:Hd, (truthy (Case.case_number c)) eqn:Hc;
    cbn [andb negb]; split; try (intros (n & H); discriminate);
    try (intros (H1 & H2); discriminate); auto.
  intros _. destruct (Payload.case_number d) as [n|]; [exists n; reflexivity | discriminate].
Qed.

(** C7 fails on the code: the located case lacks a case number, the patch
    carries the payload's, the branch reports UPDATED and logs case_number as
    an updated field, and yet the stored case still has no case number:
    updateCase has no clause that writes it. *)
Theorem patched_case_number_not_persisted (env : Env.t) (user : User.t) :
  findCaseIn "Sharma" (search [sharmaUnnumbered] "Sharma") = Returns sharmaUnnumbered /\
  Case.case_number sharmaUnnumbered = None /\
  Updates.case_number (buildUpdates user sharmaNumberUpdate sharmaUnnumbered)
    = Some "CR-2025-0042"%string /\
  exists r w,
    handleExistingCase env user sharmaNumberUpdate (World.initial [sharmaUnnumbered])
      = (Returns r, w) /\
    Result.status r = Result.UPDATED /\
    In ("NOTION_UPDATE"%string,
        "Updated case: State vs Sharma (fields: case_number)"%string)
       (World.operationLog w) /\
    map Case.case_number (World.pages w) = [None].
Proof.
  split; [vm_compute; reflexivity|]. split; [reflexivity|]. split; [reflexivity|].
  eexists; eexists. split; [vm_compute; reflexivity|].
  split; [reflexivity|]. split; [|reflexivity].
  right. left. reflexivity.
Qed.

(* --------------------------------------------------------------------- *)
(** *** C8: the client email resolution policy                            *)
(* --------------------------------------------------------------------- *)

Lemma isRealEmail_truthy (candidate : option string) :
  isRealEmail candidate = true -> truthy candidate = true.
Proof.
  destruct candidate as [[|c s]|]; simpl; intros H; try discriminate. reflexivity.
Qed.

(** C8: for an actor whose own email is present, resolveClientEmail returns
    that email for an absent candidate and for every candidate classified as
    not real, and returns a candidate classified as real unchanged. *)
Theorem resolveClientEmail_policy
    (env : Env.t) (user : User.t) (context : string) :
  truthy (User.email user) = true ->
  resolveClientEmail env user None context = User.email user /\
  (forall candidate, isRealEmail candidate = false ->
     resolveClientEmail env user candidate context = User.email user) /\
  (forall candidate, isRealEmail candidate = true ->
     resolveClientEmail env user candidate context = candidate).
Proof.
  intros Hown.
  assert (D : defaultEmail env user = User.email user).
  { unfold defaultEmail, or_else. rewrite Hown. reflexivity. }
  unfold resolveClientEmail, resolveClientEmail_logged. rewrite D, Hown.
  split; [reflexivity|]. split.
  - intros candidate Hfake. rewrite Hfake.
    destruct (truthy candidate); reflexivity.
  - intros candidate Hreal. rewrite Hreal, (isRealEmail_truthy candidate Hreal).
    reflexivity.
Qed.

(** What the classification says of the kinds of address the policy names:
    a deny-listed domain, a placeholder local part, a local part of one to
    three letters; and a genuine address. *)
Example isRealEmail_classes :
  isRealEmail (Some "client@example.com"%string) = false /\
  isRealEmail (Some "client@mailinator.com"%string) = false /\
  isRealEmail (Some "test@lawfirm.in"%string) = false /\
  isRealEmail (Some "noreply@lawfirm.in"%string) = false /\
  isRealEmail (Some "a@b.com"%string) = false /\
  isRealEmail (Some "abc@lawfirm.in"%string) = false /\
  isRealEmail (Some "john.smith@lawfirm.in"%string) = true.
Proof. vm_compute. repeat split. Qed.

(** Scenario E: the actor's email is lawyer@firm.com. *)
Lemma resolveClientEmail_policy_witness :
  resolveClientEmail demoEnv soloSenior None "email" = Some "lawyer@firm.com"%string /\
  resolveClientEmail demoEnv soloSenior (Some "test@example.com"%string) "email"
    = Some "lawyer@firm.com"%string /\
  resolveClientEmail demoEnv soloSenior (Some "john.smith@lawfirm.in"%string) "email"
    = Some "john.smith@lawfirm.in"%string.
Proof.
  destruct (resolveClientEmail_policy demoEnv soloSenior "email") as (H1 & H2 & H3).
  - reflexivity.
  - split; [exact H1|]. split.
    + apply H2. reflexivity.
    + apply H3. reflexivity.
Defined.

(* --------------------------------------------------------------------- *)
(** *** C9: the generated case number                                     *)
(* --------------------------------------------------------------------- *)

(** C9 fails on the code: when the generator returns 0.5 the random part of
    the case number is the single character I, and when it returns 0 it is
    empty; Scenario A is then created with a case number that does not match
    the pattern. *)
Theorem short_random_part_breaks_pattern :
  toString36 (2 ^ 52) = "0.i"%string /\
  generateCaseNumber 2025 (2 ^ 52) = "CASE-2025-I"%string /\
  matches_case_pattern (generateCaseNumber 2025 (2 ^ 52)) = false /\
  generateCaseNumber 2025 0 = "CASE-2025-"%string /\
  matches_case_pattern (generateCaseNumber 2025 0) = false /\
  exists r w,
    handleNewCase halfEnv senior johnSmith (World.initial []) = (Returns r, w) /\
    Result.status r = Result.CREATED /\
    Result.case_number r = Some "CASE-2025-I"%string /\
    map Case.case_number (World.pages w) = [Some "CASE-2025-I"%string].
Proof.
  repeat (split; [vm_compute; reflexivity|]).
  eexists; eexists. split; [vm_compute; reflexivity|]. repeat split.
Qed.

(** With a random part of five digits the pattern is met, as in Scenario A
    under the demonstration environment. *)
Example scenario_A_case_number :
  exists r w,
    handleNewCase demoEnv senior johnSmith (World.initial []) = (Returns r, w) /\
    Result.status r = Result.CREATED /\
    option_map matches_case_pattern (Result.case_number r) = Some true /\
    World.calls w = [].
Proof. eexists; eexists. split; [vm_compute; reflexivity|]. repeat split. Qed.

(** The printing stops at the shortest digits that identify the double:
    an outcome next to 25/36 prints as a single digit as well. *)
Example shortest_digits_are_printed :
  toString36 6254999482459022 = "0.p"%string /\
  generateCaseNumber 2025 6254999482459022 = "CASE-2025-P"%string /\
  toString36 (Env.random demoEnv) = "0.4xmvue8buux"%string.
Proof. vm_compute. repeat split. Qed.

(* --------------------------------------------------------------------- *)
(** *** C10: the two definitions of resolveClientEmail                    *)
(* --------------------------------------------------------------------- *)

(** C10: the two definitions of resolveClientEmail in the class return the
    same address for every candidate email and every actor; they differ only
    in what they write to the logger. *)
Theorem resolveClientEmail_definitions_agree
    (env : Env.t) (user : User.t) (email : option string) (context : string) :
  fst (resolveClientEmail_first env user email context)
  = fst (resolveClientEmail_logged env user email context).
Proof.
  unfold resolveClientEmail_first, resolveClientEmail_logged.
  destruct (truthy email), (truthy (defaultEmail env user)), (isRealEmail email);
    reflexivity.
Qed.

(** The logger lines of the two definitions do differ. *)
Example resolveClientEmail_logs_differ :
  snd (resolveClientEmail_first demoEnv soloSenior None "email")
  <> snd (resolveClientEmail_logged demoEnv soloSenior None "email").
Proof. vm_compute. discriminate. Qed.

(* ===================================================================== *)
(** ** Further properties of the code                                    *)
(* ===================================================================== *)

(* --------------------------------------------------------------------- *)
(** *** searchCases: what the four queries return                         *)
(* --------------------------------------------------------------------- *)

Lemma uniqueResults_sound (seen : list PageId) (l : list Case.t) (x : Case.t) :
  In x (uniqueResults seen l) -> In x l /\ ~ In (Case.id x) seen.
Proof.
  revert seen. induction l as [|y r IH]; intros seen H; simpl in *; [contradiction|].
  destruct (existsb (Nat.eqb (Case.id y)) seen) eqn:E.
  - destruct (IH _ H) as [Hin Hs]. auto.
  - destruct H as [->|H].
    + split; [left; reflexivity|]. intros Hin.
      assert (existsb (Nat.eqb (Case.id x)) seen = true); [|congruence].
      apply existsb_exists. exists (Case.id x). split; [exact Hin | apply Nat.eqb_refl].
    + destruct (IH _ H) as [Hin Hs]. split; [right; exact Hin|].
      intros Hx. apply Hs. right. exact Hx.
Qed.

Lemma uniqueResults_NoDup (seen : list PageId) (l : list Case.t) :
  NoDup (map Case.id (uniqueResults seen l)).
Proof.
  revert seen. induction l as [|y r IH]; intros seen; simpl; [constructor|].
  destruct (existsb (Nat.eqb (Case.id y)) seen); [apply IH|].
  simpl. constructor; [|apply IH].
  intros Hin. apply in_map_iff in Hin. destruct Hin as (x & Ex & Hx).
  apply uniqueResults_sound in Hx. destruct Hx as [_ Hx]. apply Hx. left. auto.
Qed.

Lemma uniqueResults_complete (seen : list PageId) (l : list Case.t) (x : Case.t) :
  In x l -> ~ In (Case.id x) seen ->
  exists y, In y (uniqueResults seen l) /\ Case.id y = Case.id x.
Proof.
  revert seen. induction l as [|y r IH]; intros seen H N; simpl in *; [contradiction|].
  destruct (existsb (Nat.eqb (Case.id y)) seen) eqn:E.
  - destruct H as [->|H].
    + exfalso. apply existsb_exists in E. destruct E as (i & Hi & Ei).
      apply Nat.eqb_eq in Ei. subst i. contradiction.
    + apply IH; assumption.
  - destruct H as [->|H]; [exists x; split; [left|]; reflexivity|].
    destruct (Nat.eq_dec (Case.id y) (Case.id x)) as [Eq|Ne].
    + exists y. split; [left; reflexivity | exact Eq].
    + destruct (IH (Case.id y :: seen) H) as (z & Hz & Ez).
      * intros [?|?]; [congruence | contradiction].
      * exists z. split; [right; exact Hz | exact Ez].
Qed.

Lemma parseNotionPage_id (p : Case.t) : Case.id (parseNotionPage p) = Case.id p.
Proof. reflexivity. Qed.

(** X1. The results of a search carry pairwise distinct page identifiers,
    whatever the store holds: a page found by several of the four queries,
    or stored twice under one identifier, is listed once. *)
Theorem search_ids_distinct (pages : list Case.t) (query : string) :
  NoDup (map Case.id (search pages query)).
Proof.
  unfold search. rewrite map_map.
  rewrite (map_ext _ Case.id) by (intros; apply parseNotionPage_id).
  apply uniqueResults_NoDup.
Qed.

Lemma search_sound (pages : list Case.t) (query : string) (r : Case.t) :
  In r (search pages query) ->
  exists p, In p pages /\ r = parseNotionPage p /\ hit query p = true.
Proof.
  unfold search, hit, keywordsOf.
  intros Hr. apply in_map_iff in Hr. destruct Hr as (p & <- & Hp).
  apply uniqueResults_sound in Hp. destruct Hp as [Hp _].
  exists p. split; [|split; [reflexivity|]].
  - repeat (apply in_app_or in Hp; destruct Hp as [Hp|Hp]);
      try (apply filter_In in Hp; tauto).
    destruct (filter _ (split_ws (toLowerCase query))) as [|k ks]; [contradiction|].
    destruct (3 <? String.length k); [|contradiction].
    apply filter_In in Hp. tauto.
  - repeat (apply in_app_or in Hp; destruct Hp as [Hp|Hp]);
      try (apply filter_In in Hp; destruct Hp as [_ ->];
           rewrite ?orb_true_r; reflexivity).
    destruct (filter _ (split_ws (toLowerCase query))) as [|k ks]; [contradiction|].
    destruct (3 <? String.length k); [|contradiction].
    apply filter_In in Hp. destruct Hp as [_ ->]. cbn [andb]. rewrite ?orb_true_r. reflexivity.
Qed.

Lemma search_complete (pages : list Case.t) (query : string) (p : Case.t) :
  In p pages -> hit query p = true ->
  exists r, In r (search pages query) /\ Case.id r = Case.id p.
Proof.
  unfold search, hit, keywordsOf.
  intros Hp Hh.
  match goal with
  | |- exists r, In r (map _ (uniqueResults [] ?l)) /\ _ =>
      assert (Hin : In p l)
  end.
  { apply orb_true_iff in Hh. destruct Hh as [Hh|Hh].
    - apply orb_true_iff in Hh. destruct Hh as [Hh|Hh].
      + apply orb_true_iff in Hh. destruct Hh as [Hh|Hh].
        * apply in_or_app. left. apply filter_In. auto.
        * apply in_or_app. right. apply in_or_app. left. apply filter_In. auto.
      + apply in_or_app. right. apply in_or_app. right. apply in_or_app. left.
        apply filter_In. auto.
    - apply in_or_app. right. apply in_or_app. right. apply in_or_app. right.
      destruct (filter _ (split_ws (toLowerCase query))) as [|k ks]; [discriminate|].
      destruct (3 <? String.length k); [|discriminate].
      cbn [andb] in Hh. apply filter_In. auto. }
  destruct (uniqueResults_complete [] _ p Hin) as (y & Hy & Ey); [intros []|].
  exists (parseNotionPage y). split; [apply in_map; exact Hy | exact Ey].
Qed.

(** X2. A search returns stored pages only, each in its parsed form and each
    hit by one of the four queries; and every stored page that one of the
    queries hits is represented in the results by a page of its
    identifier. *)
Theorem search_sound_and_complete (pages : list Case.t) (query : string) :
  (forall r, In r (search pages query) ->
     exists p, In p pages /\ r = parseNotionPage p /\ hit query p = true) /\
  (forall p, In p pages -> hit query p = true ->
     exists r, In r (search pages query) /\ Case.id r = Case.id p).
Proof. split; [apply search_sound | apply search_complete]. Qed.

(* --------------------------------------------------------------------- *)
(** *** findCase: what the matcher returns and raises                     *)
(* --------------------------------------------------------------------- *)

Lemma findCaseIn_single (lookupKey : string) (r : Case.t) :
  findCaseIn lookupKey [r] =
    if exactCaseNumber lookupKey r
       || (length (searchWords lookupKey) <? 2)
       || forallb (wordMatches r) (searchWords lookupKey)
    then Returns r
    else Throws (CaseNotFoundError lookupKey).
Proof.
  unfold findCaseIn, matchingWords.
  destruct (exactCaseNumber lookupKey r); [reflexivity|]. cbn [orb].
  pose proof (filter_length_le (wordMatches r) (searchWords lookupKey)) as Hle.
  pose proof (filter_length_all (wordMatches r) (searchWords lookupKey)) as Hall.
  destruct (2 <=? length (searchWords lookupKey)) eqn:E2.
  - apply Nat.leb_le in E2.
    replace (length (searchWords lookupKey) <? 2) with false
      by (symmetry; apply Nat.ltb_ge; lia).
    cbn [andb orb].
    destruct (forallb (wordMatches r) (searchWords lookupKey)) eqn:F.
    + replace (length (filter (wordMatches r) (searchWords lookupKey))
               =? length (searchWords lookupKey)) with true
        by (symmetry; apply Nat.eqb_eq; apply Hall; reflexivity).
      reflexivity.
    + assert (N : length (filter (wordMatches r) (searchWords lookupKey))
                  <> length (searchWords lookupKey)).
      { intros E. apply Hall in E. discriminate. }
      replace (length (filter (wordMatches r) (searchWords lookupKey))
               =? length (searchWords lookupKey)) with false
        by (symmetry; apply Nat.eqb_neq; exact N).
      replace (length (filter (wordMatches r) (searchWords lookupKey))
               <? length (searchWords lookupKey)) with true
        by (symmetry; apply Nat.ltb_lt; lia).
      reflexivity.
  - apply Nat.leb_gt in E2.
    replace (length (searchWords lookupKey) <? 2) with true
      by (symmetry; apply Nat.ltb_lt; lia).
    reflexivity.
Qed.

(** X3. The validation of a single candidate, for a candidate whose case
    name and client name are both present, without white space at either
    end, a key of two or more significant words and no case-number match:
    the candidate is returned exactly when every significant word is
    contained in or contains a word of its names, and the matcher answers
    NotFound for the key exactly when some significant word is not. *)
Theorem single_candidate_validation (lookupKey : string) (r : Case.t) :
  properlyNamed r = true ->
  exactCaseNumber lookupKey r = false ->
  2 <= length (searchWords lookupKey) ->
  (findCaseIn lookupKey [r] = Returns r <->
   forallb (textuallyMatches r) (searchWords lookupKey) = true) /\
  (findCaseIn lookupKey [r] = Throws (CaseNotFoundError lookupKey) <->
   forallb (textuallyMatches r) (searchWords lookupKey) = false).
Proof.
  intros N En H2.
  rewrite findCaseIn_single, En.
  replace (length (searchWords lookupKey) <? 2) with false
    by (symmetry; apply Nat.ltb_ge; exact H2).
  cbn [orb].
  rewrite (forallb_pointwise _ _ (searchWords lookupKey) (wordMatches_textual r N)).
  destruct (forallb (textuallyMatches r) (searchWords lookupKey));
    split; split; intros H; first [reflexivity | discriminate H].
Qed.

(** The pair the comment in the source names, the stored case with its
    client: sharma matches no word of the names, and the key is not found. *)
Lemma single_candidate_validation_witness :
  properlyNamed priyaPatelDivorce = true /\
  exactCaseNumber "Priya Sharma" priyaPatelDivorce = false /\
  2 <= length (searchWords "Priya Sharma") /\
  forallb (textuallyMatches priyaPatelDivorce) (searchWords "Priya Sharma") = false /\
  findCaseIn "Priya Sharma" [priyaPatelDivorce] = Throws (CaseNotFoundError "Priya Sharma").
Proof.
  assert (L : 2 <= length (searchWords "Priya Sharma")) by (vm_compute; lia).
  split; [reflexivity|]. split; [reflexivity|]. split; [exact L|].
  split; [reflexivity|].
  apply (proj2 (single_candidate_validation "Priya Sharma" priyaPatelDivorce
                  eq_refl eq_refl L)).
  reflexivity.
Defined.

Lemma ratio_le_1 (a b : nat) : a <= b -> 0 < b -> (ratio a b <= 1)%Q.
Proof.
  intros Hab Hb. unfold ratio.
  apply Qle_shift_div_r.
  - unfold inject_Z, Qlt. cbn [Qnum Qden]. lia.
  - unfold inject_Z, Qle, Qmult. cbn [Qnum Qden]. lia.
Qed.

(** A candidate that is no case-number match scores at most 0.95. *)
Lemma scoreResult_below_exact (lookupKey : string) (r : Case.t) :
  exactCaseNumber lookupKey r = false ->
  (similarity (scoreResult lookupKey r) <= 95 # 100)%Q.
Proof.
  intros En. unfold scoreResult. rewrite En.
  destruct ((length (matchingWords lookupKey r) =? length (searchWords lookupKey))
            && (2 <=? length (searchWords lookupKey))).
  - cbn [similarity]. apply Qle_refl.
  - cbn [similarity].
    destruct (0 <? length (searchWords lookupKey)) eqn:E0.
    + apply Nat.ltb_lt in E0.
      pose proof (ratio_le_1 (length (matchingWords lookupKey r))
                    (length (searchWords lookupKey))
                    (filter_length_le _ _) E0) as H.
      apply Qle_trans with (1 * (7 # 10))%Q.
      * apply Qmult_le_compat_r; [exact H | discriminate].
      * discriminate.
    + discriminate.
Qed.

Lemma scoreResult_exact (lookupKey : string) (r : Case.t) :
  exactCaseNumber lookupKey r = true -> similarity (scoreResult lookupKey r) = 1%Q.
Proof. intros E. unfold scoreResult. rewrite E. reflexivity. Qed.

Lemma scoreResult_case (lookupKey : string) (r : Case.t) :
  scored_case (scoreResult lookupKey r) = r.
Proof.
  unfold scoreResult. destruct (exactCaseNumber lookupKey r); [reflexivity|].
  destruct (_ && _); reflexivity.
Qed.

Lemma map_split {A B} (f : A -> B) (l : list A) (before : list B) (y : B) (after : list B) :
  map f l = before ++ y :: after ->
  exists b x a, l = b ++ x :: a /\ map f b = before /\ f x = y /\ map f a = after.
Proof.
  revert before. induction l as [|h t IH]; intros before H.
  - destruct before; discriminate.
  - destruct before as [|b0 before]; simpl in H.
    + injection H as Hh Ht. exists [], h, t. auto.
    + injection H as Hh Ht. destruct (IH _ Ht) as (b & x & a & -> & <- & <- & <-).
      exists (h :: b), x, a. subst b0. auto.
Qed.

(** X4. A case-number match wins over every other candidate: when the key
    contains the case number (of more than five characters) of one of the
    candidates, the matcher returns the first such candidate in search
    order, however many candidates there are and whatever their names. *)
Theorem findCaseIn_case_number (lookupKey : string) (results : list Case.t) (c : Case.t) :
  find (exactCaseNumber lookupKey) results = Some c ->
  findCaseIn lookupKey results = Returns c.
Proof.
  intros Hf.
  destruct results as [|r1 [|r2 rs]]; [discriminate | |].
  - rewrite findCaseIn_single. simpl in Hf.
    destruct (exactCaseNumber lookupKey r1); [|discriminate].
    injection Hf as <-. reflexivity.
  - remember (r1 :: r2 :: rs) as results eqn:Hres.
    assert (Hlen : 2 <= length results) by (subst results; simpl; lia).
    destruct (find_some _ _ Hf) as [Hin Hex].
    destruct (findCaseIn_several lookupKey results Hlen)
      as (best & second & before & after & Hsplit & Hb & Ha & _ & _ & Hsel & _).
    destruct (map_split _ _ _ _ _ Hsplit) as (b & x & a & Hl & Hmb & Hx & Hma).
    (* the best score is 1 *)
    assert (H1 : (1 <= similarity best)%Q).
    { assert (Hs : In (scoreResult lookupKey c) (before ++ best :: after)).
      { rewrite <- Hsplit. apply in_map. exact Hin. }
      rewrite <- (scoreResult_exact lookupKey c Hex).
      apply in_app_or in Hs. destruct Hs as [Hs|[<-|Hs]].
      - apply Qlt_le_weak. rewrite Forall_forall in Hb. apply Hb. exact Hs.
      - apply Qle_refl.
      - rewrite Forall_forall in Ha. apply Ha. exact Hs. }
    assert (Hxe : exactCaseNumber lookupKey x = true).
    { destruct (exactCaseNumber lookupKey x) eqn:E; [reflexivity|].
      pose proof (scoreResult_below_exact lookupKey x E) as Hle.
      rewrite Hx in Hle. exfalso.
      apply (Qlt_irrefl 1). eapply Qle_lt_trans; [exact H1|].
      eapply Qle_lt_trans; [exact Hle | reflexivity]. }
    assert (Hbn : forall y, In y b -> exactCaseNumber lookupKey y = false).
    { intros y Hy. destruct (exactCaseNumber lookupKey y) eqn:E; [|reflexivity].
      exfalso. rewrite Forall_forall in Hb.
      assert (Hlt : (similarity (scoreResult lookupKey y) < similarity best)%Q).
      { apply Hb. rewrite <- Hmb. apply in_map. exact Hy. }
      rewrite (scoreResult_exact _ _ E) in Hlt.
      rewrite <- Hx, (scoreResult_exact _ _ Hxe) in Hlt.
      exact (Qlt_irrefl _ Hlt). }
    assert (Hfx : find (exactCaseNumber lookupKey) results = Some x).
    { rewrite Hl. clear - Hbn Hxe. induction b as [|y b IH]; simpl.
      - rewrite Hxe. reflexivity.
      - rewrite (Hbn y (or_introl eq_refl)). apply IH.
        intros z Hz. apply Hbn. right. exact Hz. }
    rewrite Hf in Hfx. injection Hfx as ->.
    rewrite Hsel; [rewrite <- Hx, scoreResult_case; reflexivity|].
    left. eapply Qle_trans; [|exact H1]. discriminate.
Qed.

Lemma findCaseIn_case_number_witness :
  find (exactCaseNumber "Hearing in CASE-2025-BBBBB") [arunContract; arunProperty]
    = Some arunProperty /\
  findCaseIn "Hearing in CASE-2025-BBBBB" [arunContract; arunProperty]
    = Returns arunProperty.
Proof.
  split; [vm_compute; reflexivity|].
  apply findCaseIn_case_number. vm_compute. reflexivity.
Defined.

Lemma findCaseIn_outcomes (lookupKey : string) (results : list Case.t) :
  match findCaseIn lookupKey results with
  | Returns c => In c results
  | Throws e =>
      (e = CaseNotFoundError lookupKey /\ length results <= 1) \/
      (e = DuplicateCaseError (map toMatch results) /\ 2 <= length results)
  end.
Proof.
  destruct results as [|r1 [|r2 rs]].
  - simpl. left. split; [reflexivity | lia].
  - rewrite findCaseIn_single.
    destruct (_ || _); [left; reflexivity | left; split; [reflexivity | simpl; lia]].
  - remember (r1 :: r2 :: rs) as results eqn:Hres.
    assert (Hlen : 2 <= length results) by (subst results; simpl; lia).
    destruct (findCaseIn_several lookupKey results Hlen)
      as (best & second & before & after & Hsplit & _ & _ & _ & _ & Hsel & Hno).
    destruct (map_split _ _ _ _ _ Hsplit) as (b & x & a & Hl & _ & Hx & _).
    pose proof (autoSelects_decides (similarity best) (similarity second)) as Hdec.
    destruct (Qle_bool (9 # 10) (similarity best)
              || (Qle_bool (7 # 10) (similarity best)
                  && Qle_bool (2 # 10) (similarity best - similarity second))) eqn:E.
    + rewrite Hsel by (apply Hdec; reflexivity).
      rewrite <- Hx, scoreResult_case, Hl. apply in_or_app. right. left. reflexivity.
    + rewrite Hno; [right; split; [reflexivity | exact Hlen]|].
      intros H. apply Hdec in H. congruence.
Qed.

(** X5. The matcher returns nothing but one of the candidates, and raises
    nothing but NotFound for the key, with at most one candidate, or the
    clarification that lists every candidate, with two or more. *)
Theorem matcher_outcomes (lookupKey : string) (results : list Case.t) :
  match findCaseIn lookupKey results with
  | Returns c => In c results
  | Throws e =>
      (e = CaseNotFoundError lookupKey /\ length results <= 1) \/
      (e = DuplicateCaseError (map toMatch results) /\ 2 <= length results)
  end.
Proof. apply findCaseIn_outcomes. Qed.

(* --------------------------------------------------------------------- *)
(** *** What every run of the workflow preserves in the store             *)
(* --------------------------------------------------------------------- *)


Section Frame.

(** A relation between worlds that holds across each elementary step of the
    workflow: an entry of the operation log, a history paragraph, a hearing
    row, a call to a sink, the update of the properties of a page and the
    addition of a new page. *)
Variable R : World.t -> World.t -> Prop.
Variable env : Env.t.
Variable user : User.t.
Hypothesis R_refl : forall w, R w w.
Hypothesis R_trans : forall a b c, R a b -> R b c -> R a c.
Hypothesis R_log : forall e w, R w (World.add_log e w).
Hypothesis R_block : forall b w, R w (World.add_block b w).
Hypothesis R_hearing : forall h w, R w (World.add_hearing h w).
Hypothesis R_call : forall c w, R w (World.add_call c w).
Hypothesis R_write :
  forall updates nextHearing hearingCount pageId w,
    R w (World.set_pages
           (map (fun p => if Case.id p =? pageId
                          then writeProperties env updates nextHearing hearingCount p
                          else p) (World.pages w)) w).
Hypothesis R_new :
  forall d nextHearing w,
    R w (World.set_pages
           (World.pages w
            ++ [newPage env d user (newPageId (World.pages w)) nextHearing]) w).

Lemma respects_ret {A} (a : A) : respects R (ret a).
Proof. intros w. apply R_refl. Qed.

Lemma respects_throw {A} (e : Exn) : respects R (@throw A e).
Proof. intros w. apply R_refl. Qed.

Lemma respects_gets {A} (f : World.t -> A) : respects R (gets f).
Proof. intros w. apply R_refl. Qed.

Lemma respects_bind {A B} (m : M A) (k : A -> M B) :
  respects R m -> (forall a, respects R (k a)) -> respects R (bind m k).
Proof.
  intros Hm Hk w. unfold bind. pose proof (Hm w) as H1.
  destruct (m w) as [[a|e] w1]; simpl in H1.
  - eapply R_trans; [exact H1 | apply Hk].
  - exact H1.
Qed.

Lemma respects_try_catch {A} (m : M A) (h : Exn -> M A) :
  respects R m -> (forall e, respects R (h e)) -> respects R (try_catch m h).
Proof.
  intros Hm Hh w. unfold try_catch. pose proof (Hm w) as H1.
  destruct (m w) as [[a|e] w1]; simpl in H1.
  - exact H1.
  - eapply R_trans; [exact H1 | apply Hh].
Qed.

Lemma respects_modify (f : World.t -> World.t) :
  (forall w, R w (f w)) -> respects R (modify f).
Proof. intros H w. apply H. Qed.

Lemma respects_log t msg : respects R (log t msg).
Proof. apply respects_modify. intros w. apply R_log. Qed.

Lemma respects_addHistoryEntry pageId entry u : respects R (addHistoryEntry pageId entry u).
Proof. apply respects_modify. intros w. apply R_block. Qed.

Lemma respects_call c : respects R (modify (World.add_call c)).
Proof. apply respects_modify. intros w. apply R_call. Qed.

Lemma respects_add_hearing h : respects R (modify (World.add_hearing h)).
Proof. apply respects_modify. intros w. apply R_hearing. Qed.

Lemma respects_when (b : bool) (m : M unit) : respects R m -> respects R (when b m).
Proof. intros H. destruct b; [exact H | apply respects_ret]. Qed.

Lemma respects_lift {A} (o : Outcome A) : respects R (lift o).
Proof. destruct o; [apply respects_ret | apply respects_throw]. Qed.

Ltac preserve :=
  repeat match goal with
  | |- respects _ (bind _ _) => apply respects_bind; [|intros]
  | |- respects _ (ret _) => apply respects_ret
  | |- respects _ (throw _) => apply respects_throw
  | |- respects _ (gets _) => apply respects_gets
  | |- respects _ (lift _) => apply respects_lift
  | |- respects _ (try_catch _ _) => apply respects_try_catch; [|intros]
  | |- respects _ (when _ _) => apply respects_when
  | |- respects _ (log _ _) => apply respects_log
  | |- respects _ (addHistoryEntry _ _ _) => apply respects_addHistoryEntry
  | |- respects _ (documentReminder _) => apply respects_call
  | |- respects _ (modify (World.add_call _)) => apply respects_call
  | |- respects _ (modify (World.add_hearing _)) => apply respects_add_hearing
  | |- respects _ (if ?b then _ else _) => destruct b
  | |- respects _ (match ?x with _ => _ end) => destruct x
  | H : respects _ ?m |- respects _ ?m => exact H
  end.

Lemma respects_mail call recipient : respects R (mail env call recipient).
Proof. unfold mail. preserve. Qed.

Lemma respects_hearingEvent name date time :
  respects R (hearingEvent env name date time).
Proof. unfold hearingEvent. preserve. Qed.

Lemma respects_findCase key : respects R (findCase key).
Proof. unfold findCase, searchCases. preserve. Qed.

Lemma respects_getCaseById pageId : respects R (getCaseById pageId).
Proof. unfold getCaseById. preserve. Qed.

Lemma respects_formatDate date : respects R (formatDateForNotion env date).
Proof. unfold formatDateForNotion. preserve. Qed.

Lemma respects_store d nextHearing {A} (k : PageId -> M A) :
  (forall pageId, respects R (k pageId)) ->
  respects R
    (pageId <- gets (fun w => newPageId (World.pages w)) ;;
     modify (fun w =>
       World.set_pages (World.pages w ++ [newPage env d user pageId nextHearing]) w) ;;
     k pageId).
Proof.
  intros Hk w. unfold bind at 1. unfold gets. unfold bind at 1. unfold modify.
  eapply R_trans; [apply (R_new d nextHearing w) |].
  apply (Hk (newPageId (World.pages w))
            (World.set_pages
               (World.pages w
                ++ [newPage env d user (newPageId (World.pages w)) nextHearing]) w)).
Qed.

Lemma respects_createCase d : respects R (createCase env d user).
Proof.
  unfold createCase, checkDuplicateCase.
  apply respects_bind; [apply respects_gets|]. intros [e|]; [apply respects_throw|].
  apply respects_try_catch; [| intros; apply respects_throw].
  apply respects_bind.
  - destruct (truthy (Payload.next_hearing_date d)); preserve. apply respects_formatDate.
  - intros nextHearing. apply respects_store. intros pageId. preserve.
Qed.

Lemma respects_updateCase pageId updates : respects R (updateCase env pageId updates user).
Proof.
  unfold updateCase. preserve;
    try apply respects_formatDate; try apply respects_getCaseById.
  all: apply respects_modify; intros w; apply R_write.
Qed.

Lemma respects_addHearing pageId hd : respects R (addHearing env pageId hd user).
Proof.
  unfold addHearing. preserve;
    try apply respects_getCaseById; try apply respects_updateCase.
Qed.

Lemma respects_closeCase pageId : respects R (closeCase env pageId user).
Proof. unfold closeCase. preserve. apply respects_updateCase. Qed.

Lemma respects_createDraft d key : respects R (createDraftFromUnknown env user d key).
Proof. unfold createDraftFromUnknown. preserve. apply respects_createCase. Qed.

Lemma respects_handleDocumentRequest a b c d u :
  respects R (handleDocumentRequest env user a b c d u).
Proof. unfold handleDocumentRequest. preserve; apply respects_mail. Qed.

Lemma respects_locate d key : respects R (locate env user d key).
Proof.
  unfold locate. preserve;
    try apply respects_findCase; try apply respects_createDraft;
    try apply respects_getCaseById.
Qed.

Lemma respects_updateLocated d c : respects R (updateLocated env user d c).
Proof.
  unfold updateLocated. preserve;
    try apply respects_addHearing; try apply respects_mail;
    try apply respects_updateCase; try apply respects_closeCase;
    try apply respects_hearingEvent; try apply respects_handleDocumentRequest.
Qed.

Lemma respects_handleExistingCase d : respects R (handleExistingCase env user d).
Proof.
  unfold handleExistingCase. preserve.
  - apply respects_locate.
  - apply respects_updateLocated.
Qed.

Lemma respects_handleNewCase d : respects R (handleNewCase env user d).
Proof.
  unfold handleNewCase. preserve;
    try apply respects_createCase; try apply respects_mail;
    try apply respects_hearingEvent; try apply respects_handleDocumentRequest.
Qed.

Lemma respects_processSingleCase d : respects R (processSingleCase env user d).
Proof.
  unfold processSingleCase. preserve.
  - apply respects_handleExistingCase.
  - apply respects_handleNewCase.
Qed.

Lemma respects_processCases l : respects R (processCases env user l).
Proof.
  induction l as [|d l IH]; simpl; preserve. apply respects_processSingleCase.
Qed.

Lemma respects_processVoiceNote transcribe answer input :
  respects R (processVoiceNote env user transcribe answer input).
Proof.
  unfold processVoiceNote. preserve. apply respects_processCases.
Qed.

End Frame.

Lemma appends_refl (P : Case.t -> Prop) (l : list Case.t) : appends P l l.
Proof. exists []. rewrite app_nil_r. split; [reflexivity | constructor]. Qed.

Lemma appends_trans (P : Case.t -> Prop) (a b c : list Case.t) :
  appends P a b -> appends P b c -> appends P a c.
Proof.
  intros (e1 & E1 & F1) (e2 & E2 & F2). exists (e1 ++ e2). split.
  - rewrite E2, map_app, E1, !map_app, app_assoc. reflexivity.
  - apply Forall_app. split; assumption.
Qed.

Lemma appends_write (P : Case.t -> Prop) env updates nextHearing hearingCount pageId l :
  appends P l
    (map (fun p => if Case.id p =? pageId
                   then writeProperties env updates nextHearing hearingCount p
                   else p) l).
Proof.
  exists []. rewrite app_nil_r. split; [|constructor].
  rewrite map_map. apply map_ext. intros p. destruct (Case.id p =? pageId); reflexivity.
Qed.

Lemma appends_new (P : Case.t -> Prop) (l : list Case.t) (p : Case.t) :
  P p -> appends P l (l ++ [p]).
Proof. intros H. exists [p]. split; [reflexivity | constructor; [exact H | constructor]]. Qed.

Lemma onPages_workflow (Q : list Case.t -> list Case.t -> Prop) env user :
  (forall l, Q l l) ->
  (forall a b c, Q a b -> Q b c -> Q a c) ->
  (forall updates nextHearing hearingCount pageId l,
     Q l (map (fun p => if Case.id p =? pageId
                        then writeProperties env updates nextHearing hearingCount p
                        else p) l)) ->
  (forall d nextHearing l, Q l (l ++ [newPage env d user (newPageId l) nextHearing])) ->
  (forall d, respects (onPages Q) (processSingleCase env user d)) /\
  (forall transcribe answer input,
     respects (onPages Q) (processVoiceNote env user transcribe answer input)).
Proof.
  intros Hrefl Htrans Hwrite Hnew.
  split; intros;
    [apply respects_processSingleCase | apply respects_processVoiceNote];
    unfold onPages; intros; cbn [World.pages World.add_log World.add_block
      World.add_hearing World.add_call World.set_pages]; eauto.
Qed.

(** X6. No run of the workflow rewrites what a stored case is known by:
    across the handling of any payload, and across a whole voice note, every
    page keeps its identifier, case name, case number, junior and assignee,
    and pages are only ever appended.  In particular an update that assigns
    a junior, renames a case or supplies a case number stores none of it. *)
Theorem workflow_keeps_identity (env : Env.t) (user : User.t) :
  (forall d w,
     appends (fun _ => True) (World.pages w)
             (World.pages (snd (processSingleCase env user d w)))) /\
  (forall transcribe answer input w,
     appends (fun _ => True) (World.pages w)
             (World.pages (snd (processVoiceNote env user transcribe answer input w)))).
Proof.
  apply (onPages_workflow (appends (fun _ => True)) env user).
  - apply appends_refl.
  - apply appends_trans.
  - intros; apply appends_write.
  - intros; apply appends_new; exact I.
Qed.

Lemma newPageId_fresh (l : list Case.t) : ~ In (newPageId l) (map Case.id l).
Proof.
  unfold newPageId. intros H.
  assert (B : forall x, In x (map Case.id l) -> x <= fold_right Nat.max 0 (map Case.id l)).
  { generalize (map Case.id l). intros ids. induction ids as [|y ids IH]; intros x Hx.
    - contradiction.
    - simpl. destruct Hx as [->|Hx]; [lia|]. specialize (IH x Hx). lia. }
  apply B in H. lia.
Qed.

Lemma newPage_named env d user pageId nextHearing :
  truthy (Case.case_name (newPage env d user pageId nextHearing)) = true /\
  truthy (Case.case_number (newPage env d user pageId nextHearing)) = true.
Proof.
  unfold newPage. cbn [Case.case_name Case.case_number]. split.
  - unfold or_else. destruct (truthy (Payload.case_name d)) eqn:T.
    + destruct (Payload.case_name d); [exact T | discriminate].
    + reflexivity.
  - unfold caseNumberOf. destruct (truthy (Payload.case_number d)) eqn:T.
    + destruct (Payload.case_number d); [exact T | discriminate].
    + reflexivity.
Qed.

Lemma wellFormed_write env updates nextHearing hearingCount pageId l :
  wellFormed l ->
  wellFormed (map (fun p => if Case.id p =? pageId
                            then writeProperties env updates nextHearing hearingCount p
                            else p) l).
Proof.
  intros [Hn Hf]. split.
  - rewrite map_map.
    rewrite (map_ext _ Case.id); [exact Hn|].
    intros p. destruct (Case.id p =? pageId); reflexivity.
  - apply Forall_map. eapply Forall_impl; [|exact Hf].
    intros p Hp. destruct (Case.id p =? pageId); exact Hp.
Qed.

Lemma wellFormed_new env d user nextHearing l :
  wellFormed l -> wellFormed (l ++ [newPage env d user (newPageId l) nextHearing]).
Proof.
  intros [Hn Hf]. split.
  - rewrite map_app. simpl.
    apply NoDup_app; [exact Hn | repeat constructor; intros [] |].
    intros x Hx [<-|[]]. exact (newPageId_fresh l Hx).
  - apply Forall_app. split; [exact Hf|].
    constructor; [apply newPage_named | constructor].
Qed.

(** X7. Every run of the workflow leaves the store well formed when it finds
    it so: the page identifiers stay pairwise distinct (a new page gets an
    identifier no page has) and every page has a non-empty case name and a
    non-empty case number, whatever the payloads lack. *)
Theorem workflow_keeps_store_well_formed
    (env : Env.t) (user : User.t)
    (transcribe : string -> Outcome string)
    (answer : string -> Outcome AiAgent.Extraction)
    (input : Input.t) (w : World.t) :
  wellFormed (World.pages w) ->
  wellFormed (World.pages (snd (processVoiceNote env user transcribe answer input w))).
Proof.
  revert w.
  apply (onPages_workflow (fun l l' => wellFormed l -> wellFormed l') env user).
  - auto.
  - auto.
  - intros; apply wellFormed_write; assumption.
  - intros; apply wellFormed_new; assumption.
Qed.

Lemma wellFormed_arun : wellFormed [arunContract; arunProperty].
Proof.
  split.
  - simpl. repeat constructor; simpl; intuition discriminate.
  - repeat constructor.
Qed.

Lemma workflow_keeps_store_well_formed_witness :
  wellFormed (World.pages (World.initial [arunContract; arunProperty])) /\
  wellFormed
    (World.pages
       (snd (processVoiceNote demoEnv senior noTranscriber (extracted [johnSmith])
               voiceNote (World.initial [arunContract; arunProperty])))).
Proof.
  split; [exact wellFormed_arun|].
  apply workflow_keeps_store_well_formed. exact wellFormed_arun.
Defined.

Lemma newPage_ownedBy env d (u : User.t) pageId nextHearing :
  User.role u = User.JUNIOR ->
  ownedBy (Auth.applyRoleConstraints u)
          (newPage env d (Auth.applyRoleConstraints u) pageId nextHearing).
Proof.
  intros Hr. unfold ownedBy, newPage, Auth.applyRoleConstraints, User.is_senior.
  rewrite Hr. cbn [User.role User.junior_name User.junior_email User.name
                   Case.junior_name Case.junior_email Case.assigned_to andb truthy].
  rewrite andb_false_r. auto.
Qed.

(** X8. A junior creates cases in their own name only: with the role
    constraints of the authentication applied to a JUNIOR actor, every page
    that a run of the workflow adds to the store has no junior and is
    assigned to the actor, whatever the payloads ask for; and the registry
    refuses that actor the action ASSIGN_TO_JUNIOR. *)
Theorem junior_cases_are_their_own
    (env : Env.t) (u : User.t)
    (transcribe : string -> Outcome string)
    (answer : string -> Outcome AiAgent.Extraction)
    (input : Input.t) (w : World.t) :
  User.role u = User.JUNIOR ->
  appends (ownedBy (Auth.applyRoleConstraints u)) (World.pages w)
    (World.pages
       (snd (processVoiceNote env (Auth.applyRoleConstraints u) transcribe answer input w)))
  /\
  Auth.validateUserAction (Some (Auth.applyRoleConstraints u)) "ASSIGN_TO_JUNIOR"
  = Some "User does not have a junior assigned"%string.
Proof.
  intros Hr. split.
  - revert w.
    apply (onPages_workflow (appends (ownedBy (Auth.applyRoleConstraints u)))
             env (Auth.applyRoleConstraints u)).
    + apply appends_refl.
    + apply appends_trans.
    + intros; apply appends_write.
    + intros; apply appends_new. apply newPage_ownedBy. exact Hr.
  - unfold Auth.validateUserAction, Auth.applyRoleConstraints, Auth.hasJunior.
    rewrite Hr. reflexivity.
Qed.

Lemma junior_cases_are_their_own_witness :
  User.role juniorActor = User.JUNIOR /\
  appends (ownedBy (Auth.applyRoleConstraints juniorActor)) []
    (World.pages
       (snd (processVoiceNote demoEnv (Auth.applyRoleConstraints juniorActor)
               noTranscriber (extracted [johnSmithAssigned]) voiceNote
               (World.initial [])))) /\
  Auth.validateUserAction (Some (Auth.applyRoleConstraints juniorActor)) "ASSIGN_TO_JUNIOR"
  = Some "User does not have a junior assigned"%string.
Proof.
  split; [reflexivity|].
  apply (junior_cases_are_their_own demoEnv juniorActor noTranscriber
           (extracted [johnSmithAssigned]) voiceNote (World.initial [])).
  reflexivity.
Defined.

(* --------------------------------------------------------------------- *)
(** *** The calls a branch makes to the mail and calendar sinks           *)
(* --------------------------------------------------------------------- *)

Section Calls.

Variable P : Call -> bool.

Lemma callsOnly_refl w : callsOnly P w w.
Proof. exists []. rewrite app_nil_r. auto. Qed.

Lemma callsOnly_trans a b c : callsOnly P a b -> callsOnly P b c -> callsOnly P a c.
Proof.
  intros (e1 & E1 & F1) (e2 & E2 & F2). exists (e1 ++ e2). split.
  - rewrite E2, E1, app_assoc. reflexivity.
  - rewrite forallb_app, F1, F2. reflexivity.
Qed.

Lemma callsOnly_silent w w' : World.calls w' = World.calls w -> callsOnly P w w'.
Proof. intros H. exists []. rewrite app_nil_r. auto. Qed.

Lemma callsOnly_call c w : P c = true -> callsOnly P w (World.add_call c w).
Proof. intros H. exists [c]. simpl. rewrite H. auto. Qed.

Lemma calls_ret {A} (a : A) : respects (callsOnly P) (ret a).
Proof. intros w. apply callsOnly_refl. Qed.

Lemma calls_throw {A} (e : Exn) : respects (callsOnly P) (@throw A e).
Proof. intros w. apply callsOnly_refl. Qed.

Lemma calls_lift {A} (o : Outcome A) : respects (callsOnly P) (lift o).
Proof. destruct o; [apply calls_ret | apply calls_throw]. Qed.

Lemma calls_bind {A B} (m : M A) (k : A -> M B) :
  respects (callsOnly P) m -> (forall a, respects (callsOnly P) (k a)) ->
  respects (callsOnly P) (bind m k).
Proof. apply respects_bind. exact callsOnly_trans. Qed.

Lemma calls_try_catch {A} (m : M A) (h : Exn -> M A) :
  respects (callsOnly P) m -> (forall e, respects (callsOnly P) (h e)) ->
  respects (callsOnly P) (try_catch m h).
Proof. apply respects_try_catch. exact callsOnly_trans. Qed.

Lemma calls_when (b : bool) (m : M unit) :
  (b = true -> respects (callsOnly P) m) -> respects (callsOnly P) (when b m).
Proof. intros H. destruct b; [apply H; reflexivity | apply calls_ret]. Qed.

Lemma calls_log t msg : respects (callsOnly P) (log t msg).
Proof. intros w. apply callsOnly_silent. reflexivity. Qed.

Lemma calls_addHistoryEntry pageId entry u :
  respects (callsOnly P) (addHistoryEntry pageId entry u).
Proof. intros w. apply callsOnly_silent. reflexivity. Qed.

Lemma calls_mail env c recipient : P c = true -> respects (callsOnly P) (mail env c recipient).
Proof. intros H w. unfold mail, bind, modify, ret. apply callsOnly_call. exact H. Qed.

Lemma calls_hearingEvent env name date time :
  P (createHearingEvent name date time) = true ->
  respects (callsOnly P) (hearingEvent env name date time).
Proof.
  intros H w. unfold hearingEvent, bind, modify.
  destruct (negb (Env.calendarConfigured env));
    [| destruct (Env.calendarInsert env date)]; apply callsOnly_call; exact H.
Qed.

Lemma calls_documentReminder name :
  P (createDocumentReminder name) = true ->
  respects (callsOnly P) (documentReminder name).
Proof. intros H w. apply callsOnly_call. exact H. Qed.

(** The operations of the record store make no call. *)
Lemma calls_createCase env d user : respects (callsOnly P) (createCase env d user).
Proof.
  apply respects_createCase;
    first [exact callsOnly_refl | exact callsOnly_trans
          | intros; apply callsOnly_silent; reflexivity].
Qed.

Lemma calls_updateCase env pageId updates user :
  respects (callsOnly P) (updateCase env pageId updates user).
Proof.
  apply respects_updateCase;
    first [exact callsOnly_refl | exact callsOnly_trans
          | intros; apply callsOnly_silent; reflexivity].
Qed.

Lemma calls_addHearing env pageId hd user :
  respects (callsOnly P) (addHearing env pageId hd user).
Proof.
  apply respects_addHearing;
    first [exact callsOnly_refl | exact callsOnly_trans
          | intros; apply callsOnly_silent; reflexivity].
Qed.

Lemma calls_closeCase env pageId user : respects (callsOnly P) (closeCase env pageId user).
Proof.
  apply respects_closeCase;
    first [exact callsOnly_refl | exact callsOnly_trans
          | intros; apply callsOnly_silent; reflexivity].
Qed.

Lemma calls_locate env user d key : respects (callsOnly P) (locate env user d key).
Proof.
  apply respects_locate;
    first [exact callsOnly_refl | exact callsOnly_trans
          | intros; apply callsOnly_silent; reflexivity].
Qed.

Lemma calls_handleDocumentRequest env user a b c d u :
  (forall name, P (createDocumentReminder name) = true) ->
  (forall e, truthy e = true -> P (sendDocumentRequestToClient e) = true) ->
  (User.is_senior user && truthy (User.junior_email user) = true ->
   P (sendDocumentRequestToJunior (User.junior_email user)) = true) ->
  respects (callsOnly P) (handleDocumentRequest env user a b c d u).
Proof.
  intros H1 H2 H3. unfold handleDocumentRequest.
  destruct (length (Payload.documents_needed u) =? 0); [apply calls_ret|].
  apply calls_bind; [apply calls_documentReminder, H1 | intros _].
  apply calls_bind; [apply calls_log | intros _].
  apply calls_bind; [| intros _].
  - apply calls_when. intros T.
    apply calls_bind; [apply calls_mail, H2, T | intros _; apply calls_log].
  - apply calls_when. intros T.
    apply calls_bind; [apply calls_mail, H3, T | intros _; apply calls_log].
Qed.

End Calls.

Lemma callsOnly_weaken (P Q : Call -> bool) :
  (forall c, P c = true -> Q c = true) ->
  forall w w', callsOnly P w w' -> callsOnly Q w w'.
Proof.
  intros H w w' (extra & E & F). exists extra. split; [exact E|].
  rewrite forallb_forall in *. auto.
Qed.

Lemma prepared_more env user d :
  Payload.assign_to_junior (prepared env user d) = Payload.assign_to_junior d /\
  Payload.documents_needed (prepared env user d) = Payload.documents_needed d /\
  Payload.junior_email (prepared env user d) = Payload.junior_email d /\
  Payload.next_hearing_time (prepared env user d) = Payload.next_hearing_time d.
Proof. unfold prepared. destruct (_ && _); repeat split; reflexivity. Qed.

Lemma calls_handleNewCase env user d :
  respects (callsOnly (createCalls user d)) (handleNewCase env user d).
Proof.
  intros w. destruct (allMissingFields user d) as [|f fs] eqn:Em.
  2:{ apply callsOnly_silent. apply handleNewCase_draft_calls. congruence. }
  revert w. unfold handleNewCase.
  destruct (prepared_more env user d) as (Ea & Ed & Ej & Et).
  destruct (prepared_fields env user d) as (_ & _ & _ & _ & Eh & _).
  rewrite Ea, Ed, Eh.
  apply calls_try_catch.
  2:{ intros e. destruct e;
        (apply calls_bind; [apply calls_log | intros _; apply calls_ret]). }
  apply calls_bind; [apply calls_createCase | intros created].
  apply calls_bind; [apply calls_log | intros _].
  destruct (created_is_draft created); [apply calls_ret|].
  apply calls_bind; [| intros actions1].
  { destruct (User.is_senior user && Payload.assign_to_junior d) eqn:C1.
    - apply calls_bind; [| intros _; apply calls_bind; [apply calls_log | intros _; apply calls_ret]].
      apply calls_mail. unfold createCalls. rewrite Em.
      apply andb_true_iff in C1. destruct C1 as [-> ->]. reflexivity.
    - destruct (User.is_senior user && User.auto_assign_to_junior user) eqn:C2.
      + apply calls_bind; [| intros _; apply calls_bind; [apply calls_log | intros _; apply calls_ret]].
        apply calls_mail. unfold createCalls. rewrite Em.
        apply andb_true_iff in C2. destruct C2 as [-> ->].
        rewrite orb_true_r. reflexivity.
      + apply calls_ret. }
  apply calls_bind; [| intros actions2].
  { destruct (0 <? length (Payload.documents_needed d)) eqn:C3; [|apply calls_ret].
    apply calls_bind; [| intros _; apply calls_ret].
    apply calls_handleDocumentRequest.
    - intros name. unfold createCalls. rewrite Em. exact C3.
    - intros e T. unfold createCalls. rewrite Em, C3, T. reflexivity.
    - intros T. unfold createCalls. rewrite Em, C3.
      apply andb_true_iff in T. destruct T as [-> ->]. reflexivity. }
  apply calls_bind; [| intros calendar; apply calls_ret].
  destruct (truthy (Payload.next_hearing_date d)) eqn:C4; [|apply calls_ret].
  apply calls_bind.
  - apply calls_hearingEvent. unfold createCalls. rewrite Em, C4, String.eqb_refl. reflexivity.
  - intros ev. destruct ev; apply calls_ret.
Qed.

Lemma calls_updateLocated env user d c :
  respects (callsOnly (updateCalls user d)) (updateLocated env user d c).
Proof.
  unfold updateLocated.
  apply calls_bind; [| intros hearingResult].
  { destruct (truthy (Payload.outcome d)); [|apply calls_ret].
    apply calls_bind; [apply calls_addHearing | intros n].
    apply calls_bind; [apply calls_log | intros _; apply calls_ret]. }
  apply calls_bind; [| intros _].
  { apply calls_when. intros T.
    apply calls_bind; [apply calls_mail; exact T | intros _; apply calls_log]. }
  apply calls_bind; [| intros _].
  { destruct (0 <? length (Updates.keys (buildUpdates user d c))).
    - apply calls_bind; [apply calls_updateCase | intros _; apply calls_log].
    - apply calls_log. }
  apply calls_bind; [| intros actions1].
  { destruct (String.eqb (or_empty (Payload.status d)) "FINALIZED") eqn:F; [|apply calls_ret].
    apply calls_bind; [apply calls_closeCase | intros _].
    apply calls_bind; [apply calls_log | intros _].
    destruct (truthy (Case.client_email c)) eqn:T; [|apply calls_ret].
    apply calls_bind; [| intros _; apply calls_ret].
    apply calls_mail. cbn [updateCalls]. rewrite F, T. reflexivity. }
  apply calls_bind; [| intros calendar].
  { destruct (truthy (Payload.next_hearing_date d)) eqn:T; [|apply calls_ret].
    apply calls_bind.
    - apply calls_hearingEvent. cbn [updateCalls]. rewrite T, String.eqb_refl. reflexivity.
    - intros ev. destruct ev; try apply calls_ret.
      apply calls_bind; [apply calls_log | intros _; apply calls_ret]. }
  apply calls_bind; [| intros actions3].
  { destruct (0 <? length (Payload.documents_needed d)) eqn:C3; [|apply calls_ret].
    apply calls_bind; [| intros _; apply calls_ret].
    apply calls_handleDocumentRequest.
    - intros name. exact C3.
    - intros e T. cbn [updateCalls]. rewrite C3, T. reflexivity.
    - intros T. cbn [updateCalls]. rewrite C3.
      apply andb_true_iff in T. destruct T as [-> ->]. reflexivity. }
  apply calls_bind; [| intros report; apply calls_ret].
  destruct (truthy (Payload.outcome d)
            && truthy (resolveClientEmail env user
                         (or_else (Case.client_email c) (Payload.client_email d))
                         "hearing update")) eqn:C5; [|apply calls_ret].
  apply andb_true_iff in C5. destruct C5 as [T1 T2].
  apply calls_bind.
  - apply calls_mail. cbn [updateCalls]. rewrite T1, T2. reflexivity.
  - intros emailResult.
    apply calls_bind; [| intros sent].
    + destruct emailResult; try apply calls_ret.
      apply calls_bind; [apply calls_log | intros _; apply calls_ret].
    + apply calls_bind; [| intros _; apply calls_ret].
      apply calls_when. intros _. apply calls_updateCase.
Qed.

Lemma calls_handleExistingCase env user d :
  respects (callsOnly (updateCalls user d)) (handleExistingCase env user d).
Proof.
  unfold handleExistingCase. apply calls_try_catch.
  - apply calls_bind; [apply calls_locate | intros [c|r]].
    + apply calls_updateLocated.
    + apply calls_ret.
  - intros e. apply calls_bind; [apply calls_log | intros _; apply calls_ret].
Qed.

Lemma calls_processSingleCase env user d :
  respects (callsOnly (caseCalls user d)) (processSingleCase env user d).
Proof.
  unfold processSingleCase, caseCalls.
  destruct (String.eqb (Payload.action_type d) "UPDATE_EXISTING");
    [apply calls_handleExistingCase|].
  destruct (String.eqb (Payload.action_type d) "CREATE_NEW");
    [apply calls_handleNewCase|].
  destruct (String.eqb (Payload.action_type d) "CLARIFICATION_NEEDED"); apply calls_ret.
Qed.

(** X9. The calls the handling of a payload makes to the mail and calendar
    sinks.  The Create Branch makes none when a field is missing, never
    mails the client a hearing report or a case update, and mails the junior
    only for a senior actor; the Update Branch mails the junior only when
    the payload assigns the case, reports a hearing only when the payload
    has an outcome, and announces the conclusion only when the status is
    FINALIZED; either branch asks for documents only when the payload lists
    some and books a hearing only for the payload's next hearing date; any
    other action makes no call.  The calls made earlier are kept. *)
Theorem calls_of_a_payload (env : Env.t) (user : User.t) (d : Payload.t) (w : World.t) :
  exists extra,
    World.calls (snd (processSingleCase env user d w)) = World.calls w ++ extra /\
    forallb (caseCalls user d) extra = true.
Proof. apply calls_processSingleCase. Qed.

Lemma caseCalls_junior (user : User.t) (d : Payload.t) (c : Call) :
  User.role user = User.JUNIOR ->
  caseCalls user (AiAgent.constrain user d) c = true -> negb (toJunior c) = true.
Proof.
  intros Hr. unfold caseCalls, updateCalls, createCalls, AiAgent.constrain, User.is_senior.
  rewrite Hr. cbn [Payload.action_type Payload.assign_to_junior].
  destruct (String.eqb (Payload.action_type d) "UPDATE_EXISTING").
  - destruct c; cbn [toJunior negb]; try reflexivity; try discriminate.
    rewrite andb_false_r. discriminate.
  - destruct (String.eqb (Payload.action_type d) "CREATE_NEW"); [|discriminate].
    destruct (allMissingFields _ _); [|discriminate].
    destruct c; cbn [toJunior negb andb]; try reflexivity; try discriminate.
    rewrite andb_false_r. discriminate.
Qed.

Lemma calls_processCases_junior env (user : User.t) (l : list Payload.t) :
  User.role user = User.JUNIOR ->
  respects (callsOnly (fun c => negb (toJunior c)))
           (processCases env user (map (AiAgent.constrain user) l)).
Proof.
  intros Hr. induction l as [|d l IH]; simpl; [apply calls_ret|].
  apply calls_bind.
  - intros w. eapply callsOnly_weaken; [| apply calls_processSingleCase].
    intros c. apply caseCalls_junior. exact Hr.
  - intros r. apply calls_bind; [exact IH | intros rs; apply calls_ret].
Qed.

(** X10. A run for a JUNIOR actor never addresses a junior: whatever the
    language model extracts from the voice note, no assignment mail and no
    document request to a junior is sent, since the payloads lose their
    assignment before they are handled. *)
Theorem junior_run_mails_no_junior
    (env : Env.t) (user : User.t)
    (transcribe : string -> Outcome string)
    (answer : string -> Outcome AiAgent.Extraction)
    (input : Input.t) (w : World.t) :
  User.role user = User.JUNIOR ->
  exists extra,
    World.calls (snd (processVoiceNote env user transcribe answer input w))
    = World.calls w ++ extra /\
    forallb (fun c => negb (toJunior c)) extra = true.
Proof.
  intros Hr. revert w.
  change (respects (callsOnly (fun c => negb (toJunior c)))
            (processVoiceNote env user transcribe answer input)).
  unfold processVoiceNote. apply calls_try_catch.
  2:{ intros e. apply calls_bind; [apply calls_log | intros _; apply calls_ret]. }
  apply calls_bind; [| intros transcription].
  { destruct (truthy (Input.audioFilePath input)); [apply calls_lift|].
    destruct (truthy (Input.text input)); [apply calls_ret | apply calls_throw]. }
  apply calls_bind; [apply calls_log | intros _].
  intros w. unfold bind at 1.
  destruct (answer transcription) as [result|e]; [|apply callsOnly_refl].
  cbn [AiAgent.extractCaseInformation lift ret AiAgent.cases
       AiAgent.requires_clarification].
  revert w.
  change (respects (callsOnly (fun c => negb (toJunior c)))
    match
      match AiAgent.cases result with
      | Some l => Some (map (AiAgent.constrain user) l)
      | None => None
      end
    with
    | Some cases =>
        log "AI_EXTRACTION" ("Extracted " ++ of_nat (length cases) ++ " case(s)")%string ;;
        (if AiAgent.requires_clarification result
         then ret (Response.mk true Response.CLARIFICATION_NEEDED
                     (AiAgent.clarification_message result)
                     (Some (length cases)) None None [] None)
         else
           results <- processCases env user cases ;;
           ret (Response.mk true Response.COMPLETED None None
                  (AiAgent.overall_summary result)
                  (Some (length results)) results None))
    | None =>
        throw (RuntimeError "Cannot read properties of undefined (reading 'length')")
    end).
  destruct (AiAgent.cases result) as [l|]; [|apply calls_throw].
  apply calls_bind; [apply calls_log | intros _].
  destruct (AiAgent.requires_clarification result); [apply calls_ret|].
  apply calls_bind; [| intros results; apply calls_ret].
  apply calls_processCases_junior. exact Hr.
Qed.

Lemma junior_run_mails_no_junior_witness :
  User.role juniorActor = User.JUNIOR /\
  exists extra,
    World.calls
      (snd (processVoiceNote demoEnv juniorActor noTranscriber
              (extracted [johnSmithAssigned]) voiceNote (World.initial [])))
    = World.calls (World.initial []) ++ extra /\
    forallb (fun c => negb (toJunior c)) extra = true.
Proof.
  split; [reflexivity|].
  apply junior_run_mails_no_junior. reflexivity.
Defined.

(* --------------------------------------------------------------------- *)
(** *** The operations of the record store on a page                      *)
(* --------------------------------------------------------------------- *)








Lemma getCaseById_run pageId w p :
  pageAt w pageId = Some p -> getCaseById pageId w = (Returns (parseNotionPage p), w).
Proof. intros Hp. unfold getCaseById. unfold pageAt in Hp. run. rewrite Hp. reflexivity. Qed.




(** X13. addHearing is not all-or-nothing: when the next hearing date
    cannot be parsed the call fails, the page keeps its hearing count, and
    yet the row of the hearing has been written, so that a second attempt
    writes a second row with the same number. *)
Theorem addHearing_failure_keeps_row
    (env : Env.t) (pageId : PageId) (hd : HearingData) (user : User.t)
    (w : World.t) (p : Case.t) :
  pageAt w pageId = Some p ->
  truthy (hd_next_hearing_date hd) = true ->
  Env.isoDate env (or_empty (hd_next_hearing_date hd)) = None ->
  exists w',
    addHearing env pageId hd user w
    = (Throws (ExternalServiceError "Notion"
                 "Failed to add hearing: Notion error: Invalid time value"), w') /\
    World.pages w' = World.pages w /\
    World.hearings w' =
      World.hearings w ++ [(pageId, hearingRow env hd (Case.hearing_count p))] /\
    exists w'',
      snd (addHearing env pageId hd user w') = w'' /\
      World.hearings w'' =
        World.hearings w ++ [(pageId, hearingRow env hd (Case.hearing_count p));
                             (pageId, hearingRow env hd (Case.hearing_count p))].
Proof.
  intros Hp T E.
  assert (Run : forall w0, pageAt w0 pageId = Some p ->
            addHearing env pageId hd user w0
            = (Throws (ExternalServiceError "Notion"
                 "Failed to add hearing: Notion error: Invalid time value"),
               World.add_hearing (pageId, hearingRow env hd (Case.hearing_count p)) w0)).
  { intros w0 Hp0. unfold addHearing.
    unfold try_catch at 1. unfold bind at 1. rewrite (getCaseById_run _ _ _ Hp0).
    cbn [parseNotionPage Case.hearing_count].
    unfold bind at 1. unfold modify at 1. unfold bind at 1.
    unfold updateCase, formatDateForNotion. run.
    cbn [Updates.next_hearing_date]. rewrite T, E. reflexivity. }
  eexists. split; [apply (Run w Hp)|].
  split; [reflexivity|]. split; [reflexivity|].
  eexists. split; [reflexivity|].
  rewrite Run by exact Hp. cbn [snd World.hearings World.add_hearing].
  rewrite <- app_assoc. reflexivity.
Qed.

Lemma addHearing_failure_keeps_row_witness :
  pageAt (World.initial [sharmaProperty]) 1 = Some sharmaProperty /\
  truthy (hd_next_hearing_date (hearingDataOf demoEnv sharmaNextTuesday)) = true /\
  Env.isoDate demoEnv
    (or_empty (hd_next_hearing_date (hearingDataOf demoEnv sharmaNextTuesday))) = None /\
  exists w',
    addHearing demoEnv 1 (hearingDataOf demoEnv sharmaNextTuesday) senior
               (World.initial [sharmaProperty])
    = (Throws (ExternalServiceError "Notion"
                 "Failed to add hearing: Notion error: Invalid time value"), w') /\
    World.pages w' = [sharmaProperty] /\
    length (World.hearings w') = 1.
Proof.
  split; [reflexivity|]. split; [reflexivity|]. split; [reflexivity|].
  destruct (addHearing_failure_keeps_row demoEnv 1 (hearingDataOf demoEnv sharmaNextTuesday)
              senior (World.initial [sharmaProperty]) sharmaProperty
              eq_refl eq_refl eq_refl) as (w' & E & Hp & Hh & _).
  exists w'. split; [exact E|]. split; [exact Hp|]. rewrite Hh. reflexivity.
Defined.

(* --------------------------------------------------------------------- *)
(** *** The Update Branch on a located case                               *)
(* --------------------------------------------------------------------- *)














Lemma bind_run {A B} (m : M A) (k : A -> M B) w a w1 :
  m w = (Returns a, w1) -> bind m k w = k a w1.
Proof. intros H. unfold bind. rewrite H. reflexivity. Qed.


Lemma mapStatus_own (status : string) :
  mem status inheritedKeys = false -> exists label, mapStatus status = status_label label.
Proof.
  intros H. unfold mapStatus. rewrite H.
  repeat match goal with
         | |- context [if ?b then _ else _] => destruct b
         end; eexists; reflexivity.
Qed.







(** With the status constructor the status table answers with a function:
    the patch carries it as the name of the status. *)
Example inherited_status_is_no_label :
  mapStatus "constructor" = inherited_member "constructor" /\
  Updates.status (buildUpdates senior sharmaConstructor sharmaProperty)
  = Some (inherited_member "constructor") /\
  mapStatus "ON_HOLD" = status_label caseStatuses.ACTIVE.
Proof. vm_compute. repeat split. Qed.

(** With a calendar that rejects the credential the branch ends in ERROR
    after the hearing is recorded and the case patched. *)
Example update_with_rejected_credential :
  exists r w' p',
    handleExistingCase lockedEnv senior sharmaContinuing (World.initial [sharmaProperty])
    = (Returns r, w') /\
    Result.status r = Result.ERROR /\
    pageAt w' 1 = Some p' /\
    Case.hearing_count p' = 1 /\
    Case.status p' = Some caseStatuses.CONTINUING /\
    length (World.hearings w') = 1.
Proof.
  eexists; eexists; eexists. split; [vm_compute; reflexivity|].
  repeat split.
Qed.

(* --------------------------------------------------------------------- *)
(** *** checkDuplicateCase                                                *)
(* --------------------------------------------------------------------- *)

(** X15. A duplicate that the check reports is a stored case, in its parsed
    form, that the search for the key returns and that the comparison takes
    for a duplicate; it is never a placeholder Unknown Case; and the key,
    the client name or else the first two long words of the case name, has
    at least three characters. *)
Theorem reported_duplicate_is_a_stored_case
    (pages : list Case.t) (d : Payload.t) (e : Case.t) :
  checkDuplicateIn pages d = Some e ->
  (exists p, In p pages /\ e = parseNotionPage p) /\
  startsWith (trim (toLowerCase (or_empty (Case.case_name e)))) "unknown case" = false /\
  isDuplicateOf d e = true /\
  exists key, duplicateSearchKey d = Some key /\ 3 <= String.length key /\
              In e (search pages key).
Proof.
  unfold checkDuplicateIn. intros H.
  destruct (negb (truthy (Payload.client_name d)) && negb (truthy (Payload.case_name d)));
    [discriminate|].
  destruct (negb (truthy (duplicateSearchKey d))) eqn:T; [discriminate|].
  cbn [orb] in H.
  destruct (String.length (or_empty (duplicateSearchKey d)) <? 3) eqn:L; [discriminate|].
  apply Nat.ltb_ge in L.
  destruct (find_some _ _ H) as [Hin Hdup].
  destruct (search_sound _ _ _ Hin) as (p & Hp & Ep & _).
  split; [exists p; auto|]. split.
  - unfold isDuplicateOf in Hdup.
    destruct (startsWith (trim (toLowerCase (or_empty (Case.case_name e)))) "unknown case");
      [discriminate | reflexivity].
  - split; [exact Hdup|].
    destruct (duplicateSearchKey d) as [key|]; [|discriminate].
    exists key. auto.
Qed.

Lemma reported_duplicate_is_a_stored_case_witness :
  checkDuplicateIn [sharmaProperty; vermaVsSharma] sharmaTenancy = Some vermaVsSharma /\
  (exists p, In p [sharmaProperty; vermaVsSharma] /\ vermaVsSharma = parseNotionPage p) /\
  isDuplicateOf sharmaTenancy vermaVsSharma = true.
Proof.
  assert (H : checkDuplicateIn [sharmaProperty; vermaVsSharma] sharmaTenancy
              = Some vermaVsSharma) by (vm_compute; reflexivity).
  split; [exact H|].
  destruct (reported_duplicate_is_a_stored_case _ _ _ H) as (H1 & _ & H2 & _).
  split; [exact H1 | exact H2].
Defined.

(* --------------------------------------------------------------------- *)
(** *** processSingleCase and processVoiceNote                            *)
(* --------------------------------------------------------------------- *)

Lemma try_catch_returns {A} (m : M A) (h : Exn -> M A) :
  (forall e w, exists a w', h e w = (Returns a, w')) ->
  forall w, exists a w', try_catch m h w = (Returns a, w').
Proof.
  intros H w. unfold try_catch. destruct (m w) as [[a|e] w1].
  - exists a, w1. reflexivity.
  - apply H.
Qed.

Lemma processSingleCase_returns env user d w :
  exists r w', processSingleCase env user d w = (Returns r, w').
Proof.
  unfold processSingleCase.
  destruct (String.eqb (Payload.action_type d) "UPDATE_EXISTING").
  { unfold handleExistingCase. apply try_catch_returns.
    intros e w0. eexists; eexists. reflexivity. }
  destruct (String.eqb (Payload.action_type d) "CREATE_NEW").
  { unfold handleNewCase. apply try_catch_returns.
    intros e w0. destruct e; eexists; eexists; reflexivity. }
  destruct (String.eqb (Payload.action_type d) "CLARIFICATION_NEEDED");
    eexists; eexists; reflexivity.
Qed.

(** X16. The handling of a payload never raises: every failure of a branch
    is turned into a result.  And a payload whose action is neither an
    update nor a creation touches nothing, not even the operation log. *)
Theorem handling_a_payload_never_raises
    (env : Env.t) (user : User.t) (d : Payload.t) (w : World.t) :
  exists r w',
    processSingleCase env user d w = (Returns r, w') /\
    (String.eqb (Payload.action_type d) "UPDATE_EXISTING" = false ->
     String.eqb (Payload.action_type d) "CREATE_NEW" = false ->
     w' = w /\
     Result.status r =
       (if String.eqb (Payload.action_type d) "CLARIFICATION_NEEDED"
        then Result.CLARIFICATION_NEEDED else Result.UNKNOWN_ACTION)).
Proof.
  destruct (processSingleCase_returns env user d w) as (r & w' & E).
  exists r, w'. split; [exact E|]. intros N1 N2.
  unfold processSingleCase in E. rewrite N1, N2 in E.
  destruct (String.eqb (Payload.action_type d) "CLARIFICATION_NEEDED");
    injection E as <- <-; split; reflexivity.
Qed.

Lemma handling_a_payload_never_raises_witness :
  String.eqb (Payload.action_type archiveRequest) "UPDATE_EXISTING" = false /\
  String.eqb (Payload.action_type archiveRequest) "CREATE_NEW" = false /\
  exists r w',
    processSingleCase demoEnv senior archiveRequest (World.initial [sharmaProperty])
    = (Returns r, w') /\
    w' = World.initial [sharmaProperty] /\
    Result.status r = Result.UNKNOWN_ACTION.
Proof.
  split; [reflexivity|]. split; [reflexivity|].
  destruct (handling_a_payload_never_raises demoEnv senior archiveRequest
              (World.initial [sharmaProperty])) as (r & w' & E & H).
  exists r, w'. split; [exact E|]. apply H; reflexivity.
Defined.

Lemma processCases_returns env user l w :
  exists rs w', processCases env user l w = (Returns rs, w') /\ length rs = length l.
Proof.
  revert w. induction l as [|d l IH]; intros w.
  - exists [], w. split; reflexivity.
  - destruct (processSingleCase_returns env user d w) as (r & w1 & E1).
    destruct (IH w1) as (rs & w2 & E2 & L).
    exists (r :: rs), w2. simpl. rewrite (bind_run _ _ _ _ _ E1).
    rewrite (bind_run _ _ _ _ _ E2). split; [reflexivity | simpl; congruence].
Qed.

(** X17. A voice note always gets a response.  A COMPLETED response carries
    one result for each payload the extraction returned; a response that
    asks for clarification, and an ERROR response, come from a run that
    wrote nothing: the pages, the histories, the hearing tables and the
    sinks are as they were, so that an error can only stem from the input,
    the transcription or the extraction, never from the handling of a
    payload. *)
Theorem voice_note_response
    (env : Env.t) (user : User.t)
    (transcribe : string -> Outcome string)
    (answer : string -> Outcome AiAgent.Extraction)
    (input : Input.t) (w : World.t) :
  exists r w',
    processVoiceNote env user transcribe answer input w = (Returns r, w') /\
    match Response.status r with
    | Response.COMPLETED =>
        Response.success r = true /\
        exists transcription extraction payloads,
          answer transcription = Returns extraction /\
          AiAgent.cases extraction = Some payloads /\
          AiAgent.requires_clarification extraction = false /\
          length (Response.cases r) = length payloads /\
          Response.cases_processed r = Some (length payloads)
    | Response.CLARIFICATION_NEEDED =>
        Response.success r = true /\ Response.cases r = [] /\ untouched w w'
    | Response.ERROR =>
        Response.success r = false /\ Response.cases r = [] /\ untouched w w' /\
        exists msg before,
          Response.error r = Some msg /\
          World.operationLog w' = before ++ [("ERROR"%string, msg)]
    end.
Proof.
  assert (Herr : forall e w0, untouched w w0 ->
            exists r w',
              (log "ERROR" (message e) ;;
               ret (Response.mk false Response.ERROR None None None None []
                      (Some (message e)))) w0 = (Returns r, w') /\
              Response.status r = Response.ERROR /\
              Response.success r = false /\ Response.cases r = [] /\ untouched w w' /\
              exists msg before,
                Response.error r = Some msg /\
                World.operationLog w' = before ++ [("ERROR"%string, msg)]).
  { intros e w0 U. eexists; eexists. split; [reflexivity|].
    cbn [Response.status Response.success Response.cases Response.error].
    repeat split; try apply U.
    exists (message e), (World.operationLog w0). split; reflexivity. }
  assert (U0 : untouched w w) by (repeat split).
  assert (Hbody : forall transcription,
            exists r w',
              try_catch
                (bind (ret transcription) (fun transcription =>
                 log "TRANSCRIPTION" "Voice note transcribed successfully" ;;
                 extraction <-
                   lift (AiAgent.extractCaseInformation (answer transcription) user) ;;
                 match AiAgent.cases extraction with
                 | None =>
                     throw (RuntimeError
                              "Cannot read properties of undefined (reading 'length')")
                 | Some cases =>
                     log "AI_EXTRACTION"
                         ("Extracted " ++ of_nat (length cases) ++ " case(s)")%string ;;
                     if AiAgent.requires_clarification extraction
                     then ret (Response.mk true Response.CLARIFICATION_NEEDED
                                 (AiAgent.clarification_message extraction)
                                 (Some (length cases)) None None [] None)
                     else
                       results <- processCases env user cases ;;
                       ret (Response.mk true Response.COMPLETED None None
                              (AiAgent.overall_summary extraction)
                              (Some (length results)) results None)
                 end))
                (fun error =>
                   log "ERROR" (message error) ;;
                   ret (Response.mk false Response.ERROR None None None None []
                          (Some (message error)))) w = (Returns r, w') /\
              match Response.status r with
              | Response.COMPLETED =>
                  Response.success r = true /\
                  exists transcription extraction payloads,
                    answer transcription = Returns extraction /\
                    AiAgent.cases extraction = Some payloads /\
                    AiAgent.requires_clarification extraction = false /\
                    length (Response.cases r) = length payloads /\
                    Response.cases_processed r = Some (length payloads)
              | Response.CLARIFICATION_NEEDED =>
                  Response.success r = true /\ Response.cases r = [] /\ untouched w w'
              | Response.ERROR =>
                  Response.success r = false /\ Response.cases r = [] /\ untouched w w' /\
                  exists msg before,
                    Response.error r = Some msg /\
                    World.operationLog w' = before ++ [("ERROR"%string, msg)]
              end).
  { intros t. unfold try_catch. unfold bind at 1. unfold ret at 1.
    unfold bind at 1. unfold log at 1. unfold modify at 1.
    set (w1 := World.add_log _ w).
    assert (U1 : untouched w w1) by (repeat split).
    unfold bind at 1.
    destruct (answer t) as [ex|e] eqn:Ea;
      cbn [AiAgent.extractCaseInformation lift ret throw].
    2:{ destruct (Herr (RuntimeError
                          ("Failed to extract case information: " ++ message e)%string)
                       w1 U1) as (r & w' & E & Hs & H).
        exists r, w'. split; [exact E|]. rewrite Hs. exact H. }
    cbn [AiAgent.cases AiAgent.requires_clarification AiAgent.clarification_message
         AiAgent.overall_summary].
    destruct (AiAgent.cases ex) as [l|] eqn:El.
    2:{ destruct (Herr (RuntimeError
                          "Cannot read properties of undefined (reading 'length')")
                       w1 U1) as (r & w' & E & Hs & H).
        exists r, w'. split; [exact E|]. rewrite Hs. exact H. }
    unfold bind at 1. unfold log at 1. unfold modify at 1.
    set (w2 := World.add_log _ w1).
    assert (U2 : untouched w w2) by (repeat split).
    destruct (AiAgent.requires_clarification ex) eqn:Ec.
    - eexists; eexists. split; [reflexivity|].
      cbn [Response.status Response.success Response.cases]. auto.
    - destruct (processCases_returns env user (map (AiAgent.constrain user) l) w2)
        as (rs & w3 & E3 & L).
      rewrite (bind_run _ _ _ _ _ E3).
      eexists; eexists. split; [reflexivity|].
      cbn [Response.status Response.success Response.cases Response.cases_processed].
      split; [reflexivity|].
      exists t, ex, l. rewrite L, length_map. auto. }
  unfold processVoiceNote.
  destruct (truthy (Input.audioFilePath input)).
  - destruct (transcribe (or_empty (Input.audioFilePath input))) as [t|e]; cbn [lift].
    + apply Hbody.
    + destruct (Herr e w U0) as (r & w' & E & Hs & H).
      exists r, w'. split; [exact E|]. rewrite Hs. exact H.
  - destruct (truthy (Input.text input)).
    + apply Hbody.
    + destruct (Herr (RuntimeError "No input provided") w U0) as (r & w' & E & Hs & H).
      exists r, w'. split; [exact E|]. rewrite Hs. exact H.
Qed.

(* --------------------------------------------------------------------- *)
(** *** utils/helpers.js                                                  *)
(* --------------------------------------------------------------------- *)

Lemma year_has_four_digits (year : nat) :
  1000 <= year < 10 * 1000 -> fourDigits (of_nat year) = true.
Proof.
  intros H.
  assert (A : forallb (fun y => fourDigits (of_nat y)) (seq 1000 (9 * 1000)) = true)
    by (vm_compute; reflexivity).
  rewrite forallb_forall in A. apply A. apply in_seq. lia.
Qed.

Lemma base36_upper (c : ascii) : base36 c = true -> alnumUpper (upper_char c) = true.
Proof.
  destruct c as [[] [] [] [] [] [] [] []]; vm_compute; intros H;
    first [reflexivity | discriminate H].
Qed.

(** X18. The generated case number, for a four-digit year and a random
    outcome that prints in base 36 as 0. followed by digits: its random part
    is the first five of these digits, in upper case, and it has the
    documented form CASE-YYYY-XXXXX exactly when at least five digits are
    printed. *)
Theorem generated_case_number_form (year : nat) (x : N) (digits : string) :
  1000 <= year < 10 * 1000 ->
  toString36 x = ("0." ++ digits)%string ->
  all_chars base36 digits = true ->
  generateCaseNumber year x
  = ("CASE-" ++ of_nat year ++ "-" ++ toUpperCase (substring 0 5 digits))%string /\
  matches_case_pattern (generateCaseNumber year x) = (5 <=? String.length digits).
Proof.
  intros Hy Ht Hd.
  pose proof (year_has_four_digits year Hy) as Y.
  unfold generateCaseNumber. rewrite Ht.
  assert (S : substring 2 7 ("0." ++ digits) = substring 0 5 digits).
  { unfold substring. simpl. reflexivity. }
  rewrite S. split; [reflexivity|].
  destruct (of_nat year) as [|a [|b [|c [|d [|? ?]]]]]; try discriminate Y.
  cbn [fourDigits] in Y.
  do 3 (apply andb_true_iff in Y; destruct Y as [Y ?]).
  destruct digits as [|e1 [|e2 [|e3 [|e4 [|e5 rest]]]]]; try reflexivity.
  cbn [all_chars] in Hd.
  do 5 (apply andb_true_iff in Hd;
        let H := fresh "Hc" in destruct Hd as [H Hd]; apply base36_upper in H).
  unfold matches_case_pattern, substring.
  cbn [append String.length String.substring Nat.sub toUpperCase map_chars
       all_chars Nat.eqb String.eqb Ascii.eqb Bool.eqb andb Nat.leb].
  rewrite !substring_none.
  cbn [toUpperCase map_chars String.length all_chars Nat.eqb andb].
  unfold alnumUpper in *.
  repeat match goal with H : _ = true |- _ => rewrite H; clear H end.
  reflexivity.
Qed.

Lemma generated_case_number_form_witness :
  generateCaseNumber 2025 (Env.random demoEnv) = "CASE-2025-4XMVU"%string /\
  matches_case_pattern (generateCaseNumber 2025 (Env.random demoEnv)) = true.
Proof.
  apply (generated_case_number_form 2025 (Env.random demoEnv) "4xmvue8buux");
    [lia | vm_compute; reflexivity | vm_compute; reflexivity].
Defined.

Lemma ratio_nonneg (a b : nat) : (0 <= ratio a b)%Q.
Proof.
  unfold ratio. destruct b as [|b].
  - unfold Qdiv, Qinv, inject_Z. cbn [Z.of_nat Qnum]. rewrite Qmult_0_r. apply Qle_refl.
  - apply Qle_shift_div_l.
    + unfold inject_Z, Qlt. cbn [Qnum Qden]. lia.
    + rewrite Qmult_0_l. unfold inject_Z, Qle. cbn [Qnum Qden]. lia.
Qed.

Lemma matching_le_other (words1 words2 : list string) :
  NoDup words1 ->
  length (filter (fun w => mem w words2) words1) <= length words2.
Proof.
  intros Hn. apply NoDup_incl_length.
  - apply NoDup_filter. exact Hn.
  - intros x Hx. apply filter_In in Hx. destruct Hx as [_ Hx].
    apply mem_In. exact Hx.
Qed.

(** X19. The similarity of two names is never negative, and it is at most 1
    when no counted word of the first name occurs twice in it.  With a
    repeated word it can exceed 1, the documented bound. *)
Theorem similarity_bounds (str1 str2 : string) :
  (0 <= calculateSimilarity str1 str2)%Q /\
  (NoDup (wordsOf str1) -> (calculateSimilarity str1 str2 <= 1)%Q) /\
  (1 < calculateSimilarity "Rao vs Rao and Rao Estate" "Rao Mehta")%Q.
Proof.
  split; [| split; [| vm_compute; reflexivity]].
  - unfold calculateSimilarity.
    destruct (_ || _); [apply Qle_refl|].
    destruct (String.eqb _ _); [discriminate|].
    destruct (String.eqb _ _); [discriminate|].
    destruct (_ || _); [discriminate|].
    destruct (_ || _); [apply Qle_refl|].
    match goal with
    | |- context [((ratio ?a ?b + ratio ?a ?c) / 2)%Q] =>
        assert (Havg : (0 <= (ratio a b + ratio a c) / 2)%Q)
    end.
    { apply Qle_shift_div_l; [reflexivity|]. rewrite Qmult_0_l.
      rewrite <- (Qplus_0_r 0). apply Qplus_le_compat; apply ratio_nonneg. }
    destruct (_ && _); [| exact Havg].
    unfold Qmin. destruct (Qle_bool _ _); [discriminate|].
    eapply Qle_trans; [exact Havg|].
    rewrite <- (Qplus_0_r ((_ + _) / 2)) at 1.
    apply Qplus_le_compat; [apply Qle_refl | discriminate].
  - intros Hn. unfold calculateSimilarity.
    destruct (_ || _); [discriminate|].
    destruct (String.eqb _ _); [apply Qle_refl|].
    destruct (String.eqb _ _); [discriminate|].
    destruct (_ || _); [discriminate|].
    fold (wordsOf str1). fold (wordsOf str2).
    destruct (length (wordsOf str1) =? 0) eqn:E1; [discriminate|].
    destruct (length (wordsOf str2) =? 0) eqn:E2; [discriminate|].
    cbn [orb]. apply Nat.eqb_neq in E1, E2.
    destruct (_ && _).
    + unfold Qmin. destruct (Qle_bool _ _) eqn:C; [discriminate|].
      apply Qle_bool_false in C. apply Qlt_le_weak.
      eapply Qlt_le_trans; [exact C | discriminate].
    + apply Qle_shift_div_r; [reflexivity|].
      apply Qle_trans with (1 + 1)%Q; [| discriminate].
      apply Qplus_le_compat; apply ratio_le_1; try lia.
      * apply filter_length_le.
      * apply matching_le_other. exact Hn.
Qed.

Lemma similarity_bounds_witness :
  NoDup (wordsOf "Amit Kumar") /\
  (calculateSimilarity "Amit Kumar" "Amit Singh" <= 1)%Q.
Proof.
  assert (N : NoDup (wordsOf "Amit Kumar")).
  { vm_compute. repeat constructor; simpl; intuition discriminate. }
  split; [exact N|].
  apply (proj1 (proj2 (similarity_bounds "Amit Kumar" "Amit Singh"))). exact N.
Defined.

Lemma all_chars_app (P : ascii -> bool) (a b : string) :
  all_chars P (a ++ b)%string = all_chars P a && all_chars P b.
Proof.
  induction a as [|c a IH]; [reflexivity|]. simpl. rewrite IH, andb_assoc. reflexivity.
Qed.

Lemma all_chars_rev (P : ascii -> bool) (s : string) :
  all_chars P (rev_string s) = all_chars P s.
Proof.
  induction s as [|c s IH]; [reflexivity|]. simpl.
  rewrite all_chars_app, IH. simpl. rewrite andb_true_r, andb_comm. reflexivity.
Qed.

Lemma all_chars_trimStart (P : ascii -> bool) (s : string) :
  all_chars P s = true -> all_chars P (trimStart s) = true.
Proof.
  induction s as [|c s IH]; [reflexivity|]. intros H. simpl.
  destruct (is_space c); [| exact H].
  simpl in H. apply andb_true_iff in H. apply IH. tauto.
Qed.

Lemma all_chars_trim (P : ascii -> bool) (s : string) :
  all_chars P s = true -> all_chars P (trim s) = true.
Proof.
  intros H. unfold trim. rewrite all_chars_rev. apply all_chars_trimStart.
  rewrite all_chars_rev. apply all_chars_trimStart. exact H.
Qed.

Lemma all_chars_substring (P : ascii -> bool) (n m : nat) (s : string) :
  all_chars P s = true -> all_chars P (String.substring n m s) = true.
Proof.
  revert n m. induction s as [|c s IH]; intros n m H.
  - destruct n, m; reflexivity.
  - simpl in H. apply andb_true_iff in H. destruct H as [Hc Hs].
    destruct n as [|n]; [destruct m as [|m]|]; simpl.
    + reflexivity.
    + rewrite Hc. apply IH. exact Hs.
    + apply IH. exact Hs.
Qed.

Lemma substring_length_le (n m : nat) (s : string) :
  String.length (String.substring n m s) <= m.
Proof.
  revert n m. induction s as [|c s IH]; intros n m.
  - destruct n, m; simpl; lia.
  - destruct n as [|n]; [destruct m as [|m]|]; simpl.
    + lia.
    + specialize (IH 0 m). lia.
    + apply IH.
Qed.

Lemma substring_length_exact (m : nat) (s : string) :
  m <= String.length s -> String.length (String.substring 0 m s) = m.
Proof.
  revert m. induction s as [|c s IH]; intros m H.
  - simpl in H. destruct m; [reflexivity | lia].
  - destruct m as [|m]; [reflexivity|]. simpl in *. rewrite IH; lia.
Qed.

Lemma remove_angle_clean (s : string) : all_chars no_angle (remove_angle s) = true.
Proof.
  induction s as [|c s IH]; [reflexivity|]. simpl.
  destruct (Ascii.eqb c "<" || Ascii.eqb c ">") eqn:E; [exact IH|].
  simpl. unfold no_angle at 1. rewrite E, IH. reflexivity.
Qed.

(** X20. A sanitized string holds no angle bracket and at most 2000
    characters, whatever the input. *)
Theorem sanitizeString_is_clean (str : option string) :
  all_chars no_angle (sanitizeString str) = true /\
  String.length (sanitizeString str) <= 2000.
Proof.
  unfold sanitizeString, substring. destruct (truthy str).
  - split.
    + apply all_chars_substring, all_chars_trim, remove_angle_clean.
    + etransitivity; [apply substring_length_le|]. rewrite Nat.sub_0_r. apply le_n.
  - split; [reflexivity | apply Nat.le_0_l].
Qed.

Lemma length_append (a b : string) :
  String.length (a ++ b)%string = String.length a + String.length b.
Proof. induction a as [|c a IH]; [reflexivity|]. simpl. rewrite IH. reflexivity. Qed.

(** X21. truncate keeps a text within the maximal length when that length is
    at least 3, cutting a longer text to exactly that length with three dots
    at its end; below 3 a longer text becomes the three dots alone, which
    exceed the maximum. *)
Theorem truncate_length (text : option string) (maxLength : nat) :
  (3 <= maxLength ->
   String.length (or_empty (truncate text maxLength)) <= maxLength) /\
  (3 <= maxLength -> maxLength < String.length (or_empty text) ->
   exists head, truncate text maxLength = Some (head ++ "...")%string /\
                String.length head = maxLength - 3 /\
                startsWith (or_empty text) head = true) /\
  (maxLength < 3 -> maxLength < String.length (or_empty text) ->
   truncate text maxLength = Some "..."%string).
Proof.
  unfold truncate, substring.
  assert (T : maxLength < String.length (or_empty text) -> truthy text = true).
  { destruct text as [[|c s]|]; simpl; intros; first [reflexivity | lia]. }
  split; [| split].
  - intros H3. destruct (truthy text) eqn:Tt; cbn [negb orb].
    2:{ destruct text as [[|c s]|]; simpl in *; try discriminate; lia. }
    destruct (String.length (or_empty text) <=? maxLength) eqn:L.
    + apply Nat.leb_le in L. exact L.
    + apply Nat.leb_gt in L. cbn [or_empty].
      rewrite length_append, Nat.sub_0_r, substring_length_exact by lia. simpl. lia.
  - intros H3 L. rewrite (T L). cbn [negb orb].
    destruct (String.length (or_empty text) <=? maxLength) eqn:L';
      [apply Nat.leb_le in L'; lia|].
    eexists. split; [reflexivity|]. rewrite Nat.sub_0_r. split.
    + apply substring_length_exact. lia.
    + generalize (maxLength - 3). generalize (or_empty text). clear.
      intros s. induction s as [|c s IH]; intros m.
      * destruct m; reflexivity.
      * destruct m as [|m]; [reflexivity|]. simpl. rewrite Ascii.eqb_refl. apply IH.
  - intros H3 L. rewrite (T L). cbn [negb orb].
    destruct (String.length (or_empty text) <=? maxLength) eqn:L';
      [apply Nat.leb_le in L'; lia|].
    replace (maxLength - 3 - 0) with 0 by lia.
    rewrite substring_none. reflexivity.
Qed.

Lemma truncate_length_witness :
  3 <= 8 /\ 8 < String.length (or_empty (Some "Sharma Property Dispute"%string)) /\
  String.length (or_empty (truncate (Some "Sharma Property Dispute"%string) 8)) <= 8.
Proof.
  split; [lia|]. split; [simpl; lia|].
  apply (proj1 (truncate_length (Some "Sharma Property Dispute"%string) 8)). lia.
Defined.

(* --------------------------------------------------------------------- *)
(** *** services/calendarService.js: the time of a hearing event          *)
(* --------------------------------------------------------------------- *)

Lemma below_100 (P : nat -> nat -> bool) :
  forallb (fun h => forallb (P h) (seq 0 100)) (seq 0 100) = true ->
  forall h m, h < 100 -> m < 100 -> P h m = true.
Proof.
  intros H h m Hh Hm. rewrite forallb_forall in H.
  assert (Hin : In h (seq 0 100)) by (apply in_seq; lia).
  specialize (H h Hin). rewrite forallb_forall in H.
  apply H. apply in_seq. lia.
Qed.

Lemma below_100_hours (P : nat -> bool) :
  forallb P (seq 0 100) = true -> forall h, h < 100 -> P h = true.
Proof.
  intros H h Hh. rewrite forallb_forall in H. apply H. apply in_seq. lia.
Qed.

Lemma same_time_eq (a b : nat * nat) : same_time a b = true -> a = b.
Proof.
  destruct a, b. unfold same_time. simpl. intros H.
  apply andb_true_iff in H. destruct H as [H1 H2].
  apply Nat.eqb_eq in H1, H2. congruence.
Qed.

(** X22. A time in the 24-hour form, the hour written with one or two
    digits and the minute with two, gives that hour and that minute as the
    hour and the minute the start of the event is set to.  The numbers are
    not checked: an hour above 23 or a minute above 59 is taken as it is. *)
Theorem start_time_24_hours (h m : nat) :
  h < 100 -> m < 100 ->
  startTime (Some (of_nat h ++ ":" ++ pad2 m)%string) = (h, m) /\
  startTime (Some (pad2 h ++ ":" ++ pad2 m)%string) = (h, m).
Proof.
  intros Hh Hm.
  assert (A : startTime (Some (of_nat h ++ ":" ++ pad2 m)%string) = (h, m)).
  { apply same_time_eq.
    apply (below_100 (fun h m =>
             same_time (startTime (Some (of_nat h ++ ":" ++ pad2 m)%string)) (h, m)));
      [vm_compute; reflexivity | exact Hh | exact Hm]. }
  assert (B : startTime (Some (pad2 h ++ ":" ++ pad2 m)%string) = (h, m)).
  { apply same_time_eq.
    apply (below_100 (fun h m =>
             same_time (startTime (Some (pad2 h ++ ":" ++ pad2 m)%string)) (h, m)));
      [vm_compute; reflexivity | exact Hh | exact Hm]. }
  split; [exact A | exact B].
Qed.

Lemma start_time_24_hours_witness :
  14 < 100 /\ 30 < 100 /\
  startTime (Some (of_nat 14 ++ ":" ++ pad2 30)%string) = (14, 30) /\
  startTime (Some (pad2 14 ++ ":" ++ pad2 30)%string) = (14, 30).
Proof.
  split; [lia|]. split; [lia|]. apply start_time_24_hours; lia.
Defined.

(** X23. A time in the 12-hour form, with or without minutes and whatever
    the case of the suffix: PM adds twelve hours except to the hour 12, and
    AM turns the hour 12 into 0.  The hour is not checked against the
    clock: 15 PM starts at hour 27. *)
Theorem start_time_12_hours (h m : nat) :
  h < 100 -> m < 100 ->
  startTime (Some (of_nat h ++ ":" ++ pad2 m ++ " PM")%string)
    = ((if h =? 12 then 12 else h + 12), m) /\
  startTime (Some (of_nat h ++ ":" ++ pad2 m ++ " AM")%string)
    = ((if h =? 12 then 0 else h), m) /\
  startTime (Some (of_nat h ++ "pm")%string) = ((if h =? 12 then 12 else h + 12), 0) /\
  startTime (Some (of_nat h ++ " am")%string) = ((if h =? 12 then 0 else h), 0).
Proof.
  intros Hh Hm.
  split; [| split; [| split]]; apply same_time_eq.
  - apply (below_100 (fun h m =>
             same_time (startTime (Some (of_nat h ++ ":" ++ pad2 m ++ " PM")%string))
                       ((if h =? 12 then 12 else h + 12), m)));
      [vm_compute; reflexivity | exact Hh | exact Hm].
  - apply (below_100 (fun h m =>
             same_time (startTime (Some (of_nat h ++ ":" ++ pad2 m ++ " AM")%string))
                       ((if h =? 12 then 0 else h), m)));
      [vm_compute; reflexivity | exact Hh | exact Hm].
  - refine (below_100_hours (fun h =>
              same_time (startTime (Some (of_nat h ++ "pm")%string))
                        ((if h =? 12 then 12 else h + 12), 0)) _ h Hh).
    vm_compute; reflexivity.
  - refine (below_100_hours (fun h =>
              same_time (startTime (Some (of_nat h ++ " am")%string))
                        ((if h =? 12 then 0 else h), 0)) _ h Hh).
    vm_compute; reflexivity.
Qed.

Lemma start_time_12_hours_witness :
  2 < 100 /\ 30 < 100 /\
  startTime (Some (of_nat 2 ++ ":" ++ pad2 30 ++ " PM")%string)
    = ((if 2 =? 12 then 12 else 2 + 12), 30) /\
  startTime (Some (of_nat 2 ++ ":" ++ pad2 30 ++ " AM")%string)
    = ((if 2 =? 12 then 0 else 2), 30) /\
  startTime (Some (of_nat 2 ++ "pm")%string) = ((if 2 =? 12 then 12 else 2 + 12), 0) /\
  startTime (Some (of_nat 2 ++ " am")%string) = ((if 2 =? 12 then 0 else 2), 0).
Proof.
  split; [lia|]. split; [lia|]. apply start_time_12_hours; lia.
Defined.

(* --------------------------------------------------------------------- *)
(** *** What the result of a branch tells                                 *)
(* --------------------------------------------------------------------- *)

Lemma yields_ret {A} (a : A) (Q : A -> Prop) : Q a -> yields (ret a) Q.
Proof. intros H w b w' E. injection E as <- _. exact H. Qed.

Lemma yields_bind {A B} (m : M A) (k : A -> M B) (Q : B -> Prop) :
  (forall a, yields (k a) Q) -> yields (bind m k) Q.
Proof.
  intros H w b w' E. unfold bind in E.
  destruct (m w) as [[a|e] w1]; [exact (H a w1 b w' E) | discriminate].
Qed.

Lemma yields_updateLocated env user d c :
  yields (updateLocated env user d c)
         (fun r => Result.status r = Result.UPDATED /\
                   Result.case_id r = Some (Case.id c)).
Proof.
  unfold updateLocated. repeat (apply yields_bind; intros).
  apply yields_ret. split; reflexivity.
Qed.

Lemma yields_createDraft env user d key :
  yields (createDraftFromUnknown env user d key)
         (fun r => Result.status r = Result.CREATED_AS_DRAFT /\
                   Result.is_draft r = Some true).
Proof.
  unfold createDraftFromUnknown. repeat (apply yields_bind; intros).
  apply yields_ret. split; reflexivity.
Qed.

Lemma findCase_world key w : snd (findCase key w) = w.
Proof.
  unfold findCase, searchCases. run. destruct key as [k|]; cbn [or_empty].
  - destruct (findCaseIn k (search (World.pages w) k)); reflexivity.
  - reflexivity.
Qed.

Lemma locate_result env user d key w r w1 :
  locate env user d key w = (Returns (inr r), w1) ->
  (Result.status r = Result.CREATED_AS_DRAFT /\ Result.is_draft r = Some true) \/
  (Result.status r = Result.CLARIFICATION_NEEDED /\
   2 <= length (Result.matches r) /\ Forall realMatch (Result.matches r) /\
   untouched w w1).
Proof.
  unfold locate. unfold try_catch. unfold bind at 1.
  pose proof (findCase_world key w) as Hw.
  destruct (findCase key w) as [[c|e] w0]; simpl in Hw; subst w0.
  - unfold bind, log, modify, ret. discriminate.
  - destruct e as [k | matches | c | s m | m]; try (unfold throw; discriminate).
    + intros H. left. unfold bind at 1 in H. unfold log at 1, modify at 1 in H.
      unfold bind at 1 in H.
      match type of H with
      | context [createDraftFromUnknown env user d key ?w0] =>
          destruct (createDraftFromUnknown env user d key w0) as [[r0|e0] w2] eqn:Ed;
          [| discriminate]
      end.
      injection H as <- _. exact (yields_createDraft _ _ _ _ _ _ _ Ed).
    + destruct (negb (forallb _ matches)); [unfold throw; discriminate|].
      destruct (filter _ matches) as [|m1 [|m2 rest]] eqn:Ef.
      * intros H. left. unfold bind at 1 in H. unfold log at 1, modify at 1 in H.
        unfold bind at 1 in H.
        match type of H with
        | context [createDraftFromUnknown env user d key ?w0] =>
            destruct (createDraftFromUnknown env user d key w0) as [[r0|e0] w2] eqn:Ed;
            [| discriminate]
        end.
        injection H as <- _. exact (yields_createDraft _ _ _ _ _ _ _ Ed).
      * intros H. unfold bind at 1 in H.
        destruct (getCaseById (m_id m1) w) as [[c1|e1] w2]; [|discriminate].
        unfold bind, log, modify, ret in H. discriminate.
      * intros H. right. unfold bind, log, modify, ret in H. injection H as <- <-.
        cbn [Result.status Result.matches]. split; [reflexivity|].
        split; [simpl; lia|]. split; [| repeat split].
        rewrite <- Ef. apply Forall_forall. intros m Hm.
        apply filter_In in Hm. destruct Hm as [_ Hm]. unfold realMatch.
        destruct (startsWith (or_empty (m_case_name m)) "Unknown Case");
          [discriminate | reflexivity].
Qed.

(** X24. What the result of the Update Branch tells.  The branch reports
    UPDATED, CREATED_AS_DRAFT, CLARIFICATION_NEEDED or ERROR and nothing
    else: a duplicate met while the placeholder is stored is reported as an
    error.  A clarification lists two or more candidates, none of them a
    placeholder Unknown Case, and comes from a run that wrote nothing; an
    error carries its message. *)
Theorem update_branch_results
    (env : Env.t) (user : User.t) (d : Payload.t) (w w' : World.t) (r : Result.t) :
  handleExistingCase env user d w = (Returns r, w') ->
  match Result.status r with
  | Result.UPDATED => exists id, Result.case_id r = Some id
  | Result.CREATED_AS_DRAFT => Result.is_draft r = Some true
  | Result.CLARIFICATION_NEEDED =>
      2 <= length (Result.matches r) /\ Forall realMatch (Result.matches r) /\
      untouched w w'
  | Result.ERROR => exists msg, Result.error r = Some msg
  | _ => False
  end.
Proof.
  unfold handleExistingCase. unfold try_catch. unfold bind at 1.
  destruct (locate env user d _ w) as [[[c|r0]|e] w1] eqn:Hloc.
  - destruct (updateLocated env user d c w1) as [[r1|e1] w2] eqn:Hu.
    + intros H. injection H as <- _.
      destruct (yields_updateLocated _ _ _ _ _ _ _ Hu) as [-> Hid].
      eexists. exact Hid.
    + intros H. unfold bind, log, modify, ret in H. injection H as <- _.
      cbn [Result.status Result.error]. eexists. reflexivity.
  - intros H. unfold ret in H. injection H as <- <-.
    destruct (locate_result _ _ _ _ _ _ _ Hloc) as [[-> H]|[-> H]]; exact H.
  - intros H. unfold bind, log, modify, ret in H. injection H as <- _.
    cbn [Result.status Result.error]. eexists. reflexivity.
Qed.

Lemma update_branch_results_witness :
  exists r w',
    handleExistingCase demoEnv senior
      (updatePayload (Some "Arun Mehta Sharma"%string) None None)
      (World.initial [arunContract; arunProperty]) = (Returns r, w') /\
    Result.status r = Result.CLARIFICATION_NEEDED /\
    2 <= length (Result.matches r) /\ Forall realMatch (Result.matches r) /\
    untouched (World.initial [arunContract; arunProperty]) w'.
Proof.
  pose (o := handleExistingCase demoEnv senior
               (updatePayload (Some "Arun Mehta Sharma"%string) None None)
               (World.initial [arunContract; arunProperty])).
  assert (E : handleExistingCase demoEnv senior
                (updatePayload (Some "Arun Mehta Sharma"%string) None None)
                (World.initial [arunContract; arunProperty]) = o) by reflexivity.
  vm_compute in o. unfold o in E.
  eexists; eexists. split; [exact E|]. split; [reflexivity|].
  exact (update_branch_results _ _ _ _ _ _ E).
Defined.




(** X26. An update that names no case, neither by a lookup key nor by a
    case name, is reported as an error and writes nothing: the search fails
    on the absent key before the store is read. *)
Theorem update_without_reference_is_an_error
    (env : Env.t) (user : User.t) (d : Payload.t) (w : World.t) :
  or_else (Payload.lookup_key d) (Payload.case_name d) = None ->
  exists r w',
    handleExistingCase env user d w = (Returns r, w') /\
    Result.status r = Result.ERROR /\
    (exists msg, Result.error r = Some msg) /\
    untouched w w'.
Proof.
  intros Hkey. unfold handleExistingCase. rewrite Hkey.
  eexists; eexists. split; [reflexivity|].
  split; [reflexivity|]. split; [eexists; reflexivity | repeat split].
Qed.

Lemma update_without_reference_is_an_error_witness :
  or_else (Payload.lookup_key namelessUpdate) (Payload.case_name namelessUpdate) = None /\
  exists r w',
    handleExistingCase demoEnv senior namelessUpdate (World.initial [sharmaProperty])
    = (Returns r, w') /\
    Result.status r = Result.ERROR /\
    (exists msg, Result.error r = Some msg) /\
    untouched (World.initial [sharmaProperty]) w'.
Proof.
  split; [reflexivity|].
  apply update_without_reference_is_an_error. reflexivity.
Defined.


